(** * Cola supply-chain simulation: the weekly allocation engine of Cola.py

    A shallow embedding of [simulate_week] (with its local helper
    [split_into_skus]) and of the weekly run loop of Cola.py, and the
    properties of the allocation that the specification states.

    Numbers.  Quantities (demand, inventory, capacity, truck size, safety
    stock) are Python integers, modelled as [Z].  The operator [/] of the
    source is Python's true division: it yields a binary64 float.  Floats
    are modelled exactly, by the IEEE-754 specification of the standard
    library ([SpecFloat], precision 53, maximal exponent 1024), so that
    [int(a * b / c)], [math.floor(a / b)] and [round(x)] are computed as
    the interpreter computes them, rounding included.  The exceptions that
    these operations can raise are results of the model.

    Rows.  The definitions of the first part are the engine called directly
    on Python integers.  The page calls it on the rows of a pandas table,
    whose cells are [numpy.int64] scalars: module [Page] is the engine on
    such rows, and the theorems say for which weeks the two agree. *)

From Stdlib Require Import ZArith Bool List Lia SpecFloat.
Import ListNotations.
Local Open Scope Z_scope.

(** ** Exceptions and the result monad *)

Inductive exn : Type :=
| ZeroDivisionError
| OverflowError
| ValueError.

Inductive result (A : Type) : Type :=
| Ok (a : A)
| Raise (e : exn).

Arguments Ok {A} a.
Arguments Raise {A} e.

Definition bind {A B : Type} (r : result A) (k : A -> result B) : result B :=
  match r with
  | Ok a => k a
  | Raise e => Raise e
  end.

Declare Scope result_scope.
Delimit Scope result_scope with result.
Notation "x <- r ;; k" := (bind r (fun x => k))
  (at level 61, r at next level, right associativity) : result_scope.
Notation "' p <- r ;; k" := (bind r (fun p => k))
  (at level 61, p pattern, r at next level, right associativity) : result_scope.
Local Open Scope result_scope.

Definition raises {A : Type} (r : result A) : Prop :=
  match r with
  | Ok _ => False
  | Raise _ => True
  end.

(** ** Python floats: binary64 *)

Module Float.

Definition prec : Z := 53.
Definition emax : Z := 1024.

Definition float : Type := spec_float.

Definition div : float -> float -> float := SFdiv prec emax.
Definition mul : float -> float -> float := SFmul prec emax.
Definition add : float -> float -> float := SFadd prec emax.
Definition leb : float -> float -> bool := SFleb.

(** An integer as an unrounded significand with exponent 0. *)
Definition raw (z : Z) : float :=
  match z with
  | Z0 => S754_zero false
  | Zpos p => S754_finite false p 0
  | Zneg p => S754_finite true p 0
  end.

(** [float(z)]: the nearest binary64 number; too large an integer raises. *)
Definition of_int (z : Z) : result float :=
  match binary_normalize prec emax z 0 false with
  | S754_infinity _ => Raise OverflowError
  | f => Ok f
  end.

Definition is_zero (x : float) : bool :=
  match x with
  | S754_zero _ => true
  | _ => false
  end.

(** [a / b] on two integers: the correctly rounded quotient. *)
Definition int_truediv (a b : Z) : result float :=
  if b =? 0 then Raise ZeroDivisionError
  else match div (raw a) (raw b) with
       | S754_infinity _ => Raise OverflowError
       | f => Ok f
       end.

(** [x / b] and [x * b], a float by an integer: the integer is converted
    first. *)
Definition truediv_int (x : float) (b : Z) : result float :=
  fb <- of_int b ;;
  if is_zero fb then Raise ZeroDivisionError else Ok (div x fb).

Definition mul_int (x : float) (b : Z) : result float :=
  fb <- of_int b ;;
  Ok (mul x fb).

(** The integer nearest to [a / b], ties to even. *)
Definition rne_div (a b : Z) : Z :=
  let q := a / b in
  match 2 * (a mod b) ?= b with
  | Lt => q
  | Gt => q + 1
  | Eq => if Z.even q then q else q + 1
  end.

Definition signed (s : bool) (m : Z) : Z := if s then - m else m.

(** Conversions of a float to an integer: [int(x)] truncates, [math.floor(x)]
    rounds down, [round(x)] rounds to nearest, ties to even. *)
Definition to_int_with (f : bool -> Z -> Z -> Z) (x : float) : result Z :=
  match x with
  | S754_zero _ => Ok 0
  | S754_infinity _ => Raise OverflowError
  | S754_nan => Raise ValueError
  | S754_finite s m e =>
      Ok (if 0 <=? e then signed s (Zpos m * 2 ^ e) else f s (Zpos m) (- e))
  end.

Definition trunc : float -> result Z :=
  to_int_with (fun s m k => signed s (m / 2 ^ k)).

Definition floor : float -> result Z :=
  to_int_with (fun s m k => signed s m / 2 ^ k).

Definition round : float -> result Z :=
  to_int_with (fun s m k => signed s (rne_div m (2 ^ k))).

(** [round(x, 2)]: the decimal with two places nearest to [x] (ties to
    even), read back as a float. *)
Definition round2 (x : float) : float :=
  match x with
  | S754_finite s m e =>
      let n := if 0 <=? e then Zpos m * 100 * 2 ^ e
               else rne_div (Zpos m * 100) (2 ^ (- e)) in
      if n =? 0 then S754_zero s else div (raw (signed s n)) (raw 100)
  | _ => x
  end.

Definition half : float := S754_finite false (2 ^ 52) (-53).

(** *** The rounding of the standard library's specification, in integers

    The definitions below restate what [binary_round_aux] computes in terms
    of integer division; the lemmas of [FloatFacts] relate the two. *)

Definition fexp : Z -> Z := SpecFloat.fexp prec emax.

(** Where the remainder of [a / b] lies with respect to one half. *)
Definition loc_div (a b : Z) : location :=
  if a mod b =? 0 then loc_Exact else loc_Inexact (2 * (a mod b) ?= b).

Definition rec_div (a b : Z) : shr_record :=
  shr_record_of_loc (a / b) (loc_div a b).

Definition rbit (a b : Z) : bool := b <=? 2 * (a mod b).

Definition sbit (a b : Z) : bool :=
  negb (a mod b =? 0) && negb (2 * (a mod b) =? b).

(** The number of low bits that rounding drops from a significand [m] at
    exponent [e]. *)
Definition shift_amount (m e : Z) : Z := Z.max 0 (fexp (Zdigits2 m + e) - e).

(** Significand and exponent of the rounding of [a / b * 2^e]. *)
Definition round_aux_Z (a b e : Z) : Z * Z :=
  let n := shift_amount (a / b) e in
  let M := rne_div a (b * 2 ^ n) in
  let n2 := shift_amount M (e + n) in
  (M / 2 ^ n2, e + n + n2).

Definition pack (sx : bool) (m e : Z) : float :=
  match m with
  | Z0 => S754_zero sx
  | Zpos p => if e <=? emax - prec then S754_finite sx p e else S754_infinity sx
  | Zneg _ => S754_nan
  end.

Definition div_exponent (m1 e1 m2 e2 : Z) : Z :=
  Z.min (fexp (Zdigits2 m1 + e1 - (Zdigits2 m2 + e2))) (e1 - e2).

Definition div_rounded (m1 e1 m2 e2 : Z) : Z * Z :=
  let e' := div_exponent m1 e1 m2 e2 in
  round_aux_Z (m1 * 2 ^ (e1 - e2 - e')) m2 e'.

(** The integer part of [m * 2^e], for [0 <= m]. *)
Definition scaled_floor (m e : Z) : Z :=
  if 0 <=? e then m * 2 ^ e else m / 2 ^ (- e).

(** A float that is zero or positive. *)
Definition nonneg_float (f : float) : Prop :=
  match f with
  | S754_zero _ => True
  | S754_finite s _ _ => s = false
  | _ => False
  end.

(** A float that is zero, or finite with a significand of at most 53 bits
    and an exponent of at most [K]. *)
Definition finite_below (K : Z) (f : float) : Prop :=
  match f with
  | S754_zero _ => True
  | S754_finite _ m e => Zpos m < 2 ^ 53 /\ e <= K
  | _ => False
  end.

(** A float that is zero, or positive and at most 1. *)
Definition at_most_one (f : float) : Prop :=
  match f with
  | S754_zero _ => True
  | S754_finite s m e => s = false /\ e <= 0 /\ Zpos m <= 2 ^ (- e) /\ Zpos m < 2 ^ 53
  | _ => False
  end.

(** The float 1.0. *)
Definition one : float := S754_finite false (2 ^ 52) (-52).

(** The floats 100.0 and 1000.0. *)
Definition hundred : float := S754_finite false (25 * 2 ^ 48) (-46).
Definition thousand : float := S754_finite false (125 * 2 ^ 46) (-43).

(** A positive float [m * 2^e] with [lo <= c * m * 2^e <= hi]. *)
Definition value_between (lo hi c : Z) (f : float) : Prop :=
  match f with
  | S754_finite false m e =>
      e <= 0 /\ Zpos m < 2 ^ 53 /\
      lo * 2 ^ (- e) <= c * Zpos m <= hi * 2 ^ (- e)
  | _ => False
  end.

(** The float that holds the integer [q] exactly, for [0 <= q < 2^53]. *)
Definition exact (q : Z) : float :=
  match q with
  | Zpos _ => S754_finite false (Z.to_pos (q * 2 ^ (53 - Zdigits2 q))) (Zdigits2 q - 53)
  | _ => S754_zero false
  end.

End Float.

(** ** Dictionaries over the four (DC, SKU) keys *)

Inductive key : Type :=
| North_Regular
| North_Diet
| South_Regular
| South_Diet.

Record quad (A : Type) : Type := mkQuad
  { north_regular : A;
    north_diet : A;
    south_regular : A;
    south_diet : A }.

Arguments mkQuad {A}.
Arguments north_regular {A}.
Arguments north_diet {A}.
Arguments south_regular {A}.
Arguments south_diet {A}.

Definition get {A : Type} (d : quad A) (k : key) : A :=
  match k with
  | North_Regular => north_regular d
  | North_Diet => north_diet d
  | South_Regular => south_regular d
  | South_Diet => south_diet d
  end.

(** A comprehension [{k: f(k) for k in demand}]. *)
Definition comprehension {A : Type} (f : key -> A) : quad A :=
  mkQuad (f North_Regular) (f North_Diet) (f South_Regular) (f South_Diet).

(** The same, when evaluating [f(k)] can raise: keys are visited in the
    order of the dictionary. *)
Definition comprehensionM {A : Type} (f : key -> result A) : result (quad A) :=
  a <- f North_Regular ;;
  b <- f North_Diet ;;
  c <- f South_Regular ;;
  d <- f South_Diet ;;
  Ok (mkQuad a b c d).

(** A dictionary with all four keys. *)
Definition dict : Type := quad Z.

(** [sum(d.values())] *)
Definition sum_values (d : dict) : Z :=
  north_regular d + north_diet d + south_regular d + south_diet d.

(** An inventory that may lack keys; [d.get(k, default)]. *)
Definition inventory : Type := quad (option Z).

Definition get_default (d : inventory) (k : key) (default : Z) : Z :=
  match get d k with
  | Some v => v
  | None => default
  end.

Definition full (d : dict) : inventory :=
  comprehension (fun k => Some (get d k)).

(** ** Inputs *)

Record config : Type := mkConfig
  { PLANT_CAPACITY : Z;
    TRUCK_SIZE : Z;
    SAFETY_STOCK : Z }.

(** One row of the demand table. *)
Record row : Type := mkRow
  { Week : Z;
    row_demand : dict }.

(** ** The simulation function *)

(** The proportional share of the Regular SKU ([reg_share] in
    [split_into_skus]). *)
Definition regular_share (req_reg req_diet : Z) : result Float.float :=
  if 0 <? req_reg + req_diet
  then Float.int_truediv req_reg (req_reg + req_diet)
  else Ok Float.half.

(** Local helper of [simulate_week]: split a truck total between the two
    SKUs of a DC. *)
Definition split_into_skus (req_reg req_diet truck_total : Z) : result (Z * Z) :=
  if truck_total =? 0 then Ok (0, 0)
  else
    reg_share <- regular_share req_reg req_diet ;;
    x <- Float.mul_int reg_share truck_total ;;
    y <- Float.truediv_int x 1000 ;;
    n <- Float.round y ;;
    let reg_alloc := n * 1000 in
    let diet_alloc := truck_total - reg_alloc in
    let '(reg_alloc, diet_alloc) :=
      if diet_alloc <? 0 then (truck_total, 0) else (reg_alloc, diet_alloc) in
    let '(reg_alloc, diet_alloc) :=
      if reg_alloc <? 0 then (0, truck_total) else (reg_alloc, diet_alloc) in
    let reg_alloc := reg_alloc / 1000 * 1000 in
    let diet_alloc := truck_total - reg_alloc in
    Ok (reg_alloc, diet_alloc).

Section Week.

Variable cfg : config.

(** Step 1: requirement per key. *)
Definition required (demand : dict) (starting_inv : inventory) : dict :=
  comprehension (fun k =>
    Z.max 0 (get demand k + SAFETY_STOCK cfg
             - get_default starting_inv k (SAFETY_STOCK cfg))).

(** Step 2: proportional scaling when the capacity is exceeded. *)
Definition scale (req : dict) (capacity : Z) : result dict :=
  let total_required := sum_values req in
  if capacity <? total_required
  then comprehensionM (fun k =>
         q <- Float.int_truediv (get req k * capacity) total_required ;;
         Float.trunc q)
  else Ok req.

(** Step 3: the truck constraint on a DC total. *)
Definition truck_total (dc_total : Z) : result Z :=
  q <- Float.int_truediv dc_total (TRUCK_SIZE cfg) ;;
  n <- Float.floor q ;;
  Ok (n * TRUCK_SIZE cfg).

(** Steps 3 and 4: DC totals, truck totals, split back into SKUs. *)
Definition ship (alloc : dict) : result dict :=
  let north_total := north_regular alloc + north_diet alloc in
  let south_total := south_regular alloc + south_diet alloc in
  north_truck_total <- truck_total north_total ;;
  south_truck_total <- truck_total south_total ;;
  '(n_reg, n_diet) <- split_into_skus (north_regular alloc) (north_diet alloc)
                                      north_truck_total ;;
  '(s_reg, s_diet) <- split_into_skus (south_regular alloc) (south_diet alloc)
                                      south_truck_total ;;
  Ok (mkQuad n_reg n_diet s_reg s_diet).

(** Steps 1 to 4: the shipments [alloc_truck]. *)
Definition allocate (demand : dict) (starting_inv : inventory) (capacity : Z)
  : result dict :=
  alloc <- scale (required demand starting_inv) capacity ;;
  ship alloc.

(** Step 5: inventories, never negative. *)
Definition ending_inventory (demand : dict) (starting_inv : inventory)
    (alloc_truck : dict) : dict :=
  comprehension (fun k =>
    Z.max 0 (get_default starting_inv k (SAFETY_STOCK cfg)
             + get alloc_truck k - get demand k)).

(** Step 6: fulfillment. *)
Definition fulfilled_quantities (demand alloc_truck : dict) : dict :=
  comprehension (fun k => Z.min (get demand k) (get alloc_truck k)).

Definition fulfillment_percentage (demand fulfilled : dict) : result Float.float :=
  q <- Float.int_truediv (sum_values fulfilled) (sum_values demand) ;;
  Float.mul_int q 100.

Record week_outcome : Type := mkOutcome
  { out_alloc_truck : dict;
    out_ending_inv : dict;
    out_fulfilled : dict;
    out_fulfillment_pct : Float.float;
    out_total_required : Z }.

Definition simulate_week (r : row) (starting_inv : inventory) (capacity : Z)
  : result week_outcome :=
  let demand := row_demand r in
  let req := required demand starting_inv in
  let total_required := sum_values req in
  alloc <- scale req capacity ;;
  alloc_truck <- ship alloc ;;
  let ending_inv := ending_inventory demand starting_inv alloc_truck in
  let fulfilled := fulfilled_quantities demand alloc_truck in
  fulfillment_pct <- fulfillment_percentage demand fulfilled ;;
  Ok (mkOutcome alloc_truck ending_inv fulfilled fulfillment_pct total_required).

(** ** The run loop *)

Record week_result : Type := mkResult
  { res_Week : Z;
    res_shipments : dict;
    res_Total_Production : Z;
    res_Total_Demand : Z;
    res_Fulfillment : Float.float;
    res_Capacity_Utilization : Float.float;
    res_Trucks_Used : Float.float }.

Definition initial_inventory : inventory :=
  comprehension (fun _ => Some (SAFETY_STOCK cfg)).

(** The body of the loop: one week, from the inventory carried over. *)
Definition run_week (r : row) (inv : inventory)
  : result (week_result * inventory) :=
  out <- simulate_week r inv (PLANT_CAPACITY cfg) ;;
  let shipments := out_alloc_truck out in
  u <- Float.int_truediv (sum_values shipments) (PLANT_CAPACITY cfg) ;;
  utilization <- Float.mul_int u 100 ;;
  tn <- Float.int_truediv (north_regular shipments + north_diet shipments)
                          (TRUCK_SIZE cfg) ;;
  ts <- Float.int_truediv (south_regular shipments + south_diet shipments)
                          (TRUCK_SIZE cfg) ;;
  Ok (mkResult (Week r) shipments (sum_values shipments)
               (sum_values (row_demand r))
               (Float.round2 (out_fulfillment_pct out))
               utilization (Float.add tn ts),
      full (out_ending_inv out)).

Fixpoint run_from (rows : list row) (inv : inventory) (results : list week_result)
  : result (list week_result) :=
  match rows with
  | [] => Ok results
  | r :: rest =>
      '(wr, inv') <- run_week r inv ;;
      run_from rest inv' (results ++ [wr])
  end.

Definition run (rows : list row) : result (list week_result) :=
  run_from rows initial_inventory [].

End Week.

(** ** The inventory chart

    After the results, the script simulates the weeks a second time to
    record the inventory levels that it plots. *)

Record inventory_record : Type := mkInventoryRecord
  { inv_Week : Z;
    inv_levels : dict }.

Fixpoint inventory_records_from (cfg : config) (rows : list row) (inv : inventory)
    (inv_records : list inventory_record) : result (list inventory_record) :=
  match rows with
  | [] => Ok inv_records
  | r :: rest =>
      out <- simulate_week cfg r inv (PLANT_CAPACITY cfg) ;;
      inventory_records_from cfg rest (full (out_ending_inv out))
        (inv_records ++ [mkInventoryRecord (Week r) (out_ending_inv out)])
  end.

Definition inventory_records (cfg : config) (rows : list row)
  : result (list inventory_record) :=
  inventory_records_from cfg rows (initial_inventory cfg) [].

(** ** Concrete inputs *)

(** The defaults of the sidebar: capacity 150000, truck size 10000, safety
    stock 5000; and the week of Scenario A. *)
Definition reference_config : config := mkConfig 150000 10000 5000.

Definition scenario_A_row : row := mkRow 1 (mkQuad 40000 10000 30000 10000).

(** The week of Scenario B: every demand at 50000. *)
Definition scenario_B_row : row := mkRow 2 (mkQuad 50000 50000 50000 50000).

(** A week without demand. *)
Definition idle_row : row := mkRow 1 (mkQuad 0 0 0 0).

(** A plant of 140 million units a week, and a week that asks for slightly
    more than its capacity. *)
Definition large_config : config := mkConfig 140000000 10000 5000.

Definition large_row : row := mkRow 1 (mkQuad 108888896 31111113 0 0).


Definition huge_row : row := mkRow 1 (mkQuad 19999999999999999 0 0 0).

Definition vast_config : config := mkConfig 30000000000000000 10000 5000.

Definition vast_row : row := mkRow 1 (mkQuad 29999999999999999 0 0 0).

(** Configurations that the data model excludes. *)
Definition negative_capacity_config : config := mkConfig (-150000) 10000 5000.


(** A truck size off the 1000-grid, and a week for it. *)
Definition odd_truck_config : config := mkConfig 150000 1500 5000.

Definition odd_truck_row : row := mkRow 1 (mkQuad 1500 0 0 0).


(** A week that asks for Diet only in the North. *)
Definition diet_only_row : row := mkRow 3 (mkQuad 0 25000 20000 10000).

(** ** Quantities on the grid of the truck constraint

    Nothing negative, the Regular quantities multiples of 1000, the total
    of each DC a whole number of trucks. *)
Definition on_grid (cfg : config) (d : dict) : Prop :=
  (forall k, 0 <= get d k) /\
  (1000 | north_regular d) /\ (1000 | south_regular d) /\
  (TRUCK_SIZE cfg | north_regular d + north_diet d) /\
  (TRUCK_SIZE cfg | south_regular d + south_diet d) /\
  sum_values d < 2 ^ 52.

(** A week whose demand is on the grid and within the capacity. *)
Definition steady_row (cfg : config) (r : row) : Prop :=
  on_grid cfg (row_demand r) /\
  0 < sum_values (row_demand r) <= PLANT_CAPACITY cfg.

(** Three such weeks for the reference configuration. *)
Definition steady_rows : list row :=
  [ scenario_A_row;
    mkRow 2 (mkQuad 33000 7000 0 20000);
    mkRow 3 (mkQuad 50000 0 61000 39000) ].

(** Allocations off the grid: no multiple of 1000, no whole truck. *)
Definition ragged_alloc : dict := mkQuad 31234 16411 20977 5023.

(** An inventory with one key missing and one above the safety stock. *)
Definition partial_inventory : inventory :=
  mkQuad (Some 5000) (Some 15000) None (Some 5000).

(** What the run can take: a week with some demand, nothing negative, and
    quantities small enough for the floats to hold them exactly. *)
Definition moderate_row (cfg : config) (r : row) : Prop :=
  (forall k, 0 <= get (row_demand r) k) /\
  0 < sum_values (row_demand r) /\
  sum_values (row_demand r) + 4 * SAFETY_STOCK cfg < 2 ^ 53 /\
  (forall k, (get (row_demand r) k + SAFETY_STOCK cfg) * PLANT_CAPACITY cfg < 2 ^ 53).

(** * The engine on the rows of the page

    [simulate_week] does not fix the type of its numbers.  Called directly
    with Python integers it computes as the definitions above.  The page
    calls it on the rows of [df.iterrows()]: for a table of integers the
    cells are [numpy.int64] scalars, while the three settings of the sidebar
    and every literal of the script are Python integers.  The module below
    is the same code on numbers of either kind, with the scalar arithmetic
    of NumPy 2 where a [numpy.int64] takes part:
    - [+], [-], [*] wrap around modulo [2^64]; a Python integer next to a
      [numpy.int64] is converted to [int64] first, and raises
      [OverflowError] when it does not fit;
    - [/] converts both integers to binary64 and divides the floats; a
      zero divisor gives an infinity or a NaN, not an exception;
    - comparisons are exact; [max(0, x)] and [min(a, b)] return one of
      their arguments, the first unless the second is strictly better;
    - [round(x, 2)] on a [numpy.float64] is [rint(x * 100.0) / 100.0]. *)

Module Page.

Inductive num : Type :=
| PyInt (z : Z)
| Int64 (z : Z).

Definition val (n : num) : Z :=
  match n with
  | PyInt z => z
  | Int64 z => z
  end.

(** The range of [int64], and the wrap-around of its arithmetic. *)
Definition fits (z : Z) : bool := (- 2 ^ 63 <=? z) && (z <? 2 ^ 63).

Definition wrap (z : Z) : Z := (z + 2 ^ 63) mod 2 ^ 64 - 2 ^ 63.

Definition as_int64 (n : num) : result Z :=
  match n with
  | Int64 z => Ok z
  | PyInt z => if fits z then Ok z else Raise OverflowError
  end.

Definition arith (op : Z -> Z -> Z) (a b : num) : result num :=
  match a, b with
  | PyInt x, PyInt y => Ok (PyInt (op x y))
  | _, _ =>
      x <- as_int64 a ;;
      y <- as_int64 b ;;
      Ok (Int64 (wrap (op x y)))
  end.

Definition add : num -> num -> result num := arith Z.add.
Definition sub : num -> num -> result num := arith Z.sub.
Definition mul : num -> num -> result num := arith Z.mul.

(** [float64(z)] for [z] in the range of [int64]: the nearest binary64. *)
Definition to_float64 (z : Z) : Float.float :=
  binary_normalize Float.prec Float.emax z 0 false.

(** [a / b]: Python's division on two Python integers, the division of
    the two floats otherwise. *)
Definition truediv (a b : num) : result Float.float :=
  match a, b with
  | PyInt x, PyInt y => Float.int_truediv x y
  | _, _ =>
      x <- as_int64 a ;;
      y <- as_int64 b ;;
      Ok (Float.div (to_float64 x) (to_float64 y))
  end.

(** [max(0, x)] and [min(a, b)] *)
Definition max0 (x : num) : num := if 0 <? val x then x else PyInt 0.

Definition min (a b : num) : num := if val b <? val a then b else a.

(** [sum(d.values())]: from the Python integer 0, in the order of the
    keys. *)
Definition sum_nums (d : quad num) : result num :=
  a <- add (PyInt 0) (north_regular d) ;;
  b <- add a (north_diet d) ;;
  c <- add b (south_regular d) ;;
  add c (south_diet d).

(** [rint(x)]: the nearest integral float, ties to even. *)
Definition rint (x : Float.float) : Float.float :=
  match x with
  | S754_finite s m e =>
      if 0 <=? e then x
      else binary_normalize Float.prec Float.emax
             (Float.signed s (Float.rne_div (Zpos m) (2 ^ (- e)))) 0 s
  | _ => x
  end.

(** [round(x, 2)] on a [numpy.float64] *)
Definition round2 (x : Float.float) : Float.float :=
  Float.div (rint (Float.mul x Float.hundred)) Float.hundred.

(** The cells of a row, and the values of a dictionary of numbers. *)
Definition cells (d : dict) : quad num := comprehension (fun k => Int64 (get d k)).

Definition values (d : quad num) : dict := comprehension (fun k => val (get d k)).

Definition python (d : dict) : quad num := comprehension (fun k => PyInt (get d k)).

Definition inventory : Type := quad (option num).

Definition get_default (d : inventory) (k : key) (default : Z) : num :=
  match get d k with
  | Some v => v
  | None => PyInt default
  end.

Definition full (d : quad num) : inventory :=
  comprehension (fun k => Some (get d k)).

(** The helper [split_into_skus]: the two allocations are numbers of either
    kind, the truck total is a Python integer. *)
Definition regular_share (req_reg req_diet : num) : result Float.float :=
  total <- add req_reg req_diet ;;
  if 0 <? val total then truediv req_reg total else Ok Float.half.

Definition split_into_skus (req_reg req_diet : num) (truck_total : Z)
  : result (Z * Z) :=
  if truck_total =? 0 then Ok (0, 0)
  else
    reg_share <- regular_share req_reg req_diet ;;
    x <- Float.mul_int reg_share truck_total ;;
    y <- Float.truediv_int x 1000 ;;
    n <- Float.round y ;;
    let reg_alloc := n * 1000 in
    let diet_alloc := truck_total - reg_alloc in
    let '(reg_alloc, diet_alloc) :=
      if diet_alloc <? 0 then (truck_total, 0) else (reg_alloc, diet_alloc) in
    let '(reg_alloc, diet_alloc) :=
      if reg_alloc <? 0 then (0, truck_total) else (reg_alloc, diet_alloc) in
    let reg_alloc := reg_alloc / 1000 * 1000 in
    let diet_alloc := truck_total - reg_alloc in
    Ok (reg_alloc, diet_alloc).

Section Week.

Variable cfg : config.

(** Step 1 *)
Definition required (demand : dict) (starting_inv : inventory) : result (quad num) :=
  comprehensionM (fun k =>
    t <- add (Int64 (get demand k)) (PyInt (SAFETY_STOCK cfg)) ;;
    u <- sub t (get_default starting_inv k (SAFETY_STOCK cfg)) ;;
    Ok (max0 u)).

(** Step 2 *)
Definition scale (req : quad num) (total_required : num) (capacity : Z)
  : result (quad num) :=
  if capacity <? val total_required
  then comprehensionM (fun k =>
         p <- mul (get req k) (PyInt capacity) ;;
         q <- truediv p total_required ;;
         n <- Float.trunc q ;;
         Ok (PyInt n))
  else Ok req.

(** Step 3 *)
Definition truck_total (dc_total : num) : result Z :=
  q <- truediv dc_total (PyInt (TRUCK_SIZE cfg)) ;;
  n <- Float.floor q ;;
  Ok (n * TRUCK_SIZE cfg).

(** Steps 3 and 4 *)
Definition ship (alloc : quad num) : result dict :=
  north_total <- add (north_regular alloc) (north_diet alloc) ;;
  south_total <- add (south_regular alloc) (south_diet alloc) ;;
  north_truck_total <- truck_total north_total ;;
  south_truck_total <- truck_total south_total ;;
  '(n_reg, n_diet) <- split_into_skus (north_regular alloc) (north_diet alloc)
                                      north_truck_total ;;
  '(s_reg, s_diet) <- split_into_skus (south_regular alloc) (south_diet alloc)
                                      south_truck_total ;;
  Ok (mkQuad n_reg n_diet s_reg s_diet).

(** Steps 1 to 4 *)
Definition allocate (demand : dict) (starting_inv : inventory) (capacity : Z)
  : result dict :=
  req <- required demand starting_inv ;;
  total_required <- sum_nums req ;;
  alloc <- scale req total_required capacity ;;
  ship alloc.

(** Step 5 *)
Definition ending_inventory (demand : dict) (starting_inv : inventory)
    (alloc_truck : dict) : result (quad num) :=
  comprehensionM (fun k =>
    t <- add (get_default starting_inv k (SAFETY_STOCK cfg))
             (PyInt (get alloc_truck k)) ;;
    u <- sub t (Int64 (get demand k)) ;;
    Ok (max0 u)).

(** Step 6 *)
Definition fulfilled_quantities (demand alloc_truck : dict) : quad num :=
  comprehension (fun k => min (Int64 (get demand k)) (PyInt (get alloc_truck k))).

Definition fulfillment_percentage (demand : dict) (fulfilled : quad num)
  : result Float.float :=
  f <- sum_nums fulfilled ;;
  d <- sum_nums (cells demand) ;;
  q <- truediv f d ;;
  Float.mul_int q 100.

Record week_outcome : Type := mkOutcome
  { out_alloc_truck : dict;
    out_ending_inv : quad num;
    out_fulfilled : quad num;
    out_fulfillment_pct : Float.float;
    out_total_required : num }.

Definition simulate_week (r : row) (starting_inv : inventory) (capacity : Z)
  : result week_outcome :=
  let demand := row_demand r in
  req <- required demand starting_inv ;;
  total_required <- sum_nums req ;;
  alloc <- scale req total_required capacity ;;
  alloc_truck <- ship alloc ;;
  ending_inv <- ending_inventory demand starting_inv alloc_truck ;;
  let fulfilled := fulfilled_quantities demand alloc_truck in
  fulfillment_pct <- fulfillment_percentage demand fulfilled ;;
  Ok (mkOutcome alloc_truck ending_inv fulfilled fulfillment_pct total_required).

(** The run loop.  The shipments are Python integers, so that the
    utilization and the trucks are computed as in a direct call; the total
    demand is a sum of cells and the fulfillment a [numpy.float64]. *)
Record week_result : Type := mkResult
  { res_Week : Z;
    res_shipments : dict;
    res_Total_Production : Z;
    res_Total_Demand : num;
    res_Fulfillment : Float.float;
    res_Capacity_Utilization : Float.float;
    res_Trucks_Used : Float.float }.

Definition initial_inventory : inventory :=
  comprehension (fun _ => Some (PyInt (SAFETY_STOCK cfg))).

Definition run_week (r : row) (inv : inventory)
  : result (week_result * inventory) :=
  out <- simulate_week r inv (PLANT_CAPACITY cfg) ;;
  let shipments := out_alloc_truck out in
  total_demand <- sum_nums (cells (row_demand r)) ;;
  u <- Float.int_truediv (sum_values shipments) (PLANT_CAPACITY cfg) ;;
  utilization <- Float.mul_int u 100 ;;
  tn <- Float.int_truediv (north_regular shipments + north_diet shipments)
                          (TRUCK_SIZE cfg) ;;
  ts <- Float.int_truediv (south_regular shipments + south_diet shipments)
                          (TRUCK_SIZE cfg) ;;
  Ok (mkResult (Week r) shipments (sum_values shipments) total_demand
               (round2 (out_fulfillment_pct out))
               utilization (Float.add tn ts),
      full (out_ending_inv out)).

Fixpoint run_from (rows : list row) (inv : inventory) (results : list week_result)
  : result (list week_result) :=
  match rows with
  | [] => Ok results
  | r :: rest =>
      '(wr, inv') <- run_week r inv ;;
      run_from rest inv' (results ++ [wr])
  end.

Definition run (rows : list row) : result (list week_result) :=
  run_from rows initial_inventory [].

End Week.

(** What a division by zero leaves in a [numpy.float64]: a NaN or an
    infinity. *)
Definition not_finite (x : Float.float) : Prop :=
  match x with
  | S754_nan => True
  | S754_infinity _ => True
  | _ => False
  end.

(** A row of the page: every cell in the range of [int64]. *)
Definition int64_row (r : row) : Prop :=
  forall k, fits (get (row_demand r) k) = true.

End Page.

(** The values of an inventory, as a direct call would receive them. *)
Definition inventory_values (inv : Page.inventory) : inventory :=
  comprehension (fun k => option_map Page.val (get inv k)).

(** A week of moderate size: a positive capacity, a positive truck size
    and a safety stock that is not negative, as the sidebar gives them
    (below [2^53]); demands and inventories that are not negative (below
    [2^62]); a total requirement below [2^53], with products
    [required[k] * capacity] below [2^53] when it exceeds the capacity. *)
Definition moderate_week (cfg : config) (demand : dict) (inv : Page.inventory)
    (capacity : Z) : Prop :=
  0 < capacity /\ 0 < TRUCK_SIZE cfg < 2 ^ 53 /\ 0 <= SAFETY_STOCK cfg < 2 ^ 53 /\
  (forall k, 0 <= get demand k < 2 ^ 62) /\
  (forall k, 0 <= Page.val (Page.get_default inv k (SAFETY_STOCK cfg)) < 2 ^ 62) /\
  sum_values (required cfg demand (inventory_values inv)) < 2 ^ 53 /\
  (capacity < sum_values (required cfg demand (inventory_values inv)) ->
   forall k, get (required cfg demand (inventory_values inv)) k * capacity < 2 ^ 53).
(** * Facts on binary64 rounding *)

Module FloatFacts.
Import Float.

Lemma digits2_pos_size p : digits2_pos p = Pos.size p.
Proof. induction p; simpl; congruence. Qed.

Lemma Zdigits2_log2 m : 0 < m -> Zdigits2 m = Z.log2 m + 1.
Proof.
  destruct m as [|p|p]; try lia. intros _. simpl.
  rewrite digits2_pos_size.
  destruct p; simpl; lia.
Qed.

Lemma Zdigits2_bounds m : 0 < m -> 2 ^ (Zdigits2 m - 1) <= m < 2 ^ Zdigits2 m.
Proof.
  intros H. rewrite (Zdigits2_log2 m H).
  replace (Z.log2 m + 1 - 1) with (Z.log2 m) by lia.
  replace (Z.log2 m + 1) with (Z.succ (Z.log2 m)) by lia.
  apply Z.log2_spec; assumption.
Qed.

Lemma Zdigits2_nonneg m : 0 <= Zdigits2 m.
Proof. destruct m; simpl; lia. Qed.

Lemma Zdigits2_pos m : 0 < m -> 0 < Zdigits2 m.
Proof. destruct m; simpl; lia. Qed.

Lemma Zdigits2_le_iff m k : 0 < m -> 0 <= k -> (Zdigits2 m <= k <-> m < 2 ^ k).
Proof.
  intros Hm Hk. pose proof (Zdigits2_bounds m Hm) as [Hl Hu].
  pose proof (Zdigits2_pos m Hm).
  split; intros H1.
  - apply Z.lt_le_trans with (2 ^ Zdigits2 m); [assumption|].
    apply Z.pow_le_mono_r; lia.
  - destruct (Z_le_gt_dec (Zdigits2 m) k) as [|Hgt]; [assumption|].
    exfalso. assert (2 ^ k <= 2 ^ (Zdigits2 m - 1)) by (apply Z.pow_le_mono_r; lia).
    lia.
Qed.

Lemma shr_1_nonneg m r s :
  0 <= m -> shr_1 (Build_shr_record m r s) = Build_shr_record (m / 2) (Z.odd m) (r || s).
Proof.
  intros Hm. destruct m as [|p|p]; [reflexivity| |lia].
  destruct p as [p|p|]; simpl shr_1.
  - f_equal. rewrite Pos2Z.inj_xI. apply Z.div_unique with 1; lia.
  - f_equal. rewrite Pos2Z.inj_xO. apply Z.div_unique with 0; lia.
  - reflexivity.
Qed.

Lemma rec_div_bits a b :
  0 < b -> rec_div a b = Build_shr_record (a / b) (rbit a b) (sbit a b).
Proof.
  intros Hb. unfold rec_div, loc_div, rbit, sbit.
  pose proof (Z.mod_pos_bound a b Hb) as Hr.
  remember (a mod b) as r eqn:Er. remember (2 * r) as t eqn:Et.
  destruct (Z.eqb_spec r 0) as [E|E];
    destruct (Z.compare_spec t b) as [C|C|C];
    destruct (Z.leb_spec b t); destruct (Z.eqb_spec t b);
    try lia; reflexivity.
Qed.

Lemma div_mod_double a b :
  0 < b ->
  (a mod (2 * b) < b /\ a / b = 2 * (a / (2 * b)) /\ a mod b = a mod (2 * b)) \/
  (b <= a mod (2 * b) /\ a / b = 2 * (a / (2 * b)) + 1 /\ a mod b = a mod (2 * b) - b).
Proof.
  intros Hb.
  pose proof (Z.div_mod a (2 * b) ltac:(lia)) as Hdm.
  pose proof (Z.mod_pos_bound a (2 * b) ltac:(lia)) as Hr.
  destruct (Z_lt_le_dec (a mod (2 * b)) b) as [Hlt|Hge]; [left|right]; split; try assumption.
  - split.
    + symmetry. apply Z.div_unique with (a mod (2 * b)); lia.
    + symmetry. apply Z.mod_unique with (2 * (a / (2 * b))); lia.
  - split.
    + symmetry. apply Z.div_unique with (a mod (2 * b) - b); lia.
    + symmetry. apply Z.mod_unique with (2 * (a / (2 * b)) + 1); lia.
Qed.

Lemma shr_1_rec_div a b :
  0 <= a -> 0 < b -> shr_1 (rec_div a b) = rec_div a (2 * b).
Proof.
  intros Ha Hb.
  rewrite (rec_div_bits a b Hb), (rec_div_bits a (2 * b)) by lia.
  rewrite shr_1_nonneg by (apply Z.div_pos; lia).
  unfold rbit, sbit.
  pose proof (Z.mod_pos_bound a (2 * b) ltac:(lia)) as Hr.
  destruct (div_mod_double a b Hb) as [(H1 & H2 & H3)|(H1 & H2 & H3)];
    rewrite H2, H3; remember (a mod (2 * b)) as r eqn:Er;
    remember (a / (2 * b)) as q eqn:Eq.
  - assert (Hq : 2 * q / 2 = q) by (symmetry; apply Z.div_unique with 0; lia).
    assert (Ho : Z.odd (2 * q) = false) by (rewrite Z.odd_mul; reflexivity).
    rewrite Hq, Ho.
    remember (2 * r) as t eqn:Et. remember (2 * b) as b2 eqn:Eb.
    destruct (Z.leb_spec b t); destruct (Z.leb_spec b2 t);
      destruct (Z.eqb_spec r 0); destruct (Z.eqb_spec t b);
      destruct (Z.eqb_spec t b2); try lia; reflexivity.
  - assert (Hq : (2 * q + 1) / 2 = q) by (symmetry; apply Z.div_unique with 1; lia).
    assert (Ho : Z.odd (2 * q + 1) = true)
      by (rewrite Z.odd_add, Z.odd_mul; reflexivity).
    rewrite Hq, Ho.
    remember (2 * (r - b)) as t eqn:Et. remember (2 * b) as b2 eqn:Eb.
    remember (2 * r) as t2 eqn:Et2.
    destruct (Z.leb_spec b t); destruct (Z.leb_spec b2 t2);
      destruct (Z.eqb_spec (r - b) 0); destruct (Z.eqb_spec r 0);
      destruct (Z.eqb_spec t b);
      destruct (Z.eqb_spec t2 b2); try lia; reflexivity.
Qed.

Lemma pow2_xO p : 2 ^ Zpos p~0 = 2 ^ Zpos p * 2 ^ Zpos p.
Proof. rewrite <- Z.pow_add_r by lia. f_equal. lia. Qed.

Lemma pow2_xI p : 2 ^ Zpos p~1 = 2 * (2 ^ Zpos p * 2 ^ Zpos p).
Proof.
  replace (Zpos p~1) with (1 + (Zpos p + Zpos p)) by lia.
  rewrite Z.pow_add_r, Z.pow_add_r by lia. reflexivity.
Qed.

Lemma pow2_pos k : 0 < 2 ^ k \/ (k < 0 /\ 2 ^ k = 0).
Proof.
  destruct (Z_lt_le_dec k 0) as [H|H].
  - right. split; [assumption|]. apply Z.pow_neg_r; assumption.
  - left. apply Z.pow_pos_nonneg; lia.
Qed.

Lemma iter_shr_1_rec_div p : forall a b,
  0 <= a -> 0 < b -> iter_pos shr_1 p (rec_div a b) = rec_div a (b * 2 ^ Zpos p).
Proof.
  induction p as [p IH|p IH|]; intros a b Ha Hb; simpl iter_pos.
  - assert (0 < 2 ^ Zpos p) by (apply Z.pow_pos_nonneg; lia).
    rewrite shr_1_rec_div, IH, IH by (try apply Z.mul_pos_pos; lia).
    f_equal. rewrite pow2_xI. lia.
  - assert (0 < 2 ^ Zpos p) by (apply Z.pow_pos_nonneg; lia).
    rewrite IH, IH by (try apply Z.mul_pos_pos; lia).
    f_equal. rewrite pow2_xO. lia.
  - rewrite shr_1_rec_div by assumption. f_equal. rewrite Z.pow_1_r. lia.
Qed.

Lemma round_rec_div a b :
  0 < b ->
  round_nearest_even (shr_m (rec_div a b)) (loc_of_shr_record (rec_div a b)) = rne_div a b.
Proof.
  intros Hb. unfold rec_div, loc_div, rne_div.
  pose proof (Z.mod_pos_bound a b Hb) as Hr.
  remember (a mod b) as r eqn:Er. remember (2 * r) as t eqn:Et.
  destruct (Z.eqb_spec r 0) as [E|E].
  - destruct (Z.compare_spec t b); try lia. reflexivity.
  - destruct (t ?= b); reflexivity.
Qed.

Lemma rne_div_bounds a b :
  0 < b -> a / b <= rne_div a b <= a / b + 1.
Proof.
  intros Hb. unfold rne_div.
  destruct (2 * (a mod b) ?= b); [destruct (Z.even (a / b))| |]; lia.
Qed.

Lemma rne_div_nonneg a b : 0 <= a -> 0 < b -> 0 <= rne_div a b.
Proof.
  intros Ha Hb. pose proof (rne_div_bounds a b Hb).
  pose proof (Z.div_pos a b Ha Hb). lia.
Qed.

Lemma shr_m_rec_div a b : shr_m (rec_div a b) = a / b.
Proof. unfold rec_div. destruct (loc_div a b) as [|[]]; reflexivity. Qed.

Lemma shr_fexp_rec_div a b e :
  0 <= a -> 0 < b ->
  shr_fexp prec emax (a / b) e (loc_div a b)
  = (rec_div a (b * 2 ^ shift_amount (a / b) e), e + shift_amount (a / b) e).
Proof.
  intros Ha Hb. unfold shr_fexp, shift_amount, fexp.
  fold (rec_div a b).
  destruct (SpecFloat.fexp prec emax (Zdigits2 (a / b) + e) - e) as [|p|p] eqn:E;
    unfold shr.
  - rewrite Z.max_id. rewrite Z.pow_0_r, Z.mul_1_r, Z.add_0_r. reflexivity.
  - rewrite Z.max_r by lia. rewrite iter_shr_1_rec_div by assumption. reflexivity.
  - rewrite Z.max_l by lia. rewrite Z.pow_0_r, Z.mul_1_r, Z.add_0_r. reflexivity.
Qed.

Lemma loc_div_1 m : loc_div m 1 = loc_Exact.
Proof. unfold loc_div. rewrite Z.mod_1_r. reflexivity. Qed.

Theorem binary_round_aux_spec sx a b e :
  0 <= a -> 0 < b ->
  binary_round_aux prec emax sx (a / b) e (loc_div a b)
  = pack sx (fst (round_aux_Z a b e)) (snd (round_aux_Z a b e)).
Proof.
  intros Ha Hb. unfold binary_round_aux.
  rewrite shr_fexp_rec_div by assumption.
  set (n := shift_amount (a / b) e).
  assert (Hn : 0 <= n) by (apply Z.le_max_l).
  assert (Hb' : 0 < b * 2 ^ n) by (apply Z.mul_pos_pos; [|apply Z.pow_pos_nonneg]; lia).
  rewrite round_rec_div by assumption.
  set (M := rne_div a (b * 2 ^ n)).
  assert (HM : 0 <= M) by (apply rne_div_nonneg; assumption).
  rewrite <- (Z.div_1_r M) at 1. rewrite <- (loc_div_1 M).
  rewrite shr_fexp_rec_div by lia.
  rewrite shr_m_rec_div, Z.div_1_r, Z.mul_1_l.
  unfold round_aux_Z. fold n. fold M. simpl fst. simpl snd.
  unfold pack. reflexivity.
Qed.

Lemma fexp_eq x : fexp x = Z.max (x - 53) (-1074).
Proof. reflexivity. Qed.

Lemma fexp_mono x y : x <= y -> fexp x <= fexp y.
Proof. rewrite !fexp_eq. lia. Qed.

Lemma pow2_gt0 k : 0 <= k -> 0 < 2 ^ k.
Proof. intros. apply Z.pow_pos_nonneg; lia. Qed.

Lemma rne_div_le a b N : 0 < b -> a <= N * b -> rne_div a b <= N.
Proof.
  intros Hb H. pose proof (rne_div_bounds a b Hb) as Hq.
  pose proof (Z.div_mod a b ltac:(lia)) as Hdm.
  pose proof (Z.mod_pos_bound a b Hb) as Hr.
  destruct (Z_lt_le_dec (a / b) N) as [Hlt|Hge]; [lia|].
  assert (a / b = N) by nia.
  assert (a mod b = 0) by nia.
  unfold rne_div. replace (2 * (a mod b)) with 0 by lia.
  destruct (Z.compare_spec 0 b); lia.
Qed.

Lemma rne_div_ge a b N : 0 < b -> N * b <= a -> N <= rne_div a b.
Proof.
  intros Hb H. pose proof (rne_div_bounds a b Hb) as Hq.
  assert (N <= a / b) by (apply Z.div_le_lower_bound; lia).
  lia.
Qed.

Lemma rne_div_exact a b : 0 < b -> rne_div (a * b) b = a.
Proof.
  intros Hb. apply Z.le_antisymm.
  - apply rne_div_le; lia.
  - apply rne_div_ge; lia.
Qed.

Lemma rne_div_cancel a b c : 0 < b -> 0 < c -> rne_div (a * c) (b * c) = rne_div a b.
Proof.
  intros Hb Hc. unfold rne_div.
  rewrite Z.div_mul_cancel_r by lia.
  rewrite Z.mul_mod_distr_r by lia.
  remember (a mod b) as r eqn:Er. remember (a / b) as q eqn:Eq.
  destruct (Z.compare_spec (2 * r) b);
    destruct (Z.compare_spec (2 * (r * c)) (b * c)); try reflexivity; nia.
Qed.

(** A quotient rounded to nearest exceeds its floor only when the remainder
    is at least half the divisor. *)
Lemma rne_div_up a b :
  0 < b -> rne_div a b = a / b + 1 -> b <= 2 * (a mod b).
Proof.
  intros Hb. unfold rne_div.
  destruct (Z.compare_spec (2 * (a mod b)) b); [|lia|lia].
  destruct (Z.even (a / b)); lia.
Qed.

Lemma shift_amount_nonneg q e : 0 <= shift_amount q e.
Proof. apply Z.le_max_l. Qed.

Lemma shift_amount_small q e :
  0 <= q -> q / 2 ^ shift_amount q e < 2 ^ 53.
Proof.
  intros Hq. set (n := shift_amount q e).
  assert (Hn : 0 <= n) by apply shift_amount_nonneg.
  pose proof (pow2_gt0 n Hn) as Hp.
  apply Z.div_lt_upper_bound; [assumption|].
  destruct (Z.eq_dec q 0) as [->|Hq0].
  - apply Z.mul_pos_pos; [assumption|reflexivity].
  - pose proof (Zdigits2_bounds q ltac:(lia)) as [_ Hu].
    rewrite <- Z.pow_add_r by lia.
    apply Z.lt_le_trans with (1 := Hu).
    apply Z.pow_le_mono_r; [lia|].
    unfold n, shift_amount. rewrite fexp_eq. lia.
Qed.

Lemma shift_amount_emin q e : -1074 <= e + shift_amount q e.
Proof. unfold shift_amount. rewrite fexp_eq. lia. Qed.

Lemma shift_amount_normal q e :
  0 <= q -> e <= fexp (Zdigits2 q + e) ->
  e + shift_amount q e = -1074 \/ 2 ^ 52 <= q / 2 ^ shift_amount q e.
Proof.
  intros Hq Hc. unfold shift_amount. rewrite fexp_eq in *.
  destruct (Z_le_gt_dec (Zdigits2 q + e - 53) (-1074)) as [H|H].
  - left. lia.
  - right. rewrite Z.max_r by lia.
    replace (Z.max (Zdigits2 q + e - 53) (-1074) - e) with (Zdigits2 q - 53) by lia.
    assert (Hd : 53 <= Zdigits2 q) by lia.
    assert (Hq0 : 0 < q) by (destruct q; simpl in *; lia).
    apply Z.div_le_lower_bound; [apply pow2_gt0; lia|].
    rewrite <- Z.pow_add_r by lia.
    replace (Zdigits2 q - 53 + 52) with (Zdigits2 q - 1) by lia.
    apply (Zdigits2_bounds q Hq0).
Qed.

(** The two roundings of [binary_round_aux] in closed form: the second shift
    only absorbs the carry of the first. *)
Lemma round_aux_Z_cases a b e :
  0 <= a -> 0 < b ->
  let n := shift_amount (a / b) e in
  let M := rne_div a (b * 2 ^ n) in
  M <= 2 ^ 53 /\
  round_aux_Z a b e = if M =? 2 ^ 53 then (2 ^ 52, e + n + 1) else (M, e + n).
Proof.
  intros Ha Hb n M.
  assert (Hn : 0 <= n) by apply shift_amount_nonneg.
  pose proof (pow2_gt0 n Hn) as Hp.
  assert (Hb' : 0 < b * 2 ^ n) by (apply Z.mul_pos_pos; assumption).
  assert (Hq : 0 <= a / b) by (apply Z.div_pos; assumption).
  pose proof (shift_amount_small (a / b) e Hq) as Hs. fold n in Hs.
  rewrite Z.div_div in Hs by lia.
  assert (HM : M <= 2 ^ 53).
  { apply rne_div_le; [assumption|].
    pose proof (Z.div_mod a (b * 2 ^ n) ltac:(lia)).
    pose proof (Z.mod_pos_bound a (b * 2 ^ n) Hb'). nia. }
  split; [assumption|].
  assert (HM0 : 0 <= M) by (apply rne_div_nonneg; assumption).
  pose proof (shift_amount_emin (a / b) e) as He. fold n in He.
  unfold round_aux_Z. fold n. fold M.
  destruct (Z.eqb_spec M (2 ^ 53)) as [E|E].
  - rewrite E. unfold shift_amount. rewrite fexp_eq.
    replace (Zdigits2 (2 ^ 53)) with 54 by reflexivity.
    replace (Z.max 0 (Z.max (54 + (e + n) - 53) (-1074) - (e + n))) with 1 by lia.
    reflexivity.
  - assert (Hd : Zdigits2 M <= 53).
    { destruct (Z.eq_dec M 0) as [->|HM1]; [simpl; lia|].
      apply Zdigits2_le_iff; lia. }
    unfold shift_amount. rewrite fexp_eq.
    replace (Z.max 0 (Z.max (Zdigits2 M + (e + n) - 53) (-1074) - (e + n))) with 0 by lia.
    rewrite Z.pow_0_r, Z.div_1_r, Z.add_0_r. reflexivity.
Qed.

Lemma new_location_spec nb k :
  0 < nb -> 0 <= k < nb ->
  new_location nb k = if k =? 0 then loc_Exact else loc_Inexact (2 * k ?= nb).
Proof.
  intros Hnb Hk. unfold new_location, new_location_even, new_location_odd.
  destruct (Z.even nb) eqn:Ev; [reflexivity|].
  destruct (Z.eqb_spec k 0) as [E|E]; [reflexivity|].
  f_equal.
  assert (Hodd : Z.odd nb = true) by (rewrite <- Z.negb_even, Ev; reflexivity).
  apply Z.odd_spec in Hodd. destruct Hodd as [h Hh].
  remember (2 * k) as t eqn:Et.
  destruct (Z.compare_spec (t + 1) nb); destruct (Z.compare_spec t nb);
    try reflexivity; lia.
Qed.

Lemma div_core_spec m1 e1 m2 e2 :
  0 < m1 -> 0 < m2 ->
  let e' := div_exponent m1 e1 m2 e2 in
  let a := m1 * 2 ^ (e1 - e2 - e') in
  SFdiv_core_binary prec emax m1 e1 m2 e2 = (a / m2, e', loc_div a m2).
Proof.
  intros H1 H2 e' a. unfold SFdiv_core_binary.
  change (Z.min (SpecFloat.fexp prec emax (Zdigits2 m1 + e1 - (Zdigits2 m2 + e2))) (e1 - e2))
    with e'.
  assert (Hs : 0 <= e1 - e2 - e') by (unfold e', div_exponent; lia).
  assert (Hm' : match e1 - e2 - e' with
                | Z0 => m1
                | Zpos _ => Z.shiftl m1 (e1 - e2 - e')
                | Zneg _ => 0
                end = a).
  { unfold a. destruct (e1 - e2 - e') as [|p|p] eqn:E.
    - rewrite Z.pow_0_r. lia.
    - rewrite Z.shiftl_mul_pow2 by lia. reflexivity.
    - lia. }
  rewrite Hm'.
  pose proof (Z.mod_pos_bound a m2 H2) as Hr.
  unfold Z.modulo, Z.div in *. unfold loc_div, Z.modulo.
  destruct (Z.div_eucl a m2) as [q r].
  rewrite new_location_spec by assumption. reflexivity.
Qed.

Lemma div_core_canonical m1 e1 m2 e2 :
  0 < m1 -> 0 < m2 ->
  let e' := div_exponent m1 e1 m2 e2 in
  let q := m1 * 2 ^ (e1 - e2 - e') / m2 in
  e' <= fexp (Zdigits2 q + e').
Proof.
  intros H1 H2 e' q.
  set (s := e1 - e2 - e'). set (delta := Zdigits2 m1 + e1 - (Zdigits2 m2 + e2)).
  assert (He : e' <= fexp delta /\ e' <= e1 - e2) by (unfold e', div_exponent; fold delta; lia).
  assert (Hs : 0 <= s) by (unfold s; lia).
  pose proof (pow2_gt0 s Hs) as Hps.
  pose proof (Zdigits2_bounds m1 H1) as [Hl1 Hu1].
  pose proof (Zdigits2_bounds m2 H2) as [Hl2 Hu2].
  pose proof (Zdigits2_pos m1 H1) as Hd1. pose proof (Zdigits2_pos m2 H2) as Hd2.
  assert (Hq0 : 0 <= q) by (apply Z.div_pos; nia).
  (* the quotient has at least [d1 + s - d2] digits *)
  assert (Hdq : Zdigits2 m1 + s - Zdigits2 m2 <= Zdigits2 q \/ (q = 0 /\ Zdigits2 m1 + s <= Zdigits2 m2)).
  { destruct (Z_le_gt_dec (Zdigits2 m1 + s) (Zdigits2 m2)) as [Hle|Hgt].
    - destruct (Z.eq_dec q 0) as [Hz|Hz]; [right; split; assumption|].
      left. pose proof (Zdigits2_pos q ltac:(lia)). lia.
    - left. set (k := Zdigits2 m1 + s - Zdigits2 m2 - 1).
      assert (Hk : 0 <= k) by (unfold k; lia).
      assert (Hqk : 2 ^ k <= q).
      { apply Z.div_le_lower_bound; [assumption|].
        apply Z.le_trans with (2 ^ (Zdigits2 m1 - 1) * 2 ^ s).
        - apply Z.le_trans with (2 ^ Zdigits2 m2 * 2 ^ k).
          + apply Z.mul_le_mono_nonneg_r; [apply Z.lt_le_incl, pow2_gt0; assumption|lia].
          + rewrite <- !Z.pow_add_r by lia. apply Z.pow_le_mono_r; unfold k; lia.
        - apply Z.mul_le_mono_nonneg_r; lia. }
      assert (Hqpos : 0 < q) by (pose proof (pow2_gt0 k Hk); lia).
      destruct (Z_le_gt_dec (k + 1) (Zdigits2 q)) as [|Hc]; [unfold k in *; lia|].
      exfalso. pose proof (Zdigits2_bounds q Hqpos) as [_ Hu].
      assert (2 ^ Zdigits2 q <= 2 ^ k) by (apply Z.pow_le_mono_r; lia). lia. }
  destruct Hdq as [Hdq|[Hz Hle]].
  - apply Z.le_trans with (fexp delta); [lia|].
    apply fexp_mono. unfold delta, s in *. lia.
  - rewrite Hz. simpl Zdigits2. rewrite fexp_eq in *.
    unfold delta, s in *. lia.
Qed.

Lemma SFdiv_finite sx mx ex sy my ey :
  SFdiv prec emax (S754_finite sx mx ex) (S754_finite sy my ey)
  = pack (xorb sx sy) (fst (div_rounded (Zpos mx) ex (Zpos my) ey))
                       (snd (div_rounded (Zpos mx) ex (Zpos my) ey)).
Proof.
  unfold SFdiv. rewrite div_core_spec by lia.
  assert (0 <= 2 ^ (ex - ey - div_exponent (Zpos mx) ex (Zpos my) ey))
    by (apply Z.pow_nonneg; lia).
  rewrite binary_round_aux_spec by nia. reflexivity.
Qed.

(** ** Integer quotients *)

Lemma scaled_floor_carry e : scaled_floor (2 ^ 52) (e + 1) = scaled_floor (2 ^ 53) e.
Proof.
  unfold scaled_floor.
  destruct (Z.leb_spec 0 e) as [H|H]; destruct (Z.leb_spec 0 (e + 1)) as [H'|H']; try lia.
  - rewrite Z.pow_add_r by lia. change (2 ^ 53) with (2 ^ 52 * 2). rewrite Z.pow_1_r. ring.
  - replace e with (-1) by lia. reflexivity.
  - replace (- e) with (- (e + 1) + 1) by lia.
    rewrite Z.pow_add_r by lia. rewrite Z.pow_1_r.
    change (2 ^ 53) with (2 ^ 52 * 2).
    rewrite Z.div_mul_cancel_r; [reflexivity| |lia].
    pose proof (pow2_gt0 (- (e + 1)) ltac:(lia)). lia.
Qed.

Lemma trunc_pack m e :
  0 <= m -> e <= 971 -> trunc (pack false m e) = Ok (scaled_floor m e).
Proof.
  intros Hm He. unfold pack, scaled_floor.
  destruct m as [|p|p]; [|
    |lia].
  - simpl. destruct (0 <=? e); [reflexivity|]. rewrite Zdiv_0_l. reflexivity.
  - change (emax - prec) with 971. destruct (Z.leb_spec e 971); [|lia]. reflexivity.
Qed.

Lemma floor_pack m e :
  0 <= m -> e <= 971 -> floor (pack false m e) = Ok (scaled_floor m e).
Proof.
  intros Hm He. unfold pack, scaled_floor.
  destruct m as [|p|p]; [|
    |lia].
  - simpl. destruct (0 <=? e); [reflexivity|]. rewrite Zdiv_0_l. reflexivity.
  - change (emax - prec) with 971. destruct (Z.leb_spec e 971); [|lia]. reflexivity.
Qed.

(** Rounding [p * 2^k / t] to nearest and dropping the [k] low bits again
    gives the floor of [p / t], as long as [p] fits in 53 bits and the
    rounded significand is normalized or at the lowest exponent. *)
Lemma rne_div_floor p t k :
  0 <= p < 2 ^ 53 -> 0 < t -> 0 <= k ->
  (k = 1074 \/ 2 ^ 52 <= p * 2 ^ k / t) ->
  rne_div (p * 2 ^ k) t <= 2 ^ 53 ->
  rne_div (p * 2 ^ k) t / 2 ^ k = p / t.
Proof.
  intros Hp Ht Hk Hcase HM.
  pose proof (pow2_gt0 k Hk) as Hpk.
  set (M := rne_div (p * 2 ^ k) t) in *.
  set (n0 := p / t).
  pose proof (Z.div_mod p t ltac:(lia)) as Hdm. fold n0 in Hdm.
  pose proof (Z.mod_pos_bound p t Ht) as Hr.
  assert (Hn0 : 0 <= n0) by (apply Z.div_pos; lia).
  assert (Hlow : n0 * 2 ^ k <= M).
  { apply rne_div_ge; [assumption|]. nia. }
  assert (Hup : M < (n0 + 1) * 2 ^ k).
  { destruct (Z_lt_le_dec M ((n0 + 1) * 2 ^ k)) as [|Hge]; [assumption|exfalso].
    set (N := (n0 + 1) * 2 ^ k) in *.
    pose proof (rne_div_bounds (p * 2 ^ k) t Ht) as Hb. fold M in Hb.
    assert (Hfl : p * 2 ^ k / t <= N - 1).
    { assert (p * 2 ^ k / t < N); [|lia].
      apply Z.div_lt_upper_bound; [assumption|]. unfold N. nia. }
    assert (HMN : M = p * 2 ^ k / t + 1) by lia.
    pose proof (rne_div_up _ _ Ht HMN) as Hhalf.
    pose proof (Z.div_mod (p * 2 ^ k) t ltac:(lia)) as Hdm2.
    assert (HfN : p * 2 ^ k / t = N - 1) by lia.
    rewrite HfN in Hdm2.
    (* the divisor is at least [2^(k+1)] *)
    assert (Hgap : 2 ^ k <= N * t - p * 2 ^ k) by (unfold N; nia).
    assert (Ht2 : 2 * 2 ^ k <= t) by lia.
    assert (HpN : 2 * N - 1 <= p).
    { assert (2 * (p * 2 ^ k) >= (2 * N - 1) * t) by lia.
      assert (0 < N) by (unfold N; nia).
      destruct (Z_le_gt_dec (2 * N - 1) p) as [|Hc]; [assumption|exfalso].
      assert (p + 1 <= 2 * N - 1) by lia.
      assert ((p + 1) * (2 * 2 ^ k) <= (2 * N - 1) * t) by (apply Z.mul_le_mono_nonneg; lia).
      nia. }
    destruct Hcase as [Hc|Hc].
    - subst k. assert (2 ^ 1074 <= N) by (unfold N; nia).
      assert (2 ^ 53 < 2 ^ 1074) by (apply Z.pow_lt_mono_r; lia). lia.
    - lia. }
  symmetry. apply Z.div_unique with (M - n0 * 2 ^ k); lia.
Qed.

Lemma div_raw_pos a b :
  0 < a -> 0 < b ->
  div (raw a) (raw b)
  = pack false (fst (div_rounded a 0 b 0)) (snd (div_rounded a 0 b 0)).
Proof.
  intros Ha Hb. destruct a as [|pa|pa]; try lia. destruct b as [|pb|pb]; try lia.
  unfold div, raw. rewrite SFdiv_finite. reflexivity.
Qed.

(** The quotient of two positive integers, when it is below [2^53]: the
    significand is the quotient scaled by [2^k] and rounded to nearest, at
    exponent [- k]. *)
Lemma div_int_rounded a b :
  0 < a -> 0 < b -> Zdigits2 a <= Zdigits2 b + 52 ->
  exists k, 0 <= k <= 1074 /\
    rne_div (a * 2 ^ k) b <= 2 ^ 53 /\
    (k = 1074 \/ 2 ^ 52 <= a * 2 ^ k / b) /\
    div (raw a) (raw b)
    = if rne_div (a * 2 ^ k) b =? 2 ^ 53
      then pack false (2 ^ 52) (1 - k)
      else pack false (rne_div (a * 2 ^ k) b) (- k).
Proof.
  intros Ha Hb Hd. rewrite div_raw_pos by assumption.
  unfold div_rounded.
  set (e' := div_exponent a 0 b 0).
  set (s := 0 - 0 - e').
  assert (He' : -1074 <= e' <= 0).
  { unfold e', div_exponent. rewrite fexp_eq. lia. }
  assert (Hs : 0 <= s) by (unfold s; lia).
  pose proof (pow2_gt0 s Hs) as Hps.
  set (A := a * 2 ^ s).
  assert (HA : 0 <= A) by (unfold A; nia).
  pose proof (round_aux_Z_cases A b e' HA Hb) as [HM Hrd].
  pose proof (div_core_canonical a 0 b 0 Ha Hb) as Hcan. fold e' s A in Hcan.
  assert (Hq : 0 <= A / b) by (apply Z.div_pos; lia).
  pose proof (shift_amount_normal (A / b) e' Hq Hcan) as Hnorm.
  set (n := shift_amount (A / b) e') in *.
  assert (Hn : 0 <= n) by apply shift_amount_nonneg.
  pose proof (pow2_gt0 n Hn) as Hpn.
  pose proof (shift_amount_emin (A / b) e') as Hemin. fold n in Hemin.
  (* the rounded quotient has a non-positive exponent *)
  assert (HE : e' + n <= 0).
  { unfold n, shift_amount. rewrite fexp_eq.
    assert (Zdigits2 (A / b) + e' <= 53); [|lia].
    destruct (Z.eq_dec (A / b) 0) as [Hz|Hz]; [rewrite Hz; simpl; lia|].
    assert (Hqp : 0 < A / b) by lia.
    pose proof (Zdigits2_bounds a Ha) as [_ Hua].
    pose proof (Zdigits2_bounds b Hb) as [Hlb _].
    pose proof (Zdigits2_pos b Hb) as Hdb. pose proof (Zdigits2_pos a Ha) as Hda.
    assert (Zdigits2 (A / b) <= Zdigits2 a + s - Zdigits2 b + 1); [|unfold s in *; lia].
    destruct (Z_le_gt_dec 0 (Zdigits2 a + s - Zdigits2 b + 1)) as [Hk|Hk].
    - apply Zdigits2_le_iff; [assumption|assumption|].
      pose proof (Z.mul_div_le A b Hb) as Hmul.
      assert (HAlt : A < 2 ^ (Zdigits2 a + s)).
      { unfold A. rewrite Z.pow_add_r by lia. nia. }
      assert (Hpw : 2 ^ (Zdigits2 a + s - Zdigits2 b + 1) * 2 ^ (Zdigits2 b - 1)
                    = 2 ^ (Zdigits2 a + s)).
      { rewrite <- Z.pow_add_r by lia. f_equal. lia. }
      pose proof (pow2_gt0 (Zdigits2 b - 1) ltac:(lia)).
      nia.
    - exfalso.
      pose proof (Z.mul_div_le A b Hb) as Hmul.
      assert (HAlt : A < 2 ^ (Zdigits2 a + s)).
      { unfold A. rewrite Z.pow_add_r by lia. nia. }
      assert (2 ^ (Zdigits2 a + s) <= 2 ^ (Zdigits2 b - 1))
        by (apply Z.pow_le_mono_r; lia).
      nia. }
  exists (- (e' + n)).
  assert (Hsplit : A = a * 2 ^ (- (e' + n)) * 2 ^ n).
  { unfold A. rewrite <- Z.mul_assoc, <- Z.pow_add_r by lia.
    f_equal. f_equal. unfold s. lia. }
  assert (HMeq : rne_div A (b * 2 ^ n) = rne_div (a * 2 ^ (- (e' + n))) b).
  { rewrite Hsplit. apply rne_div_cancel; assumption. }
  rewrite HMeq in *.
  split; [lia|]. split; [assumption|]. split.
  - destruct Hnorm as [Hl|Hr]; [left; lia|right].
    rewrite Z.div_div in Hr by lia.
    rewrite Hsplit in Hr. rewrite Z.div_mul_cancel_r in Hr by lia. assumption.
  - rewrite Hrd.
    destruct (rne_div (a * 2 ^ (- (e' + n))) b =? 2 ^ 53); simpl fst; simpl snd;
      f_equal; lia.
Qed.

(** Truncating or flooring the float quotient of two integers gives their
    integer quotient when the dividend is below [2^53]. *)
Lemma int_truediv_floor p t :
  0 <= p < 2 ^ 53 -> 0 < t ->
  exists f, int_truediv p t = Ok f /\ trunc f = Ok (p / t) /\ floor f = Ok (p / t).
Proof.
  intros Hp Ht. unfold int_truediv.
  destruct (Z.eqb_spec t 0) as [|_]; [lia|].
  destruct (Z.eq_dec p 0) as [->|Hp0].
  - destruct t as [|pt|pt]; try lia. simpl. eexists. repeat split.
  - assert (Hpp : 0 < p) by lia.
    assert (Hd : Zdigits2 p <= Zdigits2 t + 52).
    { pose proof (Zdigits2_pos t Ht).
      assert (Zdigits2 p <= 53) by (apply Zdigits2_le_iff; lia). lia. }
    destruct (div_int_rounded p t Hpp Ht Hd) as (k & Hk & HM & Hcase & Hdiv).
    rewrite Hdiv.
    pose proof (rne_div_floor p t k Hp Ht ltac:(lia) Hcase HM) as Hfl.
    pose proof (rne_div_nonneg (p * 2 ^ k) t) as HM0.
    assert (0 < 2 ^ k) by (apply pow2_gt0; lia).
    specialize (HM0 ltac:(nia) Ht).
    assert (Hval : scaled_floor (rne_div (p * 2 ^ k) t) (- k) = p / t).
    { unfold scaled_floor. destruct (Z.leb_spec 0 (- k)).
      - replace k with 0 in * by lia. rewrite Z.pow_0_r in *. simpl.
        rewrite Z.div_1_r in Hfl. lia.
      - rewrite Z.opp_involutive. assumption. }
    destruct (Z.eqb_spec (rne_div (p * 2 ^ k) t) (2 ^ 53)) as [E|E].
    + rewrite E in Hval.
      replace (1 - k) with (- k + 1) by lia.
      assert (Hpk : pack false (2 ^ 52) (- k + 1) = S754_finite false (2 ^ 52) (- k + 1)).
      { unfold pack. change (emax - prec) with 971.
        destruct (Z.leb_spec (- k + 1) 971); [reflexivity|lia]. }
      rewrite Hpk. eexists. split; [reflexivity|].
      rewrite <- Hpk, trunc_pack, floor_pack, scaled_floor_carry, Hval by lia.
      split; reflexivity.
    + set (M := rne_div (p * 2 ^ k) t) in *.
      assert (Hpk : pack false M (- k) = S754_zero false \/
                    exists m, pack false M (- k) = S754_finite false m (- k)).
      { unfold pack. destruct M as [|m|m]; [left; reflexivity| |lia].
        right. exists m. change (emax - prec) with 971.
        destruct (Z.leb_spec (- k) 971); [reflexivity|lia]. }
      assert (Hres : trunc (pack false M (- k)) = Ok (p / t) /\
                     floor (pack false M (- k)) = Ok (p / t)).
      { rewrite trunc_pack, floor_pack, Hval by lia. split; reflexivity. }
      destruct Hpk as [Hz|[m Hm]].
      * rewrite Hz in *. eexists. split; [reflexivity|assumption].
      * rewrite Hm in *. eexists. split; [reflexivity|assumption].
Qed.

(** ** Signs and magnitudes *)

Lemma finite_below_weaken K K' f : K <= K' -> finite_below K f -> finite_below K' f.
Proof. intros H. destruct f; simpl; try tauto. lia. Qed.

Lemma round_aux_Z_nonneg a b e :
  0 <= a -> 0 < b -> 0 <= fst (round_aux_Z a b e).
Proof.
  intros Ha Hb. destruct (round_aux_Z_cases a b e Ha Hb) as [HM ->].
  assert (0 < 2 ^ shift_amount (a / b) e) by (apply pow2_gt0, shift_amount_nonneg).
  pose proof (rne_div_nonneg a (b * 2 ^ shift_amount (a / b) e) Ha ltac:(nia)).
  destruct (_ =? _); simpl; [discriminate|assumption].
Qed.

Lemma pack_nonneg m e :
  0 <= m -> pack false m e = S754_infinity false \/ nonneg_float (pack false m e).
Proof.
  intros Hm. unfold pack. destruct m as [|p|p]; [right; exact I| |lia].
  destruct (e <=? emax - prec); [right; reflexivity|left; reflexivity].
Qed.

Lemma int_truediv_nonneg a b f :
  0 <= a -> 0 < b -> int_truediv a b = Ok f -> nonneg_float f.
Proof.
  intros Ha Hb. unfold int_truediv.
  destruct (Z.eqb_spec b 0) as [|_]; [lia|].
  destruct (Z.eq_dec a 0) as [->|Ha0].
  - destruct b as [|pb|pb]; try lia. simpl. intros [= <-]. exact I.
  - rewrite div_raw_pos by lia.
    assert (H0 : 0 <= 2 ^ (0 - 0 - div_exponent a 0 b 0)) by (apply Z.pow_nonneg; lia).
    pose proof (round_aux_Z_nonneg (a * 2 ^ (0 - 0 - div_exponent a 0 b 0)) b
                  (div_exponent a 0 b 0) ltac:(nia) Hb) as Hm.
    destruct (pack_nonneg _ (snd (div_rounded a 0 b 0)) Hm) as [Hinf|Hnn];
      unfold div_rounded in *.
    + rewrite Hinf. discriminate.
    + destruct (pack false _ _); try contradiction; intros [= <-]; assumption.
Qed.

Lemma trunc_nonneg f n : nonneg_float f -> trunc f = Ok n -> 0 <= n.
Proof.
  destruct f as [s| |  |s m e]; unfold trunc, to_int_with, nonneg_float;
    try contradiction.
  - intros _ [= <-]. lia.
  - intros -> H. unfold signed in H.
    assert (H1 : 0 <= Zpos m * 2 ^ e)
      by (apply Z.mul_nonneg_nonneg; [lia|apply Z.pow_nonneg; lia]).
    assert (H2 : 0 <= Zpos m / 2 ^ (- e)).
    { destruct (pow2_pos (- e)) as [Hp|[_ Hp]].
      - apply Z.div_pos; lia.
      - rewrite Hp, Z.div_0_r. lia. }
    set (x := Zpos m * 2 ^ e) in *. set (y := Zpos m / 2 ^ (- e)) in *.
    destruct (0 <=? e); injection H as <-; assumption.
Qed.

Lemma floor_nonneg f n : nonneg_float f -> floor f = Ok n -> 0 <= n.
Proof.
  destruct f as [s| |  |s m e]; unfold floor, to_int_with, nonneg_float;
    try contradiction.
  - intros _ [= <-]. lia.
  - intros -> H. unfold signed in H.
    assert (H1 : 0 <= Zpos m * 2 ^ e)
      by (apply Z.mul_nonneg_nonneg; [lia|apply Z.pow_nonneg; lia]).
    assert (H2 : 0 <= Zpos m / 2 ^ (- e)).
    { destruct (pow2_pos (- e)) as [Hp|[_ Hp]].
      - apply Z.div_pos; lia.
      - rewrite Hp, Z.div_0_r. lia. }
    set (x := Zpos m * 2 ^ e) in *. set (y := Zpos m / 2 ^ (- e)) in *.
    destruct (0 <=? e); injection H as <-; assumption.
Qed.

Lemma Zdigits2_mono a b : 0 <= a <= b -> Zdigits2 a <= Zdigits2 b.
Proof.
  intros [Ha Hab]. destruct (Z.eq_dec a 0) as [->|Ha0]; [apply Zdigits2_nonneg|].
  apply Zdigits2_le_iff; [lia|apply Zdigits2_nonneg|].
  pose proof (Zdigits2_bounds b ltac:(lia)). lia.
Qed.

Lemma Zdigits2_mul_pow2 m s :
  0 < m -> 0 <= s -> Zdigits2 (m * 2 ^ s) <= Zdigits2 m + s.
Proof.
  intros Hm Hs. pose proof (pow2_gt0 s Hs). pose proof (Zdigits2_pos m Hm).
  pose proof (Zdigits2_bounds m Hm) as [_ Hu].
  apply Zdigits2_le_iff; [nia|lia|].
  rewrite Z.pow_add_r by lia. nia.
Qed.

Lemma Zdigits2_mul a b :
  0 < a -> 0 < b -> Zdigits2 (a * b) <= Zdigits2 a + Zdigits2 b.
Proof.
  intros Ha Hb. pose proof (Zdigits2_pos a Ha). pose proof (Zdigits2_pos b Hb).
  pose proof (Zdigits2_bounds a Ha) as [_ Hua].
  pose proof (Zdigits2_bounds b Hb) as [_ Hub].
  apply Zdigits2_le_iff; [nia|lia|].
  rewrite Z.pow_add_r by lia. nia.
Qed.

Lemma round_aux_below s a b e K :
  0 <= a -> 0 < b ->
  e + shift_amount (a / b) e + 1 <= K -> K <= 971 ->
  finite_below K (pack s (fst (round_aux_Z a b e)) (snd (round_aux_Z a b e))).
Proof.
  intros Ha Hb HK HK'.
  destruct (round_aux_Z_cases a b e Ha Hb) as [HM Hrd]. rewrite Hrd.
  assert (0 < 2 ^ shift_amount (a / b) e) by (apply pow2_gt0, shift_amount_nonneg).
  pose proof (rne_div_nonneg a (b * 2 ^ shift_amount (a / b) e) Ha ltac:(nia)) as HM0.
  destruct (Z.eqb_spec (rne_div a (b * 2 ^ shift_amount (a / b) e)) (2 ^ 53)) as [E|E];
    simpl fst; simpl snd; unfold pack.
  - change (2 ^ 52) with (Zpos (2 ^ 52)). change (emax - prec) with 971.
    destruct (Z.leb_spec (e + shift_amount (a / b) e + 1) 971); [|lia].
    simpl. split; [reflexivity|lia].
  - destruct (rne_div a (b * 2 ^ shift_amount (a / b) e)) as [|m|m]; [exact I| |lia].
    change (emax - prec) with 971.
    destruct (Z.leb_spec (e + shift_amount (a / b) e) 971); [|lia].
    simpl. split; lia.
Qed.

Lemma binary_round_aux_exact sx m e :
  0 <= m ->
  binary_round_aux prec emax sx m e loc_Exact
  = pack sx (fst (round_aux_Z m 1 e)) (snd (round_aux_Z m 1 e)).
Proof.
  intros Hm. rewrite <- binary_round_aux_spec by lia.
  rewrite Z.div_1_r, loc_div_1. reflexivity.
Qed.

Lemma mul_finite sx mx ex sy my ey :
  mul (S754_finite sx mx ex) (S754_finite sy my ey)
  = pack (xorb sx sy) (fst (round_aux_Z (Zpos mx * Zpos my) 1 (ex + ey)))
                       (snd (round_aux_Z (Zpos mx * Zpos my) 1 (ex + ey))).
Proof.
  unfold mul, SFmul. rewrite Pos2Z.inj_mul. apply binary_round_aux_exact. lia.
Qed.

Lemma mul_finite_below K1 K2 K x y :
  finite_below K1 x -> finite_below K2 y ->
  K1 + K2 + 54 <= K -> -1073 <= K -> K <= 971 ->
  finite_below K (mul x y).
Proof.
  intros Hx Hy HK HKl HKu.
  destruct x as [sx| | |sx mx ex]; try contradiction;
    destruct y as [sy| | |sy my ey]; try contradiction; try exact I.
  destruct Hx as [Hmx Hex], Hy as [Hmy Hey].
  rewrite mul_finite. apply round_aux_below; try lia.
  rewrite Z.div_1_r. unfold shift_amount. rewrite fexp_eq.
  pose proof (Zdigits2_mul (Zpos mx) (Zpos my) ltac:(lia) ltac:(lia)).
  assert (Zdigits2 (Zpos mx) <= 53) by (apply Zdigits2_le_iff; lia).
  assert (Zdigits2 (Zpos my) <= 53) by (apply Zdigits2_le_iff; lia).
  lia.
Qed.

Lemma div_finite_below K1 K x sy my ey :
  finite_below K1 x ->
  K1 - ey + 1 <= K -> -1073 <= K -> K <= 971 ->
  finite_below K (div x (S754_finite sy my ey)).
Proof.
  intros Hx HK HKl HKu.
  destruct x as [sx| | |sx mx ex]; try contradiction; [exact I|].
  destruct Hx as [Hmx Hex].
  unfold div. rewrite SFdiv_finite. unfold div_rounded.
  set (e' := div_exponent (Zpos mx) ex (Zpos my) ey).
  set (s := ex - ey - e').
  assert (He' : e' <= ex - ey) by (unfold e', div_exponent; lia).
  assert (Hs : 0 <= s) by (unfold s; lia).
  pose proof (pow2_gt0 s Hs) as Hps.
  apply round_aux_below; try lia.
  set (A := Zpos mx * 2 ^ s).
  assert (Hq : 0 <= A / Zpos my <= A).
  { split; [apply Z.div_pos; unfold A; nia|].
    apply Z.div_le_upper_bound; [lia|]. unfold A. nia. }
  pose proof (Zdigits2_mono _ _ Hq) as Hdq.
  pose proof (Zdigits2_mul_pow2 (Zpos mx) s ltac:(lia) Hs) as HdA. fold A in HdA.
  assert (Zdigits2 (Zpos mx) <= 53) by (apply Zdigits2_le_iff; lia).
  unfold shift_amount. rewrite fexp_eq. unfold s in *. lia.
Qed.

Lemma iter_xO m d : Zpos (Pos.iter xO m d) = Zpos m * 2 ^ Zpos d.
Proof.
  induction d as [|d IH] using Pos.peano_ind.
  - simpl. lia.
  - rewrite Pos.iter_succ, Pos2Z.inj_xO, IH, Pos2Z.inj_succ, Z.pow_succ_r by lia. ring.
Qed.

(** Integers below [2^53] convert to floats without raising. *)
Lemma of_int_finite z :
  0 <= z < 2 ^ 53 ->
  exists f, of_int z = Ok f /\ finite_below 1 f /\ nonneg_float f.
Proof.
  intros Hz. unfold of_int, binary_normalize.
  destruct z as [|m|m]; [|
    |lia].
  - eexists. repeat split.
  - unfold binary_round.
    assert (Hd : 0 < Zdigits2 (Zpos m) <= 53).
    { split; [apply Zdigits2_pos; lia|apply Zdigits2_le_iff; lia]. }
    change (Zpos (digits2_pos m)) with (Zdigits2 (Zpos m)).
    assert (Hfe : SpecFloat.fexp prec emax (Zdigits2 (Zpos m) + 0) = Zdigits2 (Zpos m) - 53).
    { change (SpecFloat.fexp prec emax) with fexp. rewrite fexp_eq. lia. }
    rewrite Hfe.
    assert (Hal : exists mz ez,
               shl_align m 0 (Zdigits2 (Zpos m) - 53) = (mz, ez) /\
               ez <= 0 /\ Zdigits2 (Zpos mz) + ez <= 53).
    { unfold shl_align.
      destruct (Zdigits2 (Zpos m) - 53 - 0) as [|d|d] eqn:Ed.
      - exists m, 0. repeat split; lia.
      - lia.
      - exists (Pos.iter xO m d), (Zdigits2 (Zpos m) - 53). repeat split; try lia.
        rewrite iter_xO.
        pose proof (Zdigits2_mul_pow2 (Zpos m) (Zpos d) ltac:(lia) ltac:(lia)). lia. }
    destruct Hal as (mz & ez & -> & Hez & Hdz).
    rewrite binary_round_aux_exact by lia.
    assert (Hb : finite_below 1 (pack false (fst (round_aux_Z (Zpos mz) 1 ez))
                                            (snd (round_aux_Z (Zpos mz) 1 ez)))).
    { apply round_aux_below; try lia.
      rewrite Z.div_1_r. unfold shift_amount. rewrite fexp_eq. lia. }
    pose proof (round_aux_Z_nonneg (Zpos mz) 1 ez ltac:(lia) ltac:(lia)) as Hnn.
    destruct (pack_nonneg _ (snd (round_aux_Z (Zpos mz) 1 ez)) Hnn) as [Hinf|Hnf].
    + rewrite Hinf in Hb. contradiction.
    + destruct (pack false _ _) eqn:Ep; try contradiction;
        eexists; (split; [reflexivity|]); split; assumption.
Qed.

Lemma round_finite_below K f : finite_below K f -> exists n, round f = Ok n.
Proof.
  destruct f; simpl; try contradiction; intros _; eexists; reflexivity.
Qed.

(** ** Ratios and percentages *)

Lemma of_int_100 : of_int 100 = Ok hundred.
Proof. reflexivity. Qed.

Lemma of_int_1000 : of_int 1000 = Ok thousand.
Proof. reflexivity. Qed.

Lemma pack_finite s m e :
  0 < m -> e <= 971 -> pack s m e = S754_finite s (Z.to_pos m) e.
Proof.
  intros Hm He. unfold pack. destruct m as [|p|p]; try lia.
  change (emax - prec) with 971. destruct (Z.leb_spec e 971); [reflexivity|lia].
Qed.

(** The float quotient of [a] by [b], for [0 <= a <= b]. *)
Lemma int_truediv_le a b :
  0 <= a <= b -> 0 < b ->
  exists f, int_truediv a b = Ok f /\ at_most_one f.
Proof.
  intros Ha Hb. unfold int_truediv.
  destruct (Z.eqb_spec b 0) as [|_]; [lia|].
  destruct (Z.eq_dec a 0) as [->|Ha0].
  - destruct b as [|pb|pb]; try lia. simpl. eexists. split; [reflexivity|exact I].
  - assert (Hap : 0 < a) by lia.
    pose proof (Zdigits2_mono a b ltac:(lia)) as Hd.
    destruct (div_int_rounded a b Hap Hb ltac:(lia)) as (k & Hk & HM & _ & Hdiv).
    rewrite Hdiv. clear Hdiv.
    pose proof (pow2_gt0 k ltac:(lia)) as Hpk.
    assert (HMk : rne_div (a * 2 ^ k) b <= 2 ^ k) by (apply rne_div_le; nia).
    pose proof (rne_div_nonneg (a * 2 ^ k) b ltac:(nia) Hb) as HM0.
    destruct (Z.eqb_spec (rne_div (a * 2 ^ k) b) (2 ^ 53)) as [E|E].
    + rewrite pack_finite by lia. eexists. split; [reflexivity|].
      assert (53 <= k).
      { destruct (Z_le_gt_dec 53 k); [assumption|exfalso].
        assert (2 ^ k < 2 ^ 53) by (apply Z.pow_lt_mono_r; lia). lia. }
      unfold at_most_one. change (Z.pos (Z.to_pos (2 ^ 52))) with (2 ^ 52).
      split; [reflexivity|]. split; [lia|]. split; [|lia].
      replace (- (1 - k)) with (k - 1) by lia.
      apply Z.pow_le_mono_r; lia.
    + destruct (rne_div (a * 2 ^ k) b) as [|m|m] eqn:EM; [|
        |lia].
      * simpl. eexists. split; [reflexivity|exact I].
      * rewrite pack_finite by lia. eexists. split; [reflexivity|].
        unfold at_most_one. simpl Z.to_pos. rewrite Z.opp_involutive.
        repeat split; lia.
Qed.

Lemma leb_finite m1 e1 m2 e2 :
  e1 < e2 \/ (e1 = e2 /\ Zpos m1 <= Zpos m2) ->
  leb (S754_finite false m1 e1) (S754_finite false m2 e2) = true.
Proof.
  intros H. unfold leb, SFleb, SFcompare.
  destruct (Z.compare_spec e1 e2) as [E|E|E]; [|reflexivity|lia].
  destruct H as [H|[_ H]]; [lia|].
  change (Pos.compare_cont Eq m1 m2) with (Pos.compare m1 m2).
  destruct (Pos.compare_spec m1 m2); try reflexivity. lia.
Qed.

(** A ratio of at most 1, as a percentage, lies between 0.0 and 100.0. *)
Lemma mul_hundred_bounds q :
  at_most_one q ->
  exists p, mul_int q 100 = Ok p /\
            leb (S754_zero false) p = true /\ leb p hundred = true.
Proof.
  intros Hq. unfold mul_int. rewrite of_int_100. simpl bind.
  destruct q as [s| | |s m e]; try contradiction.
  - eexists. split; [reflexivity|]. split; reflexivity.
  - destruct Hq as (-> & He & Hm & Hm53).
    unfold hundred. rewrite mul_finite. simpl xorb.
    set (m100 := Z.pos (25 * 2 ^ 48)).
    assert (Hm100 : m100 = 25 * 2 ^ 48) by reflexivity.
    set (a := Zpos m * m100).
    assert (Ha : 2 ^ 52 <= a) by (unfold a; rewrite Hm100; lia).
    destruct (round_aux_Z_cases a 1 (e + -46) ltac:(lia) ltac:(lia)) as [HM Hrd].
    rewrite Z.div_1_r, Z.mul_1_l in *.
    set (n := shift_amount a (e + -46)) in *.
    assert (Hn : 0 <= n) by apply shift_amount_nonneg.
    pose proof (pow2_gt0 n Hn) as Hpn.
    pose proof (pow2_gt0 (- e) ltac:(lia)) as Hpe.
    assert (Hcan : e + -46 <= fexp (Zdigits2 a + (e + -46))).
    { rewrite fexp_eq.
      assert (53 <= Zdigits2 a); [|lia].
      destruct (Z_le_gt_dec 53 (Zdigits2 a)); [assumption|exfalso].
      assert (Zdigits2 a <= 52) by lia.
      apply Zdigits2_le_iff in H; lia. }
    pose proof (shift_amount_normal a (e + -46) ltac:(lia) Hcan) as Hnorm. fold n in Hnorm.
    (* the product is rounded at an exponent of at most -46 *)
    assert (HE : e + -46 + n <= -46).
    { destruct Hnorm as [Hl|Hr]; [lia|].
      assert (2 ^ 52 * 2 ^ n <= a).
      { pose proof (Z.mul_div_le a (2 ^ n) Hpn). nia. }
      assert (a < 2 ^ 53 * 2 ^ (- e)) by (unfold a; rewrite Hm100; nia).
      assert (Hlt : 2 ^ (52 + n) < 2 ^ (53 + - e))
        by (rewrite !Z.pow_add_r by lia; lia).
      apply Z.pow_lt_mono_r_iff in Hlt; lia. }
    set (M := rne_div a (2 ^ n)) in *.
    assert (HMle : M <= 25 * 2 ^ (2 - (e + -46 + n))).
    { apply rne_div_le; [assumption|].
      rewrite <- Z.mul_assoc, <- Z.pow_add_r by lia.
      replace (2 - (e + -46 + n) + n) with (48 + - e) by lia.
      rewrite Z.pow_add_r by lia. unfold a. rewrite Hm100. nia. }
    assert (HM0 : 0 <= M) by (apply rne_div_nonneg; lia).
    rewrite Hrd. clear Hrd.
    destruct (Z.eqb_spec M (2 ^ 53)) as [E|E]; simpl fst; simpl snd.
    + assert (e + -46 + n <> -46).
      { intros Heq. rewrite Heq in HMle. change (2 - -46) with 48 in HMle. lia. }
      rewrite pack_finite by lia. eexists. split; [reflexivity|].
      split; [reflexivity|]. unfold hundred. apply leb_finite.
      destruct (Z.eq_dec (e + -46 + n + 1) (-46)); [right|left; lia].
      split; [assumption|]. vm_compute. discriminate.
    + destruct M as [|pm|pm] eqn:EM; [|
        |lia].
      * simpl. eexists. split; [reflexivity|]. split; reflexivity.
      * rewrite pack_finite by lia. eexists. split; [reflexivity|].
        split; [reflexivity|]. unfold hundred. apply leb_finite.
        destruct (Z.eq_dec (e + -46 + n) (-46)) as [Heq|]; [right|left; lia].
        split; [assumption|]. rewrite Heq in HMle. change (2 - -46) with 48 in HMle.
        simpl Z.to_pos. fold m100. lia.
Qed.

(** ** Floats that hold integers *)

Lemma Zdigits2_unique m d : 2 ^ (d - 1) <= m < 2 ^ d -> 0 < d -> Zdigits2 m = d.
Proof.
  intros [Hl Hu] Hd.
  assert (Hm : 0 < m) by (pose proof (pow2_gt0 (d - 1) ltac:(lia)); lia).
  pose proof (Zdigits2_bounds m Hm) as [Hl' Hu'].
  pose proof (Zdigits2_pos m Hm) as Hp.
  destruct (Z.lt_trichotomy (Zdigits2 m) d) as [H|[H|H]]; [exfalso|assumption|exfalso].
  - assert (2 ^ Zdigits2 m <= 2 ^ (d - 1)) by (apply Z.pow_le_mono_r; lia). lia.
  - assert (2 ^ d <= 2 ^ (Zdigits2 m - 1)) by (apply Z.pow_le_mono_r; lia). lia.
Qed.

Lemma Zdigits2_mul_pow2_eq q j :
  0 < q -> 0 <= j -> Zdigits2 (q * 2 ^ j) = Zdigits2 q + j.
Proof.
  intros Hq Hj. pose proof (Zdigits2_bounds q Hq) as [Hl Hu].
  pose proof (Zdigits2_pos q Hq) as Hp. pose proof (pow2_gt0 j Hj) as Hpj.
  apply Zdigits2_unique; [|lia]. split.
  - replace (Zdigits2 q + j - 1) with (Zdigits2 q - 1 + j) by lia.
    rewrite Z.pow_add_r by lia. nia.
  - rewrite Z.pow_add_r by lia. nia.
Qed.

Lemma exact_pos q :
  0 < q ->
  exact q = S754_finite false (Z.to_pos (q * 2 ^ (53 - Zdigits2 q))) (Zdigits2 q - 53).
Proof. destruct q; try lia. reflexivity. Qed.

(** Rounding an integer below [2^53], given with at least 53 bits, keeps
    it. *)
Lemma round_aux_exact q j :
  0 < q < 2 ^ 53 -> 0 <= j -> 53 <= Zdigits2 q + j ->
  pack false (fst (round_aux_Z (q * 2 ^ j) 1 (- j))) (snd (round_aux_Z (q * 2 ^ j) 1 (- j)))
  = exact q.
Proof.
  intros Hq Hj Hd. rewrite exact_pos by lia.
  pose proof (pow2_gt0 j Hj) as Hpj.
  pose proof (Zdigits2_pos q ltac:(lia)) as Hdq.
  assert (Hdq53 : Zdigits2 q <= 53) by (apply Zdigits2_le_iff; lia).
  pose proof (Zdigits2_bounds q ltac:(lia)) as [Hl Hu].
  destruct (round_aux_Z_cases (q * 2 ^ j) 1 (- j) ltac:(nia) ltac:(lia)) as [_ Hrd].
  rewrite Z.div_1_r, Z.mul_1_l in Hrd.
  assert (Hn : shift_amount (q * 2 ^ j) (- j) = Zdigits2 q - 53 + j).
  { unfold shift_amount. rewrite Zdigits2_mul_pow2_eq, fexp_eq by lia. lia. }
  rewrite Hn in Hrd.
  set (c := 53 - Zdigits2 q) in *.
  pose proof (pow2_gt0 c ltac:(unfold c; lia)) as Hpc.
  pose proof (pow2_gt0 (Zdigits2 q - 53 + j) ltac:(lia)) as Hpn.
  assert (HM : rne_div (q * 2 ^ j) (2 ^ (Zdigits2 q - 53 + j)) = q * 2 ^ c).
  { replace (q * 2 ^ j) with (q * 2 ^ c * 2 ^ (Zdigits2 q - 53 + j)).
    - apply rne_div_exact. assumption.
    - rewrite <- Z.mul_assoc, <- Z.pow_add_r by (unfold c; lia).
      f_equal. f_equal. unfold c. lia. }
  rewrite HM in Hrd.
  assert (Hlt : q * 2 ^ c < 2 ^ 53).
  { assert (Hsplit : 2 ^ 53 = 2 ^ Zdigits2 q * 2 ^ c).
    { rewrite <- Z.pow_add_r by (unfold c; lia). f_equal. unfold c. lia. }
    rewrite Hsplit. nia. }
  destruct (Z.eqb_spec (q * 2 ^ c) (2 ^ 53)) as [E|_]; [lia|].
  rewrite Hrd. cbn [fst snd]. rewrite pack_finite by nia.
  f_equal. lia.
Qed.

Lemma of_int_exact q : 0 <= q < 2 ^ 53 -> of_int q = Ok (exact q).
Proof.
  intros Hq. destruct q as [|m|m]; [reflexivity| |lia].
  unfold of_int, binary_normalize, binary_round.
  assert (Hd : 0 < Zdigits2 (Zpos m) <= 53).
  { split; [apply Zdigits2_pos; lia|apply Zdigits2_le_iff; lia]. }
  change (Zpos (digits2_pos m)) with (Zdigits2 (Zpos m)).
  assert (Hfe : SpecFloat.fexp prec emax (Zdigits2 (Zpos m) + 0) = Zdigits2 (Zpos m) - 53).
  { change (SpecFloat.fexp prec emax) with fexp. rewrite fexp_eq. lia. }
  rewrite Hfe.
  set (j := 53 - Zdigits2 (Zpos m)).
  assert (Hal : exists mz, shl_align m 0 (Zdigits2 (Zpos m) - 53) = (mz, - j) /\
                           Zpos mz = Zpos m * 2 ^ j).
  { unfold shl_align. destruct (Zdigits2 (Zpos m) - 53 - 0) as [|d|d] eqn:Ed.
    - exists m. replace j with 0 by (unfold j; lia). split; [reflexivity|].
      rewrite Z.pow_0_r. lia.
    - lia.
    - exists (Pos.iter xO m d). split; [f_equal; unfold j; lia|].
      rewrite iter_xO. f_equal. f_equal. unfold j. lia. }
  destruct Hal as (mz & -> & Hmz).
  rewrite binary_round_aux_exact by lia. rewrite Hmz.
  rewrite round_aux_exact by (unfold j; lia).
  rewrite exact_pos by lia. reflexivity.
Qed.

Lemma round_exact q : 0 <= q < 2 ^ 53 -> round (exact q) = Ok q.
Proof.
  intros Hq. destruct q as [|m|m]; [reflexivity| |lia].
  rewrite exact_pos by lia. unfold round, to_int_with.
  set (d := Zdigits2 (Zpos m)).
  assert (Hd : 0 < d <= 53).
  { split; [apply Zdigits2_pos; lia|apply Zdigits2_le_iff; lia]. }
  pose proof (pow2_gt0 (53 - d) ltac:(lia)) as Hp.
  rewrite Z2Pos.id by nia. unfold signed.
  destruct (Z.leb_spec 0 (d - 53)) as [H|H].
  - replace (d - 53) with 0 by lia. replace (53 - d) with 0 by lia.
    rewrite !Z.pow_0_r. f_equal. lia.
  - replace (- (d - 53)) with (53 - d) by lia.
    rewrite rne_div_exact by assumption. reflexivity.
Qed.

(** The float quotient of [q * b] by [b] holds [q]. *)
Lemma int_truediv_exact q b :
  0 <= q -> 0 < b -> q * b < 2 ^ 53 -> int_truediv (q * b) b = Ok (exact q).
Proof.
  intros Hq Hb Hqb. destruct (Z.eq_dec q 0) as [->|Hq0].
  - destruct (int_truediv_floor 0 b ltac:(lia) Hb) as (f & Hf & _).
    unfold int_truediv in *. destruct (Z.eqb_spec b 0); [lia|].
    destruct b; try lia. reflexivity.
  - assert (Hqp : 0 < q) by lia. assert (Hq53 : q < 2 ^ 53) by nia.
    unfold int_truediv. destruct (Z.eqb_spec b 0) as [|_]; [lia|].
    assert (Hdig : Zdigits2 (q * b) <= Zdigits2 b + 52).
    { pose proof (Zdigits2_pos b Hb).
      assert (Zdigits2 (q * b) <= 53) by (apply Zdigits2_le_iff; nia). lia. }
    destruct (div_int_rounded (q * b) b ltac:(nia) Hb Hdig) as (k & Hk & HM & Hcase & ->).
    pose proof (pow2_gt0 k ltac:(lia)) as Hpk.
    replace (q * b * 2 ^ k) with (q * 2 ^ k * b) in * by ring.
    rewrite rne_div_exact in * by assumption.
    rewrite Z.div_mul in Hcase by lia.
    assert (Hk' : k <> 1074).
    { intros ->. assert (2 ^ 53 < 2 ^ 1074) by (apply Z.pow_lt_mono_r; lia). nia. }
    destruct Hcase as [|Hlow]; [contradiction|].
    rewrite exact_pos by assumption.
    pose proof (Zdigits2_pos q Hqp) as Hdq.
    assert (Hdq53 : Zdigits2 q <= 53) by (apply Zdigits2_le_iff; lia).
    destruct (Z.eqb_spec (q * 2 ^ k) (2 ^ 53)) as [E|E].
    + assert (Hd : Zdigits2 q = 54 - k).
      { pose proof (Zdigits2_mul_pow2_eq q k Hqp ltac:(lia)) as Hmul.
        rewrite E in Hmul. change (Zdigits2 (2 ^ 53)) with 54 in Hmul. lia. }
      rewrite pack_finite by lia.
      assert (Hm : q * 2 ^ (53 - Zdigits2 q) = 2 ^ 52).
      { rewrite Hd. replace (53 - (54 - k)) with (k - 1) by lia.
        assert (1 <= k) by lia.
        replace (2 ^ k) with (2 * 2 ^ (k - 1)) in E
          by (rewrite <- Z.pow_succ_r by lia; f_equal; lia).
        change (2 ^ 53) with (2 * 2 ^ 52) in E. lia. }
      rewrite Hm. replace (Zdigits2 q - 53) with (1 - k) by lia. reflexivity.
    + assert (Hd : Zdigits2 q = 53 - k).
      { pose proof (Zdigits2_mul_pow2_eq q k Hqp ltac:(lia)) as Hmul.
        rewrite (Zdigits2_unique (q * 2 ^ k) 53) in Hmul
          by (change (2 ^ (53 - 1)) with (2 ^ 52); lia).
        lia. }
      rewrite pack_finite by nia.
      replace (53 - Zdigits2 q) with k by lia.
      replace (Zdigits2 q - 53) with (- k) by lia. reflexivity.
Qed.

Lemma exact_canonical t :
  0 < t < 2 ^ 53 ->
  let c := 53 - Zdigits2 t in
  0 <= c <= 52 /\ exact t = S754_finite false (Z.to_pos (t * 2 ^ c)) (- c) /\
  Zpos (Z.to_pos (t * 2 ^ c)) = t * 2 ^ c.
Proof.
  intros Ht c. pose proof (Zdigits2_pos t ltac:(lia)).
  assert (Zdigits2 t <= 53) by (apply Zdigits2_le_iff; lia).
  pose proof (pow2_gt0 c ltac:(unfold c; lia)).
  split; [unfold c; lia|]. split.
  - rewrite exact_pos by lia. fold c. f_equal. unfold c. lia.
  - apply Z2Pos.id. nia.
Qed.

(** Multiplying by 1.0 changes nothing. *)
Lemma mul_one_exact t : 0 <= t < 2 ^ 53 -> mul one (exact t) = exact t.
Proof.
  intros Ht. destruct (Z.eq_dec t 0) as [->|Ht0]; [reflexivity|].
  destruct (exact_canonical t ltac:(lia)) as (Hc & He & Hm).
  set (c := 53 - Zdigits2 t) in *.
  rewrite He at 1. unfold one. rewrite mul_finite. cbn [xorb].
  rewrite Hm. change (Z.pos (2 ^ 52)) with (2 ^ 52).
  replace (2 ^ 52 * (t * 2 ^ c)) with (t * 2 ^ (52 + c))
    by (rewrite Z.pow_add_r by lia; ring).
  replace (-52 + - c) with (- (52 + c)) by lia.
  apply round_aux_exact; unfold c in *; lia.
Qed.

Lemma round_aux_Z_quotient q b e :
  0 <= q -> 0 < b -> round_aux_Z (q * b) b e = round_aux_Z q 1 e.
Proof.
  intros Hq Hb. unfold round_aux_Z.
  rewrite Z.div_mul, Z.div_1_r, Z.mul_1_l by lia.
  assert (0 < 2 ^ shift_amount q e) by (apply pow2_gt0, shift_amount_nonneg).
  replace (b * 2 ^ shift_amount q e) with (2 ^ shift_amount q e * b) by ring.
  rewrite rne_div_cancel by assumption. reflexivity.
Qed.

(** Dividing a multiple of 1000 by 1000.0 gives the quotient. *)
Lemma div_thousand_exact q :
  0 <= q -> 1000 * q < 2 ^ 53 -> div (exact (1000 * q)) thousand = exact q.
Proof.
  intros Hq Hb. destruct (Z.eq_dec q 0) as [->|Hq0]; [reflexivity|].
  set (t := 1000 * q) in *.
  destruct (exact_canonical t ltac:(unfold t; lia)) as (Hc & He & Hm).
  set (c := 53 - Zdigits2 t) in *.
  pose proof (pow2_gt0 c ltac:(lia)) as Hpc.
  rewrite He. unfold thousand, div. rewrite SFdiv_finite. cbn [xorb].
  unfold div_rounded. rewrite Hm.
  assert (Hd1 : Zdigits2 (t * 2 ^ c) = 53).
  { rewrite Zdigits2_mul_pow2_eq by (unfold t; lia). unfold c. lia. }
  assert (He' : div_exponent (t * 2 ^ c) (- c) (Z.pos (125 * 2 ^ 46)) (-43) = - (c + 10)).
  { unfold div_exponent. rewrite Hd1.
    change (Zdigits2 (Z.pos (125 * 2 ^ 46))) with 53. rewrite fexp_eq. lia. }
  rewrite He'.
  replace (- c - -43 - - (c + 10)) with 53 by lia.
  replace (t * 2 ^ c * 2 ^ 53) with (q * 2 ^ (c + 10) * Z.pos (125 * 2 ^ 46)).
  - rewrite round_aux_Z_quotient by (try apply Z.mul_nonneg_nonneg; try apply Z.pow_nonneg; lia).
    apply round_aux_exact; try lia.
    (* [q] has at most ten bits fewer than [1000 * q] *)
    assert (Zdigits2 t <= Zdigits2 q + 10); [|unfold c; lia].
    rewrite <- Zdigits2_mul_pow2_eq by lia.
    apply Zdigits2_mono. unfold t. change (2 ^ 10) with 1024. lia.
  - unfold t. rewrite Z.pow_add_r by lia.
    change (Z.pos (125 * 2 ^ 46)) with (125 * 2 ^ 46).
    change (2 ^ 53) with (2 ^ 46 * 2 ^ 7). change (2 ^ 10) with 1024.
    change (2 ^ 7) with 128. ring.
Qed.

Lemma shl_align_fst m e ez :
  ez <= e -> Zpos (fst (shl_align m e ez)) = Zpos m * 2 ^ (e - ez).
Proof.
  intros H. unfold shl_align. destruct (ez - e) as [|d|d] eqn:E.
  - replace (e - ez) with 0 by lia. cbn [fst]. rewrite Z.pow_0_r. lia.
  - lia.
  - cbn [fst]. rewrite iter_xO. f_equal. f_equal. lia.
Qed.

(** Adding two floats that hold integers gives their sum, below [2^53]. *)
Lemma add_exact a b :
  0 <= a -> 0 <= b -> a + b < 2 ^ 53 -> add (exact a) (exact b) = exact (a + b).
Proof.
  intros Ha Hb Hab.
  destruct (Z.eq_dec a 0) as [->|Ha0].
  { destruct (Z.eq_dec b 0) as [->|Hb0]; [reflexivity|].
    rewrite Z.add_0_l. rewrite (exact_pos b) by lia. reflexivity. }
  destruct (Z.eq_dec b 0) as [->|Hb0].
  { rewrite Z.add_0_r. rewrite (exact_pos a) by lia. reflexivity. }
  destruct (exact_canonical a ltac:(lia)) as (Hca & Hea & Hma).
  destruct (exact_canonical b ltac:(lia)) as (Hcb & Heb & Hmb).
  set (ca := 53 - Zdigits2 a) in *. set (cb := 53 - Zdigits2 b) in *.
  rewrite Hea, Heb. unfold add, SFadd. cbn [cond_Zopp].
  set (j := Z.max ca cb).
  replace (Z.min (- ca) (- cb)) with (- j) by (unfold j; lia).
  rewrite !shl_align_fst by (unfold j; lia). rewrite Hma, Hmb.
  assert (HS : a * 2 ^ ca * 2 ^ (- ca - - j) + b * 2 ^ cb * 2 ^ (- cb - - j)
               = (a + b) * 2 ^ j).
  { rewrite <- !Z.mul_assoc, <- !Z.pow_add_r by (unfold j; lia).
    replace (ca + (- ca - - j)) with j by lia.
    replace (cb + (- cb - - j)) with j by lia. ring. }
  rewrite HS.
  pose proof (pow2_gt0 j ltac:(unfold j; lia)) as Hpj.
  assert (Hdab : 53 <= Zdigits2 (a + b) + j).
  { assert (Zdigits2 a <= Zdigits2 (a + b)) by (apply Zdigits2_mono; lia).
    assert (Zdigits2 b <= Zdigits2 (a + b)) by (apply Zdigits2_mono; lia).
    unfold j, ca, cb. lia. }
  assert (Hdab' : Zdigits2 (a + b) <= 53) by (apply Zdigits2_le_iff; lia).
  unfold binary_normalize.
  destruct ((a + b) * 2 ^ j) as [|S|S] eqn:ES; [nia| |nia].
  unfold binary_round.
  change (Zpos (digits2_pos S)) with (Zdigits2 (Zpos S)).
  rewrite <- ES, Zdigits2_mul_pow2_eq by (unfold j; lia).
  change (SpecFloat.fexp prec emax) with fexp.
  assert (Hal : shl_align S (- j) (fexp (Zdigits2 (a + b) + j + - j)) = (S, - j)).
  { unfold shl_align. rewrite fexp_eq.
    destruct (Z.max (Zdigits2 (a + b) + j + - j - 53) (-1074) - - j) eqn:E;
      try reflexivity. lia. }
  rewrite Hal, binary_round_aux_exact by lia.
  rewrite <- ES. apply round_aux_exact; unfold j in *; lia.
Qed.

(** ** Rounding between two numbers *)

Lemma rne_div_nearest a b :
  0 < b -> 2 * a - b <= 2 * (rne_div a b * b) <= 2 * a + b.
Proof.
  intros Hb. unfold rne_div.
  pose proof (Z.div_mod a b ltac:(lia)) as Hdm.
  pose proof (Z.mod_pos_bound a b Hb) as Hr.
  remember (a / b) as q eqn:Eq. remember (a mod b) as r eqn:Er.
  destruct (Z.compare_spec (2 * r) b); [destruct (Z.even q)| |]; nia.
Qed.

(** A quotient within a quarter of an integer rounds to it. *)
Lemma rne_div_near a b r :
  0 < b -> (4 * r - 1) * b <= 4 * a <= (4 * r + 1) * b -> rne_div a b = r.
Proof.
  intros Hb [Hl Hu]. unfold rne_div.
  pose proof (Z.div_mod a b ltac:(lia)) as Hdm.
  pose proof (Z.mod_pos_bound a b Hb) as Hm.
  remember (a / b) as q eqn:Eq. remember (a mod b) as m eqn:Em.
  assert (Hq : q = r \/ q = r - 1) by nia.
  destruct Hq as [-> | ->].
  - destruct (Z.compare_spec (2 * m) b); [nia|reflexivity|nia].
  - destruct (Z.compare_spec (2 * m) b); [nia|nia|lia].
Qed.

(** The rounding of [a / b * 2^e] stays between two bounds that are
    multiples of [2^-g]. *)
Lemma round_aux_between a b e lo hi g :
  0 <= a -> 0 < b -> 0 <= g <= 1074 -> e <= - g ->
  0 < lo -> lo <= hi -> hi < 2 ^ 53 ->
  lo * b * 2 ^ (- e) <= 2 ^ g * a <= hi * b * 2 ^ (- e) ->
  value_between lo hi (2 ^ g)
    (pack false (fst (round_aux_Z a b e)) (snd (round_aux_Z a b e))).
Proof.
  intros Ha Hb Hg He Hlo Hlh Hhi [Hl Hu].
  destruct (round_aux_Z_cases a b e Ha Hb) as [HM Hrd].
  set (n := shift_amount (a / b) e) in *.
  assert (Hn : 0 <= n) by apply shift_amount_nonneg.
  pose proof (pow2_gt0 n Hn) as Hpn.
  pose proof (pow2_gt0 g ltac:(lia)) as Hpg.
  pose proof (pow2_gt0 (- e) ltac:(lia)) as Hpe.
  (* the exponent of the result is at most [- g] *)
  assert (HE : e + n <= - g).
  { unfold n, shift_amount. rewrite fexp_eq.
    assert (Zdigits2 (a / b) + e - 53 <= - g); [|lia].
    destruct (Z.eq_dec (a / b) 0) as [Hz|Hz]; [rewrite Hz; simpl Zdigits2; lia|].
    assert (Hq : 0 < a / b) by (pose proof (Z.div_pos a b Ha Hb); lia).
    assert (Zdigits2 (a / b) <= 53 - g - e); [|lia].
    apply Zdigits2_le_iff; [assumption|lia|].
    pose proof (Z.mul_div_le a b Hb) as Hmul.
    assert (2 ^ g * (b * (a / b)) < 2 ^ 53 * b * 2 ^ (- e)) by nia.
    replace (53 - g - e) with (53 + - e - g) by lia.
    assert (Hsplit : 2 ^ (53 + - e - g) * 2 ^ g = 2 ^ 53 * 2 ^ (- e)).
    { rewrite <- !Z.pow_add_r by lia. f_equal. lia. }
    nia. }
  set (E := e + n) in *.
  pose proof (pow2_gt0 (- E - g) ltac:(lia)) as HpE.
  pose proof (pow2_gt0 (- E) ltac:(lia)) as HpE'.
  assert (HEg : 2 ^ (- E) = 2 ^ (- E - g) * 2 ^ g).
  { rewrite <- Z.pow_add_r by lia. f_equal. lia. }
  assert (Hen : 2 ^ (- e) = 2 ^ (- E) * 2 ^ n).
  { rewrite <- Z.pow_add_r by lia. f_equal. unfold E. lia. }
  set (M := rne_div a (b * 2 ^ n)) in *.
  assert (HMl : lo * 2 ^ (- E - g) <= M).
  { apply rne_div_ge; [nia|].
    apply Z.mul_le_mono_pos_l with (2 ^ g); [assumption|].
    replace (2 ^ g * (lo * 2 ^ (- E - g) * (b * 2 ^ n)))
      with (lo * b * (2 ^ (- E - g) * 2 ^ g * 2 ^ n)) by ring.
    rewrite <- HEg, <- Hen. assumption. }
  assert (HMu : M <= hi * 2 ^ (- E - g)).
  { apply rne_div_le; [nia|].
    apply Z.mul_le_mono_pos_l with (2 ^ g); [assumption|].
    replace (2 ^ g * (hi * 2 ^ (- E - g) * (b * 2 ^ n)))
      with (hi * b * (2 ^ (- E - g) * 2 ^ g * 2 ^ n)) by ring.
    rewrite <- HEg, <- Hen. assumption. }
  assert (HM0 : 0 < M) by nia.
  rewrite Hrd. destruct (Z.eqb_spec M (2 ^ 53)) as [EM|EM]; cbn [fst snd].
  - (* a carry: the exponent is below [- g] *)
    assert (HE1 : E + 1 <= - g).
    { destruct (Z_le_gt_dec (E + 1) (- g)); [assumption|exfalso].
      replace (- E - g) with 0 in * by lia. rewrite Z.pow_0_r in *. lia. }
    rewrite pack_finite by lia. unfold value_between.
    change (Z.pos (Z.to_pos (2 ^ 52))) with (2 ^ 52).
    split; [lia|]. split; [lia|].
    assert (Hh : 2 ^ (- E) = 2 * 2 ^ (- (E + 1))).
    { rewrite <- Z.pow_succ_r by lia. f_equal. lia. }
    change (2 ^ 53) with (2 * 2 ^ 52) in EM. nia.
  - rewrite pack_finite by lia. unfold value_between.
    rewrite Z2Pos.id by assumption.
    split; [lia|]. split; [lia|]. nia.
Qed.

(** The float share [r / t], times [2 * t], is within 1 of [2 * r]. *)
Lemma int_truediv_between r t :
  0 < r <= t -> t < 2 ^ 52 ->
  exists f, int_truediv r t = Ok f /\ value_between (2 * r - 1) (2 * r + 1) (2 * t) f.
Proof.
  intros Hr Ht. unfold int_truediv. destruct (Z.eqb_spec t 0) as [|_]; [lia|].
  pose proof (Zdigits2_mono r t ltac:(lia)) as Hd.
  destruct (div_int_rounded r t ltac:(lia) ltac:(lia) ltac:(lia))
    as (k & Hk & HM & Hcase & ->).
  pose proof (pow2_gt0 k ltac:(lia)) as Hpk.
  set (M := rne_div (r * 2 ^ k) t) in *.
  assert (HMk : M <= 2 ^ k) by (apply rne_div_le; nia).
  assert (Hk52 : 52 <= k).
  { destruct Hcase as [|Hc]; [lia|].
    destruct (Z_le_gt_dec 52 k); [assumption|exfalso].
    assert (2 ^ k < 2 ^ 52) by (apply Z.pow_lt_mono_r; lia).
    pose proof (rne_div_bounds (r * 2 ^ k) t ltac:(lia)). fold M in H0. lia. }
  assert (Htk : t <= 2 ^ k).
  { assert (2 ^ 52 <= 2 ^ k) by (apply Z.pow_le_mono_r; lia). lia. }
  pose proof (rne_div_nearest (r * 2 ^ k) t ltac:(lia)) as Hnear. fold M in Hnear.
  assert (HM0 : 0 < M).
  { assert (1 <= M); [|lia]. apply rne_div_ge; nia. }
  destruct (Z.eqb_spec M (2 ^ 53)) as [E|E].
  - assert (53 <= k).
    { destruct (Z_le_gt_dec 53 k); [assumption|exfalso].
      assert (2 ^ k < 2 ^ 53) by (apply Z.pow_lt_mono_r; lia). lia. }
    rewrite pack_finite by lia. eexists. split; [reflexivity|].
    unfold value_between. change (Z.pos (Z.to_pos (2 ^ 52))) with (2 ^ 52).
    split; [lia|]. split; [lia|].
    replace (- (1 - k)) with (k - 1) by lia.
    assert (Hh : 2 ^ k = 2 * 2 ^ (k - 1)).
    { rewrite <- Z.pow_succ_r by lia. f_equal. lia. }
    change (2 ^ 53) with (2 * 2 ^ 52) in E. nia.
  - rewrite pack_finite by lia. eexists. split; [reflexivity|].
    unfold value_between. rewrite Z2Pos.id by assumption. rewrite Z.opp_involutive.
    split; [lia|]. split; [lia|]. nia.
Qed.

(** Multiplying by an integer [t], between two integers. *)
Lemma mul_between lo hi c t f :
  value_between lo hi c f -> 0 < t < 2 ^ 53 -> 0 < c ->
  forall lo' hi',
    0 < lo' -> lo' <= hi' -> hi' < 2 ^ 53 ->
    c * lo' <= lo * t -> hi * t <= c * hi' ->
    value_between lo' hi' 1 (mul f (exact t)).
Proof.
  intros Hf Ht Hc lo' hi' Hlo Hlh Hhi Hl Hu.
  destruct f as [| | |[] m e]; try contradiction.
  destruct Hf as (He & Hm & Hfl & Hfu).
  destruct (exact_canonical t Ht) as (Hct & -> & Hmt).
  set (ct := 53 - Zdigits2 t) in *.
  rewrite mul_finite. cbn [xorb]. rewrite Hmt.
  pose proof (pow2_gt0 (- e) ltac:(lia)) as Hpe.
  pose proof (pow2_gt0 ct ltac:(lia)) as Hpc.
  assert (Ha : 0 <= Z.pos m * (t * 2 ^ ct)) by nia.
  assert (Hlow : lo' * 2 ^ (- e) <= Z.pos m * t).
  { apply Z.mul_le_mono_pos_l with c; [assumption|].
    apply Z.le_trans with (lo * t * 2 ^ (- e)); nia. }
  assert (Hupp : Z.pos m * t <= hi' * 2 ^ (- e)).
  { apply Z.mul_le_mono_pos_l with c; [assumption|].
    apply Z.le_trans with (hi * t * 2 ^ (- e)); nia. }
  assert (Hsplit : 2 ^ (- (e + - ct)) = 2 ^ (- e) * 2 ^ ct).
  { rewrite <- Z.pow_add_r by lia. f_equal. lia. }
  change 1 with (2 ^ 0) at 1.
  apply round_aux_between; try lia.
  rewrite Hsplit, Z.pow_0_r. nia.
Qed.

(** Dividing by 1000.0 a float within 250 of [1000 * a]: the quotient is
    within a quarter of [a]. *)
Lemma div_thousand_between lo hi a x :
  value_between lo hi 1 x ->
  0 < a -> 4 * a + 1 < 2 ^ 53 ->
  1000 * a - 250 <= lo -> hi <= 1000 * a + 250 ->
  value_between (4 * a - 1) (4 * a + 1) 4 (div x thousand).
Proof.
  intros Hx Ha Hb Hlo Hhi.
  destruct x as [| | |[] mx ex]; try contradiction.
  destruct Hx as (Hex & Hmx & Hxl & Hxu).
  unfold thousand, div. rewrite SFdiv_finite. cbn [xorb]. unfold div_rounded.
  set (m2 := Z.pos (125 * 2 ^ 46)).
  assert (Hm2 : m2 = 1000 * 2 ^ 43) by reflexivity.
  set (e' := div_exponent (Z.pos mx) ex m2 (-43)).
  assert (Hdx : 0 < Zdigits2 (Z.pos mx) <= 53).
  { split; [apply Zdigits2_pos; lia|apply Zdigits2_le_iff; lia]. }
  assert (He' : e' <= -10 /\ e' <= ex - -43).
  { unfold e', div_exponent. change (Zdigits2 m2) with 53. rewrite fexp_eq. lia. }
  set (s := ex - -43 - e').
  assert (Hs : 0 <= s) by (unfold s; lia).
  pose proof (pow2_gt0 s Hs) as HpS.
  pose proof (pow2_gt0 (- ex) ltac:(lia)) as HpX.
  pose proof (pow2_gt0 (- e') ltac:(lia)) as HpP.
  assert (Hrel : 2 ^ s * 2 ^ (- ex) = 2 ^ (- e') * 2 ^ 43).
  { rewrite <- !Z.pow_add_r by lia. f_equal. unfold s. lia. }
  change 4 with (2 ^ 2) at 3.
  apply round_aux_between; try lia.
  change (2 ^ 2) with 4. split.
  - apply Z.mul_le_mono_pos_r with (2 ^ (- ex)); [assumption|].
      replace (4 * (Z.pos mx * 2 ^ s) * 2 ^ (- ex))
        with (4 * Z.pos mx * (2 ^ s * 2 ^ (- ex))) by ring.
      rewrite Hrel, Hm2.
      replace ((4 * a - 1) * (1000 * 2 ^ 43) * 2 ^ (- e') * 2 ^ (- ex))
        with (4 * ((1000 * a - 250) * 2 ^ (- ex)) * (2 ^ (- e') * 2 ^ 43)) by ring.
      apply Z.mul_le_mono_nonneg_r; [nia|]. nia.
  - apply Z.mul_le_mono_pos_r with (2 ^ (- ex)); [assumption|].
      replace (4 * (Z.pos mx * 2 ^ s) * 2 ^ (- ex))
        with (4 * Z.pos mx * (2 ^ s * 2 ^ (- ex))) by ring.
      rewrite Hrel, Hm2.
      replace ((4 * a + 1) * (1000 * 2 ^ 43) * 2 ^ (- e') * 2 ^ (- ex))
        with (4 * ((1000 * a + 250) * 2 ^ (- ex)) * (2 ^ (- e') * 2 ^ 43)) by ring.
      apply Z.mul_le_mono_nonneg_r; [nia|]. nia.
Qed.

(** A float within a quarter of an integer rounds to it. *)
Lemma round_between a y :
  value_between (4 * a - 1) (4 * a + 1) 4 y -> round y = Ok a.
Proof.
  destruct y as [| | |[] m e]; try contradiction.
  intros (He & Hm & Hl & Hu). unfold round, to_int_with, signed.
  destruct (Z.leb_spec 0 e) as [H|H].
  - replace e with 0 in * by lia. change (- 0) with 0 in *.
    rewrite Z.pow_0_r in *. f_equal. lia.
  - rewrite (rne_div_near (Z.pos m) (2 ^ (- e)) a); [reflexivity| |lia].
    apply pow2_gt0. lia.
Qed.

(** ** Dividing the floats of two integers

    Below [2^53] the float of an integer is the integer, and the quotient
    of the two floats is the correctly rounded quotient of the integers. *)

Lemma round_aux_Z_scale a b c e :
  0 < b -> 0 < c -> round_aux_Z (a * c) (b * c) e = round_aux_Z a b e.
Proof.
  intros Hb Hc. unfold round_aux_Z.
  rewrite Z.div_mul_cancel_r by lia.
  set (n := shift_amount (a / b) e).
  replace (b * c * 2 ^ n) with (b * 2 ^ n * c) by ring.
  assert (0 < 2 ^ n).
  { apply pow2_gt0. unfold n, shift_amount. lia. }
  rewrite rne_div_cancel by nia. reflexivity.
Qed.

Lemma div_exact a b :
  0 < a < 2 ^ 53 -> 0 < b < 2 ^ 53 ->
  div (exact a) (exact b) = div (raw a) (raw b).
Proof.
  intros Ha Hb.
  destruct (exact_canonical a Ha) as (Hca & -> & Hma).
  destruct (exact_canonical b Hb) as (Hcb & -> & Hmb).
  set (ca := 53 - Zdigits2 a) in *. set (cb := 53 - Zdigits2 b) in *.
  rewrite div_raw_pos by lia. unfold div. rewrite SFdiv_finite. cbn [xorb].
  rewrite Hma, Hmb.
  pose proof (pow2_gt0 ca ltac:(lia)) as Hpa.
  pose proof (pow2_gt0 cb ltac:(lia)) as Hpb.
  assert (He : div_exponent (a * 2 ^ ca) (- ca) (b * 2 ^ cb) (- cb)
               = div_exponent a 0 b 0).
  { unfold div_exponent. rewrite !Zdigits2_mul_pow2_eq by lia.
    rewrite !fexp_eq. unfold ca, cb. lia. }
  unfold div_rounded. rewrite He.
  set (e' := div_exponent a 0 b 0).
  assert (He' : e' = Zdigits2 a - Zdigits2 b - 53).
  { unfold e', div_exponent. rewrite fexp_eq.
    pose proof (Zdigits2_pos a ltac:(lia)). pose proof (Zdigits2_pos b ltac:(lia)).
    lia. }
  assert (Hs : a * 2 ^ ca * 2 ^ (- ca - - cb - e') = a * 2 ^ (0 - 0 - e') * 2 ^ cb).
  { rewrite <- !Z.mul_assoc, <- !Z.pow_add_r by (unfold ca, cb in *; lia).
    f_equal. f_equal. unfold ca, cb. lia. }
  rewrite Hs. rewrite round_aux_Z_scale by lia. reflexivity.
Qed.

(** The division of [numpy] agrees with the division of Python below
    [2^53]. *)
Lemma int_truediv_floats a b :
  0 <= a < 2 ^ 53 -> 0 < b < 2 ^ 53 ->
  int_truediv a b
  = Ok (div (binary_normalize prec emax a 0 false)
            (binary_normalize prec emax b 0 false)).
Proof.
  intros Ha Hb.
  assert (Hf : forall q, 0 <= q < 2 ^ 53 ->
                         binary_normalize prec emax q 0 false = exact q).
  { intros q Hq. pose proof (of_int_exact q Hq) as H. unfold of_int in H.
    destruct (binary_normalize prec emax q 0 false); congruence. }
  rewrite !Hf by lia.
  destruct (int_truediv_floor a b Ha ltac:(lia)) as (f & Hdiv & _).
  rewrite Hdiv. f_equal. unfold int_truediv in Hdiv.
  destruct (Z.eqb_spec b 0) as [|_]; [lia|].
  destruct (Z.eq_dec a 0) as [->|Ha0].
  - destruct b as [|pb|pb]; try lia.
    rewrite (exact_pos (Zpos pb)) by lia. cbn in Hdiv. cbn. congruence.
  - rewrite div_exact by lia.
    destruct (div (raw a) (raw b)); congruence.
Qed.

End FloatFacts.

(** * The allocation engine *)

Import Float FloatFacts.

(** ** The result monad *)

Lemma bind_Ok {A B : Type} (r : result A) (k : A -> result B) (b : B) :
  bind r k = Ok b -> exists a, r = Ok a /\ k a = Ok b.
Proof. destruct r as [a|e]; simpl; [eauto|discriminate]. Qed.

Lemma bind_raises {A B : Type} (r : result A) (k : A -> result B) :
  (forall a, r = Ok a -> raises (k a)) -> raises (bind r k).
Proof. destruct r as [a|e]; simpl; [auto|trivial]. Qed.

Lemma raises_not_Ok {A : Type} (r : result A) (a : A) : raises r -> r <> Ok a.
Proof. destruct r; simpl; [contradiction|discriminate]. Qed.

Ltac bind_inv_fresh H :=
  let a := fresh "v" in
  let Ha := fresh "Hv" in
  apply bind_Ok in H; destruct H as (a & Ha & H).

Tactic Notation "bind_inv" hyp(H) := bind_inv_fresh H.

Tactic Notation "bind_inv" hyp(H) "as" simple_intropattern(a) ident(Ha) :=
  apply bind_Ok in H; destruct H as (a & Ha & H).

(** ** Dictionaries *)

Lemma get_comprehension {A : Type} (f : key -> A) (k : key) :
  get (comprehension f) k = f k.
Proof. destruct k; reflexivity. Qed.

Lemma comprehensionM_Ok {A : Type} (f : key -> result A) (d : quad A) :
  comprehensionM f = Ok d -> forall k, f k = Ok (get d k).
Proof.
  unfold comprehensionM. intros H.
  bind_inv H. bind_inv H. bind_inv H. bind_inv H.
  injection H as <-. intros []; assumption.
Qed.

Lemma comprehensionM_all {A : Type} (f : key -> result A) (g : key -> A) :
  (forall k, f k = Ok (g k)) -> comprehensionM f = Ok (comprehension g).
Proof.
  intros H. unfold comprehensionM. rewrite !H. reflexivity.
Qed.

Lemma quad_ext {A} (d d' : quad A) : (forall k, get d k = get d' k) -> d = d'.
Proof.
  intros H. pose proof (H North_Regular). pose proof (H North_Diet).
  pose proof (H South_Regular). pose proof (H South_Diet).
  destruct d, d'. cbn [get north_regular north_diet south_regular south_diet] in *.
  congruence.
Qed.

Lemma sum_values_get (d : dict) :
  sum_values d = get d North_Regular + get d North_Diet
                 + get d South_Regular + get d South_Diet.
Proof. reflexivity. Qed.

(** ** [split_into_skus] *)

Lemma split_zero req_reg req_diet : split_into_skus req_reg req_diet 0 = Ok (0, 0).
Proof. reflexivity. Qed.

(** What the helper returns, whatever the rounding of the share did. *)
Lemma split_result req_reg req_diet truck_total reg diet :
  split_into_skus req_reg req_diet truck_total = Ok (reg, diet) ->
  (exists k, 0 <= k /\ reg = k * 1000) /\
  diet = truck_total - reg /\
  (0 <= truck_total -> 0 <= diet).
Proof.
  unfold split_into_skus.
  destruct (Z.eqb_spec truck_total 0) as [->|Hne].
  - intros [= <- <-]. split; [exists 0; lia|lia].
  - intros H. bind_inv H. bind_inv H. bind_inv H. bind_inv H as n Hn.
    destruct (Z.ltb_spec (truck_total - n * 1000) 0) as [Hd|Hd].
    + destruct (Z.ltb_spec truck_total 0) as [Ht|Ht]; injection H as <- <-.
      * split; [exists 0; split; [lia|reflexivity]|split; [reflexivity|lia]].
      * pose proof (Z.div_pos truck_total 1000 Ht ltac:(lia)).
        pose proof (Z.mul_div_le truck_total 1000 ltac:(lia)).
        split; [eexists; split; [eassumption|reflexivity]|split; [reflexivity|lia]].
    + destruct (Z.ltb_spec (n * 1000) 0) as [Hr|Hr]; injection H as <- <-.
      * split; [exists 0; split; [lia|reflexivity]|split; [reflexivity|]].
        change (0 / 1000 * 1000) with 0. lia.
      * pose proof (Z.div_pos (n * 1000) 1000 Hr ltac:(lia)).
        pose proof (Z.mul_div_le (n * 1000) 1000 ltac:(lia)).
        split; [eexists; split; [eassumption|reflexivity]|split; [reflexivity|lia]].
Qed.

Lemma at_most_one_below f : at_most_one f -> finite_below 1 f.
Proof.
  destruct f; simpl; try tauto. intros (_ & He & _ & Hm). split; [assumption|lia].
Qed.

Lemma regular_share_finite req_reg req_diet :
  0 <= req_reg -> 0 <= req_diet ->
  exists f, regular_share req_reg req_diet = Ok f /\ at_most_one f.
Proof.
  intros Hr Hd. unfold regular_share.
  destruct (Z.ltb_spec 0 (req_reg + req_diet)) as [H|H].
  - apply int_truediv_le; lia.
  - exists half. split; [reflexivity|]. unfold half, at_most_one.
    repeat split; lia.
Qed.

(** The helper returns, for truck totals below [2^53]. *)
Lemma split_returns req_reg req_diet truck_total :
  0 <= req_reg -> 0 <= req_diet -> 0 <= truck_total < 2 ^ 53 ->
  exists reg diet, split_into_skus req_reg req_diet truck_total = Ok (reg, diet).
Proof.
  intros Hr Hd Ht. unfold split_into_skus.
  destruct (truck_total =? 0); [eauto|].
  destruct (regular_share_finite req_reg req_diet Hr Hd) as (sh & -> & Hsh).
  apply at_most_one_below in Hsh. cbn [bind].
  unfold mul_int.
  destruct (of_int_finite truck_total Ht) as (ft & -> & Hft & _). cbn [bind].
  pose proof (mul_finite_below 1 1 56 sh ft Hsh Hft ltac:(lia) ltac:(lia) ltac:(lia)) as Hx.
  unfold truediv_int. rewrite of_int_1000. cbn [bind].
  change (is_zero thousand) with false. cbv iota. cbn [bind].
  pose proof (div_finite_below 56 100 (mul sh ft) false (125 * 2 ^ 46) (-43) Hx
                ltac:(lia) ltac:(lia) ltac:(lia)) as Hy.
  fold thousand in Hy.
  destruct (round_finite_below _ _ Hy) as (n & ->). cbn [bind].
  destruct (_ <? _); destruct (_ <? _); eauto.
Qed.

(** ** Requirements and capacity rationing *)

Section Engine.

Variable cfg : config.

Lemma required_nonneg demand starting_inv k :
  0 <= get (required cfg demand starting_inv) k.
Proof. unfold required. rewrite get_comprehension. apply Z.le_max_l. Qed.

Lemma scale_within req capacity :
  sum_values req <= capacity -> scale req capacity = Ok req.
Proof.
  intros H. unfold scale. destruct (Z.ltb_spec capacity (sum_values req)); [lia|reflexivity].
Qed.

Lemma scale_key req capacity alloc k :
  capacity < sum_values req -> scale req capacity = Ok alloc ->
  exists q, int_truediv (get req k * capacity) (sum_values req) = Ok q /\
            trunc q = Ok (get alloc k).
Proof.
  intros Hc. unfold scale.
  destruct (Z.ltb_spec capacity (sum_values req)) as [_|Hle]; [|lia].
  intros H. apply comprehensionM_Ok with (k := k) in H.
  bind_inv H. eauto.
Qed.

Lemma get_le_sum (d : dict) k :
  (forall k', 0 <= get d k') -> get d k <= sum_values d.
Proof.
  intros H. rewrite sum_values_get.
  pose proof (H North_Regular). pose proof (H North_Diet).
  pose proof (H South_Regular). pose proof (H South_Diet).
  destruct k; lia.
Qed.

(** Scaled allocations are not negative. *)
Lemma scale_nonneg req capacity alloc :
  (forall k, 0 <= get req k) -> 0 <= capacity ->
  scale req capacity = Ok alloc -> forall k, 0 <= get alloc k.
Proof.
  intros Hreq Hcap H k.
  destruct (Z_lt_le_dec capacity (sum_values req)) as [Hc|Hc].
  - destruct (scale_key req capacity alloc k Hc H) as (q & Hq & Ht).
    apply trunc_nonneg with q; [|assumption].
    apply int_truediv_nonneg with (get req k * capacity) (sum_values req);
      [apply Z.mul_nonneg_nonneg; auto|lia|assumption].
  - rewrite scale_within in H by assumption. injection H as <-. apply Hreq.
Qed.

(** When every product [required * capacity] is below [2^53], the scaled
    allocation is the exact integer quotient. *)
Lemma scale_exceeded req capacity :
  (forall k, 0 <= get req k) -> 0 <= capacity ->
  capacity < sum_values req ->
  (forall k, get req k * capacity < 2 ^ 53) ->
  scale req capacity
  = Ok (comprehension (fun k => get req k * capacity / sum_values req)).
Proof.
  intros Hreq Hcap Hc Hb. unfold scale.
  destruct (Z.ltb_spec capacity (sum_values req)); [|lia].
  apply comprehensionM_all. intros k.
  destruct (int_truediv_floor (get req k * capacity) (sum_values req)) as (f & -> & Ht & _).
  - split; [apply Z.mul_nonneg_nonneg; auto|apply Hb].
  - lia.
  - exact Ht.
Qed.

(** Flooring each share of the capacity cannot hand out more than the
    capacity. *)
Lemma floor_shares_le (req : dict) capacity :
  (forall k, 0 <= get req k) -> 0 <= capacity -> 0 < sum_values req ->
  sum_values (comprehension (fun k => get req k * capacity / sum_values req))
  <= capacity.
Proof.
  intros Hreq Hcap HT. set (T := sum_values req) in *.
  unfold sum_values at 1. cbn [comprehension north_regular north_diet south_regular
                               south_diet].
  pose proof (Z.mul_div_le (get req North_Regular * capacity) T HT) as H1.
  pose proof (Z.mul_div_le (get req North_Diet * capacity) T HT) as H2.
  pose proof (Z.mul_div_le (get req South_Regular * capacity) T HT) as H3.
  pose proof (Z.mul_div_le (get req South_Diet * capacity) T HT) as H4.
  set (q1 := get req North_Regular * capacity / T) in *.
  set (q2 := get req North_Diet * capacity / T) in *.
  set (q3 := get req South_Regular * capacity / T) in *.
  set (q4 := get req South_Diet * capacity / T) in *.
  assert (H5 : T * (q1 + q2 + q3 + q4) <= T * capacity).
  { replace (T * capacity)
      with (get req North_Regular * capacity + get req North_Diet * capacity
            + get req South_Regular * capacity + get req South_Diet * capacity)
      by (unfold T; rewrite sum_values_get; ring).
    rewrite !Z.mul_add_distr_l. lia. }
  apply Z.mul_le_mono_pos_l in H5; assumption.
Qed.

(** ** The truck constraint *)

Lemma truck_total_multiple dc_total tt :
  truck_total cfg dc_total = Ok tt -> exists n, tt = n * TRUCK_SIZE cfg.
Proof.
  unfold truck_total. intros H. bind_inv H. bind_inv H. injection H as <-. eauto.
Qed.

Lemma truck_total_nonneg dc_total tt :
  0 <= dc_total -> 0 < TRUCK_SIZE cfg ->
  truck_total cfg dc_total = Ok tt ->
  exists n, 0 <= n /\ tt = n * TRUCK_SIZE cfg.
Proof.
  unfold truck_total. intros Hd Hts H. bind_inv H as q Hq. bind_inv H as n Hn.
  injection H as <-. exists n. split; [|reflexivity].
  apply floor_nonneg with q; [|assumption].
  apply int_truediv_nonneg with dc_total (TRUCK_SIZE cfg); assumption.
Qed.

(** Below [2^53] the truck total is the DC total floored to whole trucks. *)
Lemma truck_total_exact dc_total :
  0 <= dc_total < 2 ^ 53 -> 0 < TRUCK_SIZE cfg ->
  truck_total cfg dc_total = Ok (dc_total / TRUCK_SIZE cfg * TRUCK_SIZE cfg).
Proof.
  intros Hd Hts. unfold truck_total.
  destruct (int_truediv_floor dc_total (TRUCK_SIZE cfg) Hd Hts) as (f & -> & _ & Hf).
  cbn [bind]. rewrite Hf. reflexivity.
Qed.

(** ** Shipments *)

Lemma ship_inv alloc s :
  ship cfg alloc = Ok s ->
  exists tn ts,
    truck_total cfg (north_regular alloc + north_diet alloc) = Ok tn /\
    truck_total cfg (south_regular alloc + south_diet alloc) = Ok ts /\
    split_into_skus (north_regular alloc) (north_diet alloc) tn
    = Ok (north_regular s, north_diet s) /\
    split_into_skus (south_regular alloc) (south_diet alloc) ts
    = Ok (south_regular s, south_diet s).
Proof.
  unfold ship. intros H. bind_inv H as tn Htn. bind_inv H as ts Hts.
  bind_inv H as [n_reg n_diet] Hn. bind_inv H as [s_reg s_diet] Hs.
  injection H as <-. cbn [north_regular north_diet south_regular south_diet].
  eauto 6.
Qed.

(** The two SKU shipments of a DC add up to its truck total. *)
Lemma ship_dc_totals alloc s :
  ship cfg alloc = Ok s ->
  truck_total cfg (north_regular alloc + north_diet alloc)
  = Ok (north_regular s + north_diet s) /\
  truck_total cfg (south_regular alloc + south_diet alloc)
  = Ok (south_regular s + south_diet s).
Proof.
  intros H. destruct (ship_inv alloc s H) as (tn & ts & Hn & Hs & Hsn & Hss).
  apply split_result in Hsn. apply split_result in Hss.
  destruct Hsn as (_ & Hdn & _), Hss as (_ & Hds & _).
  replace (north_regular s + north_diet s) with tn by lia.
  replace (south_regular s + south_diet s) with ts by lia.
  split; assumption.
Qed.

Lemma ship_nonneg alloc s :
  (forall k, 0 <= get alloc k) -> 0 < TRUCK_SIZE cfg ->
  ship cfg alloc = Ok s -> forall k, 0 <= get s k.
Proof.
  intros Ha Hts H.
  destruct (ship_inv alloc s H) as (tn & ts & Hn & Hs & Hsn & Hss).
  pose proof (Ha North_Regular). pose proof (Ha North_Diet).
  pose proof (Ha South_Regular). pose proof (Ha South_Diet). simpl in *.
  apply truck_total_nonneg in Hn; [|lia|assumption].
  apply truck_total_nonneg in Hs; [|lia|assumption].
  destruct Hn as (n1 & Hn1 & ->), Hs as (n2 & Hn2 & ->).
  apply split_result in Hsn. apply split_result in Hss.
  destruct Hsn as ((k1 & Hk1 & E1) & _ & Hd1), Hss as ((k2 & Hk2 & E2) & _ & Hd2).
  intros []; simpl; nia.
Qed.

(** Shipments are returned when the allocations stay below [2^53]. *)
Lemma ship_returns alloc :
  (forall k, 0 <= get alloc k) -> 0 < TRUCK_SIZE cfg ->
  sum_values alloc < 2 ^ 53 ->
  exists s, ship cfg alloc = Ok s.
Proof.
  intros Ha Hts Hb.
  pose proof (Ha North_Regular). pose proof (Ha North_Diet).
  pose proof (Ha South_Regular). pose proof (Ha South_Diet).
  unfold sum_values in Hb. simpl in *.
  unfold ship.
  rewrite !truck_total_exact by lia. cbn [bind].
  set (tn := (north_regular alloc + north_diet alloc) / TRUCK_SIZE cfg * TRUCK_SIZE cfg).
  set (ts := (south_regular alloc + south_diet alloc) / TRUCK_SIZE cfg * TRUCK_SIZE cfg).
  assert (Htn : 0 <= tn < 2 ^ 53).
  { pose proof (Z.mul_div_le (north_regular alloc + north_diet alloc) (TRUCK_SIZE cfg) Hts).
    pose proof (Z.div_pos (north_regular alloc + north_diet alloc) (TRUCK_SIZE cfg)
                  ltac:(lia) Hts).
    unfold tn. nia. }
  assert (Hts' : 0 <= ts < 2 ^ 53).
  { pose proof (Z.mul_div_le (south_regular alloc + south_diet alloc) (TRUCK_SIZE cfg) Hts).
    pose proof (Z.div_pos (south_regular alloc + south_diet alloc) (TRUCK_SIZE cfg)
                  ltac:(lia) Hts).
    unfold ts. nia. }
  destruct (split_returns (north_regular alloc) (north_diet alloc) tn) as (a & b & ->);
    try lia.
  destruct (split_returns (south_regular alloc) (south_diet alloc) ts) as (c & d & ->);
    try lia.
  simpl. eauto.
Qed.

(** Shipments never exceed the allocations they come from, below [2^53]. *)
Lemma ship_le_alloc alloc s :
  (forall k, 0 <= get alloc k) -> 0 < TRUCK_SIZE cfg ->
  sum_values alloc < 2 ^ 53 ->
  ship cfg alloc = Ok s -> sum_values s <= sum_values alloc.
Proof.
  intros Ha Hts Hb H.
  pose proof (Ha North_Regular). pose proof (Ha North_Diet).
  pose proof (Ha South_Regular). pose proof (Ha South_Diet).
  unfold sum_values in *. simpl in *.
  destruct (ship_dc_totals alloc s H) as [Hn Hs].
  rewrite truck_total_exact in Hn, Hs by lia.
  injection Hn as Hn. injection Hs as Hs.
  pose proof (Z.mul_div_le (north_regular alloc + north_diet alloc) (TRUCK_SIZE cfg) Hts).
  pose proof (Z.mul_div_le (south_regular alloc + south_diet alloc) (TRUCK_SIZE cfg) Hts).
  lia.
Qed.

End Engine.

(** ** One week *)

Section WeekFacts.

Variable cfg : config.

Lemma simulate_week_inv r starting_inv capacity out :
  simulate_week cfg r starting_inv capacity = Ok out ->
  allocate cfg (row_demand r) starting_inv capacity = Ok (out_alloc_truck out) /\
  out_ending_inv out
  = ending_inventory cfg (row_demand r) starting_inv (out_alloc_truck out) /\
  out_fulfilled out = fulfilled_quantities (row_demand r) (out_alloc_truck out) /\
  fulfillment_percentage (row_demand r) (out_fulfilled out)
  = Ok (out_fulfillment_pct out) /\
  out_total_required out = sum_values (required cfg (row_demand r) starting_inv).
Proof.
  unfold simulate_week, allocate. intros H.
  bind_inv H. bind_inv H. bind_inv H. injection H as <-. simpl.
  rewrite Hv. simpl. auto.
Qed.

Lemma allocate_inv demand starting_inv capacity s :
  allocate cfg demand starting_inv capacity = Ok s ->
  exists alloc, scale (required cfg demand starting_inv) capacity = Ok alloc /\
                ship cfg alloc = Ok s.
Proof. unfold allocate. intros H. bind_inv H. eauto. Qed.

Lemma allocate_nonneg demand starting_inv capacity s :
  0 <= capacity -> 0 < TRUCK_SIZE cfg ->
  allocate cfg demand starting_inv capacity = Ok s -> forall k, 0 <= get s k.
Proof.
  intros Hc Hts H. destruct (allocate_inv _ _ _ _ H) as (alloc & Ha & Hs).
  apply ship_nonneg with (cfg := cfg) (alloc := alloc); try assumption.
  apply scale_nonneg with (2 := Hc) (3 := Ha). apply required_nonneg.
Qed.

Lemma fulfilled_bounds (demand s : dict) :
  (forall k, 0 <= get demand k) -> (forall k, 0 <= get s k) ->
  0 <= sum_values (fulfilled_quantities demand s) <= sum_values demand.
Proof.
  intros Hd Hs. unfold fulfilled_quantities, sum_values. simpl.
  pose proof (Hd North_Regular). pose proof (Hd North_Diet).
  pose proof (Hd South_Regular). pose proof (Hd South_Diet).
  pose proof (Hs North_Regular). pose proof (Hs North_Diet).
  pose proof (Hs South_Regular). pose proof (Hs South_Diet).
  simpl in *. lia.
Qed.

(** Without demand the percentage cannot be computed. *)
Lemma fulfillment_percentage_zero demand fulfilled :
  sum_values demand = 0 ->
  fulfillment_percentage demand fulfilled = Raise ZeroDivisionError.
Proof. intros H. unfold fulfillment_percentage, int_truediv. rewrite H. reflexivity. Qed.

(** The allocation of a week is returned for quantities below [2^53]. *)
Lemma allocate_returns demand starting_inv capacity :
  0 < capacity -> 0 < TRUCK_SIZE cfg ->
  sum_values (required cfg demand starting_inv) < 2 ^ 53 ->
  (capacity < sum_values (required cfg demand starting_inv) ->
   forall k, get (required cfg demand starting_inv) k * capacity < 2 ^ 53) ->
  exists s, allocate cfg demand starting_inv capacity = Ok s /\
            sum_values s <= capacity.
Proof.
  intros Hc Hts HT Hb. set (req := required cfg demand starting_inv) in *.
  assert (Hreq : forall k, 0 <= get req k) by (intros k; apply required_nonneg).
  unfold allocate. fold req.
  destruct (Z_lt_le_dec capacity (sum_values req)) as [Hlt|Hle].
  - rewrite scale_exceeded by (auto; lia). cbn [bind].
    set (alloc := comprehension (fun k => get req k * capacity / sum_values req)).
    assert (Ha : forall k, 0 <= get alloc k).
    { intros k. unfold alloc. rewrite get_comprehension.
      apply Z.div_pos; [apply Z.mul_nonneg_nonneg; [apply Hreq|lia]|lia]. }
    assert (Hsum : sum_values alloc <= capacity)
      by (apply floor_shares_le; [assumption|lia|lia]).
    destruct (ship_returns cfg alloc Ha Hts ltac:(lia)) as (s & Hs).
    exists s. split; [assumption|].
    pose proof (ship_le_alloc cfg alloc s Ha Hts ltac:(lia) Hs). lia.
  - rewrite scale_within by assumption. cbn [bind].
    destruct (ship_returns cfg req Hreq Hts HT) as (s & Hs).
    exists s. split; [assumption|].
    pose proof (ship_le_alloc cfg req s Hreq Hts HT Hs). lia.
Qed.

(** A week with demand is simulated to its end for quantities below
    [2^53]. *)
Lemma simulate_week_returns r starting_inv capacity :
  0 < capacity -> 0 < TRUCK_SIZE cfg ->
  (forall k, 0 <= get (row_demand r) k) -> 0 < sum_values (row_demand r) ->
  sum_values (required cfg (row_demand r) starting_inv) < 2 ^ 53 ->
  (capacity < sum_values (required cfg (row_demand r) starting_inv) ->
   forall k, get (required cfg (row_demand r) starting_inv) k * capacity < 2 ^ 53) ->
  exists out, simulate_week cfg r starting_inv capacity = Ok out.
Proof.
  intros Hc Hts Hd HD HT Hb.
  destruct (allocate_returns (row_demand r) starting_inv capacity Hc Hts HT Hb)
    as (s & Hs & _).
  pose proof (allocate_nonneg _ _ _ _ (Z.lt_le_incl _ _ Hc) Hts Hs) as Hnn.
  unfold allocate in Hs. unfold simulate_week.
  destruct (scale _ capacity) as [alloc|]; [|discriminate]. simpl in *.
  rewrite Hs. cbn [bind].
  pose proof (fulfilled_bounds (row_demand r) s Hd Hnn) as HF.
  unfold fulfillment_percentage.
  destruct (int_truediv_le _ _ HF HD) as (q & -> & Hq). cbn [bind].
  destruct (mul_hundred_bounds q Hq) as (p & -> & _). simpl. eauto.
Qed.

(** ** The run loop *)




Lemma simulate_week_no_demand r inv capacity :
  sum_values (row_demand r) = 0 -> raises (simulate_week cfg r inv capacity).
Proof.
  intros H. unfold simulate_week. apply bind_raises. intros alloc _.
  apply bind_raises. intros s _.
  rewrite fulfillment_percentage_zero by assumption. exact I.
Qed.

Lemma run_from_raises rows : forall inv results,
  (exists r, In r rows /\ forall inv', raises (run_week cfg r inv')) ->
  raises (run_from cfg rows inv results).
Proof.
  induction rows as [|r' rest IH]; intros inv results (r & Hin & Hr).
  - destruct Hin.
  - simpl run_from. destruct Hin as [->|Hin].
    + specialize (Hr inv). destruct (run_week cfg r inv); [contradiction|exact I].
    + apply bind_raises. intros [wr inv'] _. apply IH. eauto.
Qed.

End WeekFacts.

(** * The page and the direct call

    For weeks of moderate size the cells of the page go through the engine
    as Python integers do: nothing wraps around, and the floats of the
    integers are the integers. *)

Lemma fits_spec z : Page.fits z = true <-> - 2 ^ 63 <= z < 2 ^ 63.
Proof.
  unfold Page.fits. rewrite andb_true_iff, Z.leb_le, Z.ltb_lt. reflexivity.
Qed.

Lemma wrap_fits z : - 2 ^ 63 <= z < 2 ^ 63 -> Page.wrap z = z.
Proof. intros H. unfold Page.wrap. rewrite Z.mod_small by lia. lia. Qed.

Lemma wrap_add_l a b : Page.wrap (Page.wrap a + b) = Page.wrap (a + b).
Proof.
  unfold Page.wrap. f_equal.
  replace ((a + 2 ^ 63) mod 2 ^ 64 - 2 ^ 63 + b + 2 ^ 63)
    with ((a + 2 ^ 63) mod 2 ^ 64 + b) by ring.
  rewrite Zplus_mod_idemp_l. f_equal. ring.
Qed.

Lemma as_int64_fits n :
  - 2 ^ 63 <= Page.val n < 2 ^ 63 -> Page.as_int64 n = Ok (Page.val n).
Proof.
  intros H. destruct n as [z|z]; cbn [Page.as_int64 Page.val] in *; [|reflexivity].
  apply fits_spec in H. rewrite H. reflexivity.
Qed.

(** An operation whose operands and result are in the range of [int64]
    is exact, whatever the kinds of the operands. *)
Lemma arith_exact op a b :
  - 2 ^ 63 <= Page.val a < 2 ^ 63 -> - 2 ^ 63 <= Page.val b < 2 ^ 63 ->
  - 2 ^ 63 <= op (Page.val a) (Page.val b) < 2 ^ 63 ->
  exists c, Page.arith op a b = Ok c /\ Page.val c = op (Page.val a) (Page.val b).
Proof.
  intros Ha Hb Hc.
  assert (H : (x <- Page.as_int64 a ;; y <- Page.as_int64 b ;;
               Ok (Page.Int64 (Page.wrap (op x y))))
              = Ok (Page.Int64 (op (Page.val a) (Page.val b)))).
  { rewrite !as_int64_fits by assumption. cbn [bind]. rewrite wrap_fits by assumption.
    reflexivity. }
  destruct a as [x|x], b as [y|y]; unfold Page.arith;
    try (rewrite H; eexists; split; reflexivity).
  eexists. split; reflexivity.
Qed.

Lemma truediv_agree a b :
  0 <= Page.val a < 2 ^ 53 -> 0 < Page.val b < 2 ^ 53 ->
  Page.truediv a b = Float.int_truediv (Page.val a) (Page.val b).
Proof.
  intros Ha Hb.
  assert (H : (x <- Page.as_int64 a ;; y <- Page.as_int64 b ;;
               Ok (Float.div (Page.to_float64 x) (Page.to_float64 y)))
              = Float.int_truediv (Page.val a) (Page.val b)).
  { rewrite !as_int64_fits by lia. cbn [bind].
    rewrite int_truediv_floats by assumption. reflexivity. }
  destruct a as [x|x], b as [y|y]; unfold Page.truediv; try exact H.
  reflexivity.
Qed.

Lemma max0_val x : Page.val (Page.max0 x) = Z.max 0 (Page.val x).
Proof.
  unfold Page.max0. destruct (Z.ltb_spec 0 (Page.val x)); cbn [Page.val]; lia.
Qed.

Lemma min_val a b : Page.val (Page.min a b) = Z.min (Page.val a) (Page.val b).
Proof.
  unfold Page.min. destruct (Z.ltb_spec (Page.val b) (Page.val a)); lia.
Qed.

Lemma get_default_values inv k default :
  get_default (inventory_values inv) k default
  = Page.val (Page.get_default inv k default).
Proof.
  unfold get_default, Page.get_default, inventory_values.
  rewrite get_comprehension. destruct (get inv k); reflexivity.
Qed.

Lemma get_values q k : get (Page.values q) k = Page.val (get q k).
Proof. unfold Page.values. rewrite get_comprehension. reflexivity. Qed.

(** ** Step 1 *)

Lemma page_required cfg demand inv :
  0 <= SAFETY_STOCK cfg < 2 ^ 53 ->
  (forall k, 0 <= get demand k < 2 ^ 62) ->
  (forall k, 0 <= Page.val (Page.get_default inv k (SAFETY_STOCK cfg)) < 2 ^ 62) ->
  exists req,
    Page.required cfg demand inv = Ok req /\
    Page.values req = required cfg demand (inventory_values inv).
Proof.
  intros Hss Hd Hi.
  assert (H : forall k, exists u,
             (t <- Page.add (Page.Int64 (get demand k)) (Page.PyInt (SAFETY_STOCK cfg)) ;;
              u <- Page.sub t (Page.get_default inv k (SAFETY_STOCK cfg)) ;;
              Ok (Page.max0 u)) = Ok (Page.max0 u) /\
             Page.val u = get demand k + SAFETY_STOCK cfg
                          - Page.val (Page.get_default inv k (SAFETY_STOCK cfg))).
  { intros k. specialize (Hd k). specialize (Hi k).
    destruct (arith_exact Z.add (Page.Int64 (get demand k))
                (Page.PyInt (SAFETY_STOCK cfg))) as (t & Ht & Vt);
      cbn [Page.val]; try lia.
    cbn [Page.val] in Vt.
    destruct (arith_exact Z.sub t (Page.get_default inv k (SAFETY_STOCK cfg)))
      as (u & Hu & Vu); try lia.
    exists u. unfold Page.add, Page.sub. rewrite Ht. cbn [bind]. rewrite Hu.
    split; [reflexivity|lia]. }
  destruct (H North_Regular) as (u1 & E1 & V1), (H North_Diet) as (u2 & E2 & V2),
    (H South_Regular) as (u3 & E3 & V3), (H South_Diet) as (u4 & E4 & V4).
  exists (mkQuad (Page.max0 u1) (Page.max0 u2) (Page.max0 u3) (Page.max0 u4)).
  split.
  - unfold Page.required, comprehensionM. rewrite E1, E2, E3, E4. reflexivity.
  - apply quad_ext. intros k. rewrite get_values. unfold required.
    rewrite get_comprehension, get_default_values.
    destruct k; cbn [get north_regular north_diet south_regular south_diet] in *;
      rewrite max0_val; congruence.
Qed.

(** ** Sums *)

Lemma page_sum q :
  (forall k, 0 <= Page.val (get q k)) -> sum_values (Page.values q) < 2 ^ 63 ->
  exists t, Page.sum_nums q = Ok t /\ Page.val t = sum_values (Page.values q).
Proof.
  intros Hq Hs. rewrite sum_values_get, !get_values in *.
  pose proof (Hq North_Regular). pose proof (Hq North_Diet).
  pose proof (Hq South_Regular). pose proof (Hq South_Diet).
  cbn [get] in *. unfold Page.sum_nums, Page.add.
  destruct (arith_exact Z.add (Page.PyInt 0) (north_regular q)) as (a & -> & Va);
    cbn [Page.val]; try lia.
  cbn [bind Page.val] in *.
  destruct (arith_exact Z.add a (north_diet q)) as (b & -> & Vb); try lia.
  cbn [bind].
  destruct (arith_exact Z.add b (south_regular q)) as (c & -> & Vc); try lia.
  cbn [bind].
  destruct (arith_exact Z.add c (south_diet q)) as (d & -> & Vd); try lia.
  exists d. split; [reflexivity|lia].
Qed.

(** ** Step 2 *)

Lemma page_scale req t capacity :
  0 < capacity -> (forall k, 0 <= Page.val (get req k)) ->
  Page.val t = sum_values (Page.values req) ->
  sum_values (Page.values req) < 2 ^ 53 ->
  (capacity < sum_values (Page.values req) ->
   forall k, Page.val (get req k) * capacity < 2 ^ 53) ->
  exists alloc,
    Page.scale req t capacity = Ok alloc /\
    scale (Page.values req) capacity = Ok (Page.values alloc).
Proof.
  intros Hc Hreq Ht HT Hb. unfold Page.scale. rewrite Ht.
  destruct (Z.ltb_spec capacity (sum_values (Page.values req))) as [Hlt|Hle].
  - specialize (Hb Hlt).
    rewrite scale_exceeded; try assumption; try lia;
      try (intros k; rewrite get_values; auto).
    exists (Page.python (comprehension (fun k =>
              get (Page.values req) k * capacity / sum_values (Page.values req)))).
    split.
    + unfold Page.python. apply comprehensionM_all. intros k.
      rewrite get_comprehension, get_values.
      specialize (Hreq k). specialize (Hb k).
      destruct (arith_exact Z.mul (get req k) (Page.PyInt capacity)) as (p & Hp & Vp);
        cbn [Page.val]; try nia.
      cbn [Page.val] in Vp. unfold Page.mul. rewrite Hp. cbn [bind].
      rewrite truediv_agree by lia. rewrite Vp, Ht.
      destruct (int_truediv_floor (Page.val (get req k) * capacity)
                  (sum_values (Page.values req))) as (f & Hf & Htr & _); [nia|lia|].
      rewrite Hf. cbn [bind]. rewrite Htr. reflexivity.
    + apply (f_equal Ok). apply quad_ext. intros k. unfold Page.python.
      rewrite get_values, !get_comprehension. reflexivity.
  - exists req. split; [reflexivity|]. apply scale_within. assumption.
Qed.

(** ** Steps 3 and 4 *)

Lemma page_truck_total cfg dc_total :
  0 < TRUCK_SIZE cfg < 2 ^ 53 -> 0 <= Page.val dc_total < 2 ^ 53 ->
  Page.truck_total cfg dc_total = truck_total cfg (Page.val dc_total).
Proof.
  intros Hts Hd. unfold Page.truck_total, truck_total.
  rewrite truediv_agree by (cbn [Page.val]; lia). reflexivity.
Qed.

Lemma page_regular_share req_reg req_diet :
  0 <= Page.val req_reg -> 0 <= Page.val req_diet ->
  Page.val req_reg + Page.val req_diet < 2 ^ 53 ->
  Page.regular_share req_reg req_diet
  = regular_share (Page.val req_reg) (Page.val req_diet).
Proof.
  intros Hr Hd Hb. unfold Page.regular_share, regular_share, Page.add.
  destruct (arith_exact Z.add req_reg req_diet) as (t & -> & Vt); try lia.
  cbn [bind]. rewrite Vt.
  destruct (Z.ltb_spec 0 (Page.val req_reg + Page.val req_diet)); [|reflexivity].
  rewrite truediv_agree by lia. rewrite Vt. reflexivity.
Qed.

Lemma page_split req_reg req_diet truck_total :
  0 <= Page.val req_reg -> 0 <= Page.val req_diet ->
  Page.val req_reg + Page.val req_diet < 2 ^ 53 ->
  Page.split_into_skus req_reg req_diet truck_total
  = split_into_skus (Page.val req_reg) (Page.val req_diet) truck_total.
Proof.
  intros Hr Hd Hb. unfold Page.split_into_skus, split_into_skus.
  rewrite page_regular_share by assumption. reflexivity.
Qed.

Lemma page_ship cfg alloc :
  0 < TRUCK_SIZE cfg < 2 ^ 53 ->
  (forall k, 0 <= Page.val (get alloc k)) ->
  sum_values (Page.values alloc) < 2 ^ 53 ->
  Page.ship cfg alloc = ship cfg (Page.values alloc).
Proof.
  intros Hts Ha Hs. rewrite sum_values_get, !get_values in Hs.
  pose proof (Ha North_Regular). pose proof (Ha North_Diet).
  pose proof (Ha South_Regular). pose proof (Ha South_Diet).
  cbn [get] in *. unfold Page.ship, ship, Page.add.
  destruct (arith_exact Z.add (north_regular alloc) (north_diet alloc))
    as (nt & -> & Vn); try lia.
  destruct (arith_exact Z.add (south_regular alloc) (south_diet alloc))
    as (st & -> & Vs); try lia.
  cbn [bind]. rewrite !page_truck_total by lia.
  rewrite Vn, Vs.
  change (north_regular (Page.values alloc)) with (Page.val (north_regular alloc)).
  change (north_diet (Page.values alloc)) with (Page.val (north_diet alloc)).
  change (south_regular (Page.values alloc)) with (Page.val (south_regular alloc)).
  change (south_diet (Page.values alloc)) with (Page.val (south_diet alloc)).
  destruct (truck_total cfg (Page.val (north_regular alloc) + Page.val (north_diet alloc)))
    as [tn|e]; [|reflexivity].
  destruct (truck_total cfg (Page.val (south_regular alloc) + Page.val (south_diet alloc)))
    as [ts|e]; [|reflexivity].
  cbn [bind]. rewrite !page_split by lia. reflexivity.
Qed.

(** ** Steps 1 to 4: the shipments of the page are those of the direct
    call *)

Lemma page_steps cfg demand inv capacity :
  moderate_week cfg demand inv capacity ->
  exists req total_required alloc,
    Page.required cfg demand inv = Ok req /\
    Page.values req = required cfg demand (inventory_values inv) /\
    Page.sum_nums req = Ok total_required /\
    Page.val total_required = sum_values (Page.values req) /\
    Page.scale req total_required capacity = Ok alloc /\
    scale (required cfg demand (inventory_values inv)) capacity
    = Ok (Page.values alloc) /\
    (forall k, 0 <= get (Page.values alloc) k) /\
    sum_values (Page.values alloc) < 2 ^ 53 /\
    Page.ship cfg alloc = ship cfg (Page.values alloc).
Proof.
  intros (Hc & Hts & Hss & Hd & Hi & HT & Hb).
  destruct (page_required cfg demand inv Hss Hd Hi) as (req & Hreq & Vreq).
  set (req0 := required cfg demand (inventory_values inv)) in *.
  assert (Hnn : forall k, 0 <= Page.val (get req k)).
  { intros k. rewrite <- get_values, Vreq. apply required_nonneg. }
  destruct (page_sum req Hnn) as (t & Hsum & Vt); [rewrite Vreq; lia|].
  destruct (page_scale req t capacity Hc Hnn Vt) as (alloc & Hsc & Hsc0).
  { rewrite Vreq. assumption. }
  { rewrite Vreq. intros Hlt k. rewrite <- get_values, Vreq. apply Hb. assumption. }
  rewrite Vreq in Hsc0.
  assert (Ha : forall k, 0 <= get (Page.values alloc) k).
  { apply scale_nonneg with (3 := Hsc0); [|lia]. intros k'. apply required_nonneg. }
  assert (Hs : sum_values (Page.values alloc) < 2 ^ 53); [|
    exists req, t, alloc; repeat (split; [assumption|]);
    apply page_ship; [assumption| |assumption];
    intros k; rewrite <- get_values; apply Ha].
  destruct (Z_lt_le_dec capacity (sum_values req0)) as [Hlt|Hle].
  - rewrite scale_exceeded in Hsc0; try assumption; try lia;
      try (intros k; apply required_nonneg); try (apply Hb; assumption).
    assert (E : Page.values alloc
                = comprehension (fun k => get req0 k * capacity / sum_values req0))
      by congruence.
    rewrite E.
    pose proof (floor_shares_le req0 capacity
                  (fun k => required_nonneg cfg _ _ k) ltac:(lia) ltac:(lia)).
    lia.
  - rewrite scale_within in Hsc0 by assumption.
    assert (E : Page.values alloc = req0) by congruence.
    rewrite E. assumption.
Qed.

Lemma page_allocate cfg demand inv capacity :
  moderate_week cfg demand inv capacity ->
  Page.allocate cfg demand inv capacity
  = allocate cfg demand (inventory_values inv) capacity.
Proof.
  intros H.
  destruct (page_steps cfg demand inv capacity H)
    as (req & t & alloc & Hreq & _ & Hsum & _ & Hsc & Hsc0 & _ & _ & Hship).
  unfold Page.allocate, allocate. rewrite Hreq. cbn [bind]. rewrite Hsum. cbn [bind].
  rewrite Hsc, Hsc0. cbn [bind]. assumption.
Qed.

(** ** Steps 5 and 6 *)

Lemma page_simulate_week_inv cfg r inv capacity out :
  Page.simulate_week cfg r inv capacity = Ok out ->
  Page.allocate cfg (row_demand r) inv capacity = Ok (Page.out_alloc_truck out) /\
  Page.ending_inventory cfg (row_demand r) inv (Page.out_alloc_truck out)
  = Ok (Page.out_ending_inv out) /\
  Page.out_fulfilled out
  = Page.fulfilled_quantities (row_demand r) (Page.out_alloc_truck out) /\
  Page.fulfillment_percentage (row_demand r) (Page.out_fulfilled out)
  = Ok (Page.out_fulfillment_pct out).
Proof.
  unfold Page.simulate_week, Page.allocate. intros H.
  bind_inv H as req Hreq. bind_inv H as t Ht. bind_inv H as alloc Ha.
  bind_inv H as s Hs. bind_inv H as e He. bind_inv H as p Hp.
  injection H as <-.
  cbn [Page.out_alloc_truck Page.out_ending_inv Page.out_fulfilled
       Page.out_fulfillment_pct].
  rewrite Hreq. cbn [bind]. rewrite Ht. cbn [bind]. rewrite Ha. cbn [bind].
  auto.
Qed.

Lemma values_fulfilled demand s :
  Page.values (Page.fulfilled_quantities demand s) = fulfilled_quantities demand s.
Proof.
  apply quad_ext. intros k. rewrite get_values.
  unfold Page.fulfilled_quantities, fulfilled_quantities.
  rewrite !get_comprehension, min_val. reflexivity.
Qed.

Lemma values_cells d : Page.values (Page.cells d) = d.
Proof.
  apply quad_ext. intros k. rewrite get_values. unfold Page.cells.
  rewrite get_comprehension. reflexivity.
Qed.

(** The percentage of the page is that of the direct call when the total
    demand is below [2^53]. *)
Lemma page_fulfillment (demand s : dict) :
  (forall k, 0 <= get demand k) -> (forall k, 0 <= get s k) ->
  0 < sum_values demand < 2 ^ 53 ->
  Page.fulfillment_percentage demand (Page.fulfilled_quantities demand s)
  = fulfillment_percentage demand (fulfilled_quantities demand s).
Proof.
  intros Hd Hs HD.
  pose proof (fulfilled_bounds demand s Hd Hs) as HF.
  unfold Page.fulfillment_percentage, fulfillment_percentage.
  destruct (page_sum (Page.fulfilled_quantities demand s)) as (f & -> & Vf).
  { intros k. rewrite <- get_values, values_fulfilled.
    unfold fulfilled_quantities. rewrite get_comprehension.
    specialize (Hd k). specialize (Hs k). lia. }
  { rewrite values_fulfilled. lia. }
  destruct (page_sum (Page.cells demand)) as (d & -> & Vd).
  { intros k. rewrite <- get_values, values_cells. apply Hd. }
  { rewrite values_cells. lia. }
  cbn [bind]. rewrite values_fulfilled in Vf. rewrite values_cells in Vd.
  rewrite truediv_agree by lia. rewrite Vf, Vd. reflexivity.
Qed.

(** ** Step 2 on the page, read back *)

Lemma page_scale_within (req : quad Page.num) t capacity :
  Page.val t <= capacity -> Page.scale req t capacity = Ok req.
Proof.
  intros H. unfold Page.scale.
  destruct (Z.ltb_spec capacity (Page.val t)); [lia|reflexivity].
Qed.

Lemma page_scale_key req t capacity alloc k :
  capacity < Page.val t -> Page.scale req t capacity = Ok alloc ->
  exists p q n,
    Page.mul (get req k) (Page.PyInt capacity) = Ok p /\
    Page.truediv p t = Ok q /\
    Float.trunc q = Ok n /\ get alloc k = Page.PyInt n.
Proof.
  intros Hc H. unfold Page.scale in H.
  destruct (Z.ltb_spec capacity (Page.val t)); [|lia].
  apply comprehensionM_Ok with (k := k) in H.
  bind_inv H as p Hp. bind_inv H as q Hq. bind_inv H as n Hn.
  injection H as H. exists p, q, n. auto.
Qed.

Lemma page_scale_floor cfg demand inv capacity req t alloc k :
  moderate_week cfg demand inv capacity ->
  Page.required cfg demand inv = Ok req -> Page.sum_nums req = Ok t ->
  capacity < Page.val t -> Page.scale req t capacity = Ok alloc ->
  Page.val (get alloc k) = Page.val (get req k) * capacity / Page.val t.
Proof.
  intros Hm Hreq Hsum Hlt Hsc.
  destruct (page_steps cfg demand inv capacity Hm)
    as (req' & t' & alloc' & Hreq' & Vreq & Hsum' & Vt & Hsc' & Hsc0 & _).
  assert (req' = req) by congruence. subst req'.
  assert (t' = t) by congruence. subst t'.
  assert (alloc' = alloc) by congruence. subst alloc'.
  destruct Hm as (Hc & _ & _ & _ & _ & HT & Hb).
  rewrite <- Vreq in *. rewrite <- Vt in *.
  rewrite scale_exceeded in Hsc0; try lia; try (apply Hb; assumption).
  - rewrite <- !get_values.
    assert (E : Page.values alloc
                = comprehension (fun k => get (Page.values req) k * capacity
                                          / sum_values (Page.values req)))
      by congruence.
    rewrite E, get_comprehension, Vt. reflexivity.
  - intros k'. rewrite Vreq. apply required_nonneg.
Qed.

(** ** Sums of cells *)

Lemma add_zero_cell y :
  Page.add (Page.PyInt 0) (Page.Int64 y) = Ok (Page.Int64 (Page.wrap (0 + y))).
Proof. reflexivity. Qed.

Lemma add_cells x y :
  Page.add (Page.Int64 x) (Page.Int64 y) = Ok (Page.Int64 (Page.wrap (x + y))).
Proof. reflexivity. Qed.

Lemma sum_cells d :
  Page.sum_nums (Page.cells d) = Ok (Page.Int64 (Page.wrap (sum_values d))).
Proof.
  unfold Page.sum_nums, Page.cells, comprehension.
  cbn [north_regular north_diet south_regular south_diet get].
  rewrite add_zero_cell. cbn [bind]. rewrite add_cells. cbn [bind].
  rewrite add_cells. cbn [bind]. rewrite add_cells.
  rewrite (wrap_add_l (0 + north_regular d) (north_diet d)).
  rewrite (wrap_add_l (0 + north_regular d + north_diet d) (south_regular d)).
  rewrite wrap_add_l, Z.add_0_l. reflexivity.
Qed.

(** ** Dividing by a total of zero on the page *)

Lemma div_zero_not_finite x : Page.not_finite (Float.div x (S754_zero false)).
Proof. destruct x as [s|s| |s m e]; exact I. Qed.

Lemma mul_hundred_not_finite x :
  Page.not_finite x -> Page.not_finite (Float.mul x Float.hundred).
Proof. destruct x as [s|s| |s m e]; try contradiction; intros _; exact I. Qed.

Lemma truediv_zero_cell a q :
  Page.truediv a (Page.Int64 0) = Ok q -> Page.not_finite q.
Proof.
  intros H.
  assert (E : exists x, q = Float.div (Page.to_float64 x) (S754_zero false)).
  { destruct a as [x|x]; unfold Page.truediv in H.
    - bind_inv H as x' Hx. cbn [Page.as_int64 bind] in H. injection H as <-.
      exists x'. reflexivity.
    - cbn [Page.as_int64 bind] in H. injection H as <-. exists x. reflexivity. }
  destruct E as (x & ->). apply div_zero_not_finite.
Qed.

Lemma page_percentage_undefined demand fulfilled pct :
  sum_values demand = 0 ->
  Page.fulfillment_percentage demand fulfilled = Ok pct -> Page.not_finite pct.
Proof.
  intros HD H. unfold Page.fulfillment_percentage in H.
  bind_inv H as f Hf. rewrite sum_cells, HD in H.
  change (Page.wrap 0) with 0 in H. cbn [bind] in H.
  bind_inv H as q Hq. apply truediv_zero_cell in Hq.
  unfold Float.mul_int in H. rewrite of_int_100 in H. cbn [bind] in H.
  injection H as <-. apply mul_hundred_not_finite. assumption.
Qed.

(** ** A week of moderate size is returned up to its inventories *)

Lemma page_ending_inventory cfg demand inv (s : dict) :
  (forall k, 0 <= get demand k < 2 ^ 62) ->
  (forall k, 0 <= Page.val (Page.get_default inv k (SAFETY_STOCK cfg)) < 2 ^ 62) ->
  (forall k, 0 <= get s k < 2 ^ 53) ->
  exists e, Page.ending_inventory cfg demand inv s = Ok e /\
            forall k, 0 <= Page.val (get e k) < 2 ^ 63.
Proof.
  intros Hd Hi Hs.
  assert (H : forall k, exists u,
             (t <- Page.add (Page.get_default inv k (SAFETY_STOCK cfg))
                            (Page.PyInt (get s k)) ;;
              u <- Page.sub t (Page.Int64 (get demand k)) ;;
              Ok (Page.max0 u)) = Ok (Page.max0 u) /\
             - 2 ^ 63 <= Page.val u < 2 ^ 63).
  { intros k. specialize (Hd k). specialize (Hi k). specialize (Hs k).
    destruct (arith_exact Z.add (Page.get_default inv k (SAFETY_STOCK cfg))
                (Page.PyInt (get s k))) as (t & Ht & Vt);
      cbn [Page.val]; try lia.
    cbn [Page.val] in Vt.
    destruct (arith_exact Z.sub t (Page.Int64 (get demand k)))
      as (u & Hu & Vu); cbn [Page.val]; try lia.
    cbn [Page.val] in Vu.
    exists u. unfold Page.add, Page.sub. rewrite Ht. cbn [bind]. rewrite Hu.
    split; [reflexivity|lia]. }
  destruct (H North_Regular) as (u1 & E1 & V1), (H North_Diet) as (u2 & E2 & V2),
    (H South_Regular) as (u3 & E3 & V3), (H South_Diet) as (u4 & E4 & V4).
  exists (mkQuad (Page.max0 u1) (Page.max0 u2) (Page.max0 u3) (Page.max0 u4)).
  split.
  - unfold Page.ending_inventory, comprehensionM. rewrite E1, E2, E3, E4. reflexivity.
  - intros k.
    destruct k; cbn [get north_regular north_diet south_regular south_diet];
      rewrite max0_val; lia.
Qed.

Lemma page_shipments cfg demand inv capacity :
  moderate_week cfg demand inv capacity ->
  exists s, Page.allocate cfg demand inv capacity = Ok s /\
            (forall k, 0 <= get s k) /\
            sum_values s <= capacity /\ sum_values s < 2 ^ 53.
Proof.
  intros Hm. rewrite page_allocate by assumption.
  destruct (page_steps cfg demand inv capacity Hm)
    as (req & t & alloc & _ & _ & _ & _ & _ & Hsc0 & Hnn & Hb & _).
  destruct Hm as (Hc & Hts & _ & _ & _ & HT & Hp).
  destruct (allocate_returns cfg demand (inventory_values inv) capacity Hc
              ltac:(lia) HT Hp) as (s & Hs & Hle).
  exists s. split; [assumption|].
  split; [apply allocate_nonneg with cfg demand (inventory_values inv) capacity;
          [lia|lia|assumption]|].
  split; [assumption|].
  unfold allocate in Hs. rewrite Hsc0 in Hs. cbn [bind] in Hs.
  pose proof (ship_le_alloc cfg _ s Hnn ltac:(lia) Hb Hs). lia.
Qed.

(** ** A week without demand on the page *)

Lemma page_idle_week cfg r inv capacity :
  (forall k, get (row_demand r) k = 0) ->
  moderate_week cfg (row_demand r) inv capacity ->
  exists out,
    Page.simulate_week cfg r inv capacity = Ok out /\
    Page.out_fulfillment_pct out = S754_nan /\
    Page.allocate cfg (row_demand r) inv capacity = Ok (Page.out_alloc_truck out) /\
    (forall k, 0 <= get (Page.out_alloc_truck out) k) /\
    sum_values (Page.out_alloc_truck out) <= capacity /\
    sum_values (Page.out_alloc_truck out) < 2 ^ 53.
Proof.
  intros Hz Hm.
  destruct (page_shipments cfg (row_demand r) inv capacity Hm)
    as (s & Hs & Hnn & Hle & Hb).
  pose proof Hs as Hs'. unfold Page.allocate in Hs'.
  bind_inv Hs' as req Hreq. bind_inv Hs' as t Ht. bind_inv Hs' as alloc Ha.
  destruct (page_ending_inventory cfg (row_demand r) inv s) as (e & He & _).
  { destruct Hm as (_ & _ & _ & Hd & _). exact Hd. }
  { destruct Hm as (_ & _ & _ & _ & Hi & _). exact Hi. }
  { intros k. split; [apply Hnn|].
    pose proof (get_le_sum s k Hnn). lia. }
  assert (Hf : Page.fulfilled_quantities (row_demand r) s
               = Page.cells (mkQuad 0 0 0 0)).
  { apply quad_ext. intros k. unfold Page.fulfilled_quantities, Page.cells.
    rewrite !get_comprehension. unfold Page.min. cbn [Page.val].
    rewrite Hz. specialize (Hnn k).
    destruct (Z.ltb_spec (get s k) 0); [lia|]. destruct k; reflexivity. }
  assert (Hd0 : row_demand r = mkQuad 0 0 0 0).
  { apply quad_ext. intros k. rewrite Hz. destruct k; reflexivity. }
  unfold Page.simulate_week. rewrite Hreq. cbn [bind]. rewrite Ht. cbn [bind].
  rewrite Ha. cbn [bind]. rewrite Hs'. cbn [bind]. rewrite He. cbn [bind].
  rewrite Hf, Hd0.
  change (Page.fulfillment_percentage (mkQuad 0 0 0 0) (Page.cells (mkQuad 0 0 0 0)))
    with (@Ok Float.float S754_nan).
  cbn [bind]. eexists. split; [reflexivity|].
  cbn [Page.out_fulfillment_pct Page.out_alloc_truck]. rewrite <- Hd0.
  auto.
Qed.

Lemma page_idle_run_week cfg r inv :
  (forall k, get (row_demand r) k = 0) ->
  moderate_week cfg (row_demand r) inv (PLANT_CAPACITY cfg) ->
  exists wr inv',
    Page.run_week cfg r inv = Ok (wr, inv') /\
    Page.res_Fulfillment wr = S754_nan.
Proof.
  intros Hz Hm.
  destruct (page_idle_week cfg r inv (PLANT_CAPACITY cfg) Hz Hm)
    as (out & Hout & Hpct & Ha & Hnn & Hle & Hb).
  rewrite page_allocate in Ha by assumption.
  destruct Hm as (Hc & Hts & _).
  destruct (allocate_inv cfg _ _ _ _ Ha) as (alloc & Hsc & Hship).
  assert (Hann : forall k, 0 <= get alloc k).
  { apply scale_nonneg with (2 := Z.lt_le_incl _ _ Hc) (3 := Hsc).
    intros k. apply required_nonneg. }
  pose proof (Hann North_Regular). pose proof (Hann North_Diet).
  pose proof (Hann South_Regular). pose proof (Hann South_Diet).
  pose proof (Hnn North_Regular). pose proof (Hnn North_Diet).
  pose proof (Hnn South_Regular). pose proof (Hnn South_Diet).
  cbn [get] in *.
  destruct (ship_dc_totals cfg alloc _ Hship) as [Hn Hso].
  apply truck_total_nonneg in Hn; [|lia|lia].
  apply truck_total_nonneg in Hso; [|lia|lia].
  destruct Hn as (n1 & Hn1 & En), Hso as (n2 & Hn2 & Es).
  unfold Page.run_week. rewrite Hout. cbn [bind]. rewrite sum_cells. cbn [bind].
  set (sh := Page.out_alloc_truck out) in *.
  assert (Hsum0 : 0 <= sum_values sh <= PLANT_CAPACITY cfg).
  { rewrite sum_values_get in *. cbn [get] in *. lia. }
  destruct (int_truediv_le (sum_values sh) (PLANT_CAPACITY cfg) Hsum0 Hc)
    as (u & -> & Hu). cbn [bind].
  destruct (mul_hundred_bounds u Hu) as (p & -> & _). cbn [bind].
  rewrite sum_values_get in Hb. cbn [get] in Hb.
  rewrite En, Es.
  rewrite !int_truediv_exact by lia. cbn [bind].
  eexists. eexists. split; [reflexivity|].
  cbn [Page.res_Fulfillment]. rewrite Hpct. reflexivity.
Qed.

(** * A week, called directly and on the page *)

(** ** Whole trucks, in a direct call *)

Lemma dc_totals_whole cfg demand starting_inv capacity alloc_truck :
  0 <= capacity -> 0 < TRUCK_SIZE cfg ->
  allocate cfg demand starting_inv capacity = Ok alloc_truck ->
  exists alloc,
    scale (required cfg demand starting_inv) capacity = Ok alloc /\
    (exists n, 0 <= n /\
       north_regular alloc_truck + north_diet alloc_truck = n * TRUCK_SIZE cfg) /\
    (exists n, 0 <= n /\
       south_regular alloc_truck + south_diet alloc_truck = n * TRUCK_SIZE cfg) /\
    (north_regular alloc + north_diet alloc < 2 ^ 53 ->
     north_regular alloc_truck + north_diet alloc_truck
     = (north_regular alloc + north_diet alloc) / TRUCK_SIZE cfg * TRUCK_SIZE cfg) /\
    (south_regular alloc + south_diet alloc < 2 ^ 53 ->
     south_regular alloc_truck + south_diet alloc_truck
     = (south_regular alloc + south_diet alloc) / TRUCK_SIZE cfg * TRUCK_SIZE cfg).
Proof.
  intros Hc Hts H. destruct (allocate_inv _ _ _ _ _ H) as (alloc & Ha & Hs).
  exists alloc. split; [assumption|].
  assert (Hnn : forall k, 0 <= get alloc k).
  { apply scale_nonneg with (2 := Hc) (3 := Ha). intros k. apply required_nonneg. }
  pose proof (Hnn North_Regular). pose proof (Hnn North_Diet).
  pose proof (Hnn South_Regular). pose proof (Hnn South_Diet). simpl in *.
  destruct (ship_dc_totals cfg alloc alloc_truck Hs) as [Hn Hs'].
  split; [apply truck_total_nonneg with (3 := Hn); lia|].
  split; [apply truck_total_nonneg with (3 := Hs'); lia|].
  split; intros Hb.
  - rewrite truck_total_exact in Hn by lia. injection Hn as <-. reflexivity.
  - rewrite truck_total_exact in Hs' by lia. injection Hs' as <-. reflexivity.
Qed.

(** ** The Diet shipment on the grid, in a direct call *)

Lemma diet_multiple cfg demand starting_inv capacity j alloc_truck :
  0 <= capacity -> 0 < j -> TRUCK_SIZE cfg = j * 1000 ->
  allocate cfg demand starting_inv capacity = Ok alloc_truck ->
  (exists a, 0 <= a /\ north_diet alloc_truck = a * 1000) /\
  (exists b, 0 <= b /\ south_diet alloc_truck = b * 1000).
Proof.
  intros Hc Hj Hts H. destruct (allocate_inv _ _ _ _ _ H) as (alloc & Ha & Hs).
  assert (Hnn : forall k, 0 <= get alloc k).
  { apply scale_nonneg with (2 := Hc) (3 := Ha). intros k. apply required_nonneg. }
  pose proof (Hnn North_Regular). pose proof (Hnn North_Diet).
  pose proof (Hnn South_Regular). pose proof (Hnn South_Diet). simpl in *.
  destruct (ship_inv cfg alloc alloc_truck Hs) as (tn & ts & Hn & Hs' & Hsn & Hss).
  apply truck_total_nonneg in Hn; [|lia|lia].
  apply truck_total_nonneg in Hs'; [|lia|lia].
  destruct Hn as (n1 & Hn1 & ->), Hs' as (n2 & Hn2 & ->).
  apply split_result in Hsn. apply split_result in Hss.
  destruct Hsn as ((k1 & Hk1 & E1) & Hd1 & Hp1), Hss as ((k2 & Hk2 & E2) & Hd2 & Hp2).
  rewrite Hts in *.
  split; [exists (n1 * j - k1)|exists (n2 * j - k2)]; nia.
Qed.

(** ** An empty DC

    With both allocations at 0 the share is 0.5: half of an even number of
    thousands goes to each SKU. *)

Lemma half_between : value_between 1 1 2 half.
Proof. unfold value_between, half. repeat split; (vm_compute; first [reflexivity | discriminate | intro; discriminate]). Qed.

Lemma split_even q :
  0 <= q -> 2000 * q < 2 ^ 53 ->
  split_into_skus 0 0 (2000 * q) = Ok (1000 * q, 1000 * q).
Proof.
  intros Hq Hb. destruct (Z.eq_dec q 0) as [->|Hq0]; [reflexivity|].
  unfold split_into_skus.
  destruct (Z.eqb_spec (2000 * q) 0) as [|_]; [lia|].
  change (regular_share 0 0) with (@Ok float half). cbn [bind].
  unfold mul_int. rewrite of_int_exact by lia. cbn [bind].
  assert (Hx : value_between (1000 * q) (1000 * q) 1 (mul half (exact (2000 * q)))).
  { apply mul_between with 1 1 2; try lia; exact half_between. }
  unfold truediv_int. rewrite of_int_1000. cbn [bind].
  change (is_zero thousand) with false. cbv iota. cbn [bind].
  assert (Hy : value_between (4 * q - 1) (4 * q + 1) 4
                 (div (mul half (exact (2000 * q))) thousand)).
  { apply div_thousand_between with (1000 * q) (1000 * q); try assumption; lia. }
  rewrite (round_between q _ Hy). cbn [bind].
  replace (2000 * q - q * 1000) with (q * 1000) by lia.
  destruct (Z.ltb_spec (q * 1000) 0) as [|_]; [lia|].
  destruct (Z.ltb_spec (q * 1000) 0) as [|_]; [lia|].
  rewrite Z.div_mul by lia. f_equal. f_equal; lia.
Qed.

(** ** The fulfillment percentage *)

Lemma percentage_bounds (demand s : dict) pct :
  (forall k, 0 <= get demand k) -> (forall k, 0 <= get s k) ->
  0 < sum_values demand ->
  fulfillment_percentage demand (fulfilled_quantities demand s) = Ok pct ->
  leb (S754_zero false) pct = true /\ leb pct hundred = true.
Proof.
  intros Hd Hs HD Hp.
  pose proof (fulfilled_bounds demand s Hd Hs) as HF.
  unfold fulfillment_percentage in Hp. bind_inv Hp as q Hq.
  destruct (int_truediv_le _ _ HF HD) as (q' & Hq' & Hq1).
  rewrite Hq in Hq'. injection Hq' as <-.
  destruct (mul_hundred_bounds q Hq1) as (p & Hp' & H0 & H100).
  rewrite Hp in Hp'. injection Hp' as <-. split; assumption.
Qed.

(** ** Concrete weeks

    The hypotheses of a theorem at a concrete week are closed facts about
    numbers: they are decided by evaluation. *)

Ltac by_evaluation :=
  vm_compute; first [reflexivity | discriminate | intro; discriminate].

Ltac moderate_by_evaluation :=
  unfold moderate_week;
  repeat match goal with
         | |- _ /\ _ => split
         | |- forall k : key, _ => intros []
         | |- _ < _ -> _ => intros _
         end;
  by_evaluation.

(** * The properties stated by the specification *)

(** ** Capacity *)




(** ** The split between the two SKUs *)

(** C2.  The SKU re-split of a truck total: a truck total of 0 gives two
    shipments of 0; when both pre-quantization allocations are 0 the
    Regular share is 0.5, so that the truck total is split as between two
    equal allocations, and a truck total of [2000 * q] gives [1000 * q] to
    each SKU; whatever the helper returns, the Regular shipment is a
    non-negative integer multiple of 1000 and the Diet shipment is the
    truck total minus the Regular shipment, so that the pair sums to the
    truck total; and the helper does return for non-negative allocations and
    truck totals below [2^53]. *)
Theorem split_into_skus_spec :
  (forall req_reg req_diet, split_into_skus req_reg req_diet 0 = Ok (0, 0)) /\
  (forall truck_total,
      split_into_skus 0 0 truck_total = split_into_skus 1 1 truck_total) /\
  (forall q, 0 <= q -> 2000 * q < 2 ^ 53 ->
             split_into_skus 0 0 (2000 * q) = Ok (1000 * q, 1000 * q)) /\
  (forall req_reg req_diet truck_total reg diet,
      split_into_skus req_reg req_diet truck_total = Ok (reg, diet) ->
      (exists k, 0 <= k /\ reg = k * 1000) /\
      diet = truck_total - reg /\ reg + diet = truck_total) /\
  (forall req_reg req_diet truck_total,
      0 <= req_reg -> 0 <= req_diet -> 0 <= truck_total < 2 ^ 53 ->
      exists reg diet, split_into_skus req_reg req_diet truck_total = Ok (reg, diet)).
Proof.
  split; [exact split_zero|]. split; [reflexivity|]. split; [exact split_even|].
  split.
  - intros req_reg req_diet truck_total reg diet H.
    destruct (split_result _ _ _ _ _ H) as (Hk & Hd & _).
    split; [assumption|]. split; [assumption|lia].
  - exact split_returns.
Qed.

Lemma split_into_skus_spec_witness :
  split_into_skus 33333 16667 50000 = Ok (33000, 17000) /\
  (exists k, 0 <= k /\ 33000 = k * 1000) /\
  17000 = 50000 - 33000 /\ 33000 + 17000 = 50000 /\
  split_into_skus 0 0 (2000 * 25) = Ok (1000 * 25, 1000 * 25).
Proof.
  split; [vm_compute; reflexivity|].
  destruct split_into_skus_spec as (_ & _ & Heven & H & _).
  destruct (H 33333 16667 50000 33000 17000) as (Hk & Hd & Hs);
    [vm_compute; reflexivity|].
  split; [exact Hk|]. split; [exact Hd|]. split; [exact Hs|].
  apply (Heven 25); [discriminate|reflexivity].
Defined.

(** ** Rationing *)

(** C3 (as amended).  In a week whose total requirement is within the
    plant capacity, every allocation is the requirement, unchanged.  In a
    week whose total requirement exceeds a positive plant capacity, the
    allocation of a key is [int] of the binary64 quotient
    [required[key] * capacity / total_required]: in a direct call with
    Python integers the correctly rounded quotient of the exact product; on
    the page, where the requirement is a [numpy.int64], the quotient of the
    floats of the product, wrapped to 64 bits, and of the total.  It equals
    [floor(required[key] * capacity / total_required)] in a direct call for
    every key whose product is below [2^53], and on the page in every week
    of moderate size; there the allocations are returned. *)
Theorem rationing_spec cfg demand capacity :
  0 < capacity ->
  (forall starting_inv,
      let req := required cfg demand starting_inv in
      (sum_values req <= capacity -> scale req capacity = Ok req) /\
      (capacity < sum_values req ->
       forall alloc, scale req capacity = Ok alloc ->
       forall k,
         (exists q,
             Float.int_truediv (get req k * capacity) (sum_values req) = Ok q /\
             Float.trunc q = Ok (get alloc k)) /\
         (get req k * capacity < 2 ^ 53 ->
          get alloc k = get req k * capacity / sum_values req)) /\
      (capacity < sum_values req ->
       (forall k, get req k * capacity < 2 ^ 53) ->
       exists alloc, scale req capacity = Ok alloc)) /\
  (forall inv req total_required,
      Page.required cfg demand inv = Ok req ->
      Page.sum_nums req = Ok total_required ->
      (Page.val total_required <= capacity ->
       Page.scale req total_required capacity = Ok req) /\
      (capacity < Page.val total_required ->
       forall alloc, Page.scale req total_required capacity = Ok alloc ->
       forall k,
         (exists p q n,
             Page.mul (get req k) (Page.PyInt capacity) = Ok p /\
             Page.truediv p total_required = Ok q /\
             Float.trunc q = Ok n /\ get alloc k = Page.PyInt n) /\
         (moderate_week cfg demand inv capacity ->
          Page.val (get alloc k)
          = Page.val (get req k) * capacity / Page.val total_required)) /\
      (moderate_week cfg demand inv capacity ->
       exists alloc, Page.scale req total_required capacity = Ok alloc)).
Proof.
  intros Hc. split.
  - intros starting_inv req.
    assert (Hreq : forall k, 0 <= get req k) by (intros k; apply required_nonneg).
    split; [apply scale_within|]. split.
    + intros HT alloc Ha k.
      destruct (scale_key req capacity alloc k HT Ha) as (q & Hq & Ht).
      split; [exists q; split; assumption|]. intros Hk.
      destruct (int_truediv_floor (get req k * capacity) (sum_values req))
        as (f & Hf & Hft & _).
      * split; [apply Z.mul_nonneg_nonneg; [apply Hreq|lia]|assumption].
      * lia.
      * rewrite Hq in Hf. injection Hf as <-. rewrite Ht in Hft.
        injection Hft as ->. reflexivity.
    + intros HT Hb. rewrite scale_exceeded by (auto; lia). eauto.
  - intros inv req t Hreq Hsum. split; [apply page_scale_within|]. split.
    + intros HT alloc Ha k.
      split; [exact (page_scale_key req t capacity alloc k HT Ha)|].
      intros Hm.
      exact (page_scale_floor cfg demand inv capacity req t alloc k Hm Hreq Hsum HT Ha).
    + intros Hm.
      destruct (page_steps cfg demand inv capacity Hm)
        as (req' & t' & alloc & Hreq' & _ & Hsum' & _ & Hsc & _).
      assert (req' = req) by congruence. subst req'.
      assert (t' = t) by congruence. subst t'. eauto.
Qed.

Lemma rationing_spec_witness :
  0 < 150000 /\
  (150000 < sum_values (required reference_config (row_demand scenario_B_row)
                                 (initial_inventory reference_config)) /\
   scale (required reference_config (row_demand scenario_B_row)
                   (initial_inventory reference_config)) 150000
   = Ok (mkQuad 37500 37500 37500 37500) /\
   forall k, get (mkQuad 37500 37500 37500 37500) k
             = get (required reference_config (row_demand scenario_B_row)
                             (initial_inventory reference_config)) k * 150000
               / sum_values (required reference_config (row_demand scenario_B_row)
                                      (initial_inventory reference_config))) /\
  (moderate_week reference_config (row_demand scenario_B_row)
                 (Page.initial_inventory reference_config) 150000 /\
   Page.required reference_config (row_demand scenario_B_row)
                 (Page.initial_inventory reference_config)
   = Ok (Page.cells (row_demand scenario_B_row)) /\
   Page.sum_nums (Page.cells (row_demand scenario_B_row)) = Ok (Page.Int64 200000) /\
   Page.scale (Page.cells (row_demand scenario_B_row)) (Page.Int64 200000) 150000
   = Ok (Page.python (mkQuad 37500 37500 37500 37500)) /\
   forall k, Page.val (get (Page.python (mkQuad 37500 37500 37500 37500)) k)
             = Page.val (get (Page.cells (row_demand scenario_B_row)) k) * 150000
               / Page.val (Page.Int64 200000)).
Proof.
  split; [reflexivity|].
  destruct (rationing_spec reference_config (row_demand scenario_B_row) 150000)
    as [Hdirect Hpage]; [reflexivity|].
  split.
  - split; [reflexivity|]. split; [reflexivity|]. intros k.
    destruct (Hdirect (initial_inventory reference_config)) as (_ & H & _).
    apply H; [reflexivity|reflexivity|destruct k; reflexivity].
  - assert (Hm : moderate_week reference_config (row_demand scenario_B_row)
                   (Page.initial_inventory reference_config) 150000)
      by moderate_by_evaluation.
    split; [exact Hm|]. split; [reflexivity|]. split; [reflexivity|].
    split; [vm_compute; reflexivity|]. intros k.
    destruct (Hpage (Page.initial_inventory reference_config)
                    (Page.cells (row_demand scenario_B_row)) (Page.Int64 200000))
      as (_ & H & _); [reflexivity|reflexivity|].
    apply H; [reflexivity|vm_compute; reflexivity|exact Hm].
Defined.

(** C3 as stated fails from [2^53] on: with capacity 140000000 and
    requirements 108888896 and 31111113, the binary64 quotient of
    108888896 * 140000000 by 140000009 rounds up to the integer 108888889,
    one more than the floor of the exact quotient.  The product is below
    [2^63] and a binary64 number, so that the page computes the same. *)
Lemma rationing_rounds_up :
  let req := required large_config (row_demand large_row)
                      (initial_inventory large_config) in
  140000000 < sum_values req /\
  scale req 140000000 = Ok (mkQuad 108888889 31111111 0 0) /\
  get req North_Regular * 140000000 / sum_values req = 108888888 /\
  exists page_req total_required,
    Page.required large_config (row_demand large_row)
                  (Page.initial_inventory large_config) = Ok page_req /\
    Page.values page_req = req /\
    Page.sum_nums page_req = Ok total_required /\
    Page.scale page_req total_required 140000000
    = Ok (Page.python (mkQuad 108888889 31111111 0 0)).
Proof.
  split; [reflexivity|]. split; [vm_compute; reflexivity|].
  split; [vm_compute; reflexivity|].
  eexists. eexists. split; [vm_compute; reflexivity|]. split; [reflexivity|].
  split; [vm_compute; reflexivity|]. vm_compute. reflexivity.
Qed.

(** ** Whole trucks *)

(** C4 (as amended).  For every week that the engine allocates with a
    non-negative capacity and a positive truck size, and for each
    distribution center, the quantity shipped to the center (the sum of its
    two SKU shipments) is a non-negative integer multiple of the truck size,
    and it is the summed allocation of the center floored to a multiple of
    the truck size when that sum is below [2^53]: in a direct call with
    Python integers for every such week, on the page (cells of type
    [numpy.int64]) for every week of moderate size. *)
Theorem whole_trucks cfg demand capacity :
  0 <= capacity -> 0 < TRUCK_SIZE cfg ->
  (forall starting_inv alloc_truck,
      allocate cfg demand starting_inv capacity = Ok alloc_truck ->
      exists alloc,
        scale (required cfg demand starting_inv) capacity = Ok alloc /\
        (exists n, 0 <= n /\
           north_regular alloc_truck + north_diet alloc_truck = n * TRUCK_SIZE cfg) /\
        (exists n, 0 <= n /\
           south_regular alloc_truck + south_diet alloc_truck = n * TRUCK_SIZE cfg) /\
        (north_regular alloc + north_diet alloc < 2 ^ 53 ->
         north_regular alloc_truck + north_diet alloc_truck
         = (north_regular alloc + north_diet alloc) / TRUCK_SIZE cfg * TRUCK_SIZE cfg) /\
        (south_regular alloc + south_diet alloc < 2 ^ 53 ->
         south_regular alloc_truck + south_diet alloc_truck
         = (south_regular alloc + south_diet alloc) / TRUCK_SIZE cfg * TRUCK_SIZE cfg)) /\
  (forall inv alloc_truck,
      moderate_week cfg demand inv capacity ->
      Page.allocate cfg demand inv capacity = Ok alloc_truck ->
      exists req total_required alloc,
        Page.required cfg demand inv = Ok req /\
        Page.sum_nums req = Ok total_required /\
        Page.scale req total_required capacity = Ok alloc /\
        (exists n, 0 <= n /\
           north_regular alloc_truck + north_diet alloc_truck = n * TRUCK_SIZE cfg) /\
        (exists n, 0 <= n /\
           south_regular alloc_truck + south_diet alloc_truck = n * TRUCK_SIZE cfg) /\
        north_regular alloc_truck + north_diet alloc_truck
        = (Page.val (north_regular alloc) + Page.val (north_diet alloc))
          / TRUCK_SIZE cfg * TRUCK_SIZE cfg /\
        south_regular alloc_truck + south_diet alloc_truck
        = (Page.val (south_regular alloc) + Page.val (south_diet alloc))
          / TRUCK_SIZE cfg * TRUCK_SIZE cfg).
Proof.
  intros Hc Hts. split.
  - intros starting_inv alloc_truck H. apply dc_totals_whole; assumption.
  - intros inv alloc_truck Hm H.
    destruct (page_steps cfg demand inv capacity Hm)
      as (req & t & alloc & Hreq & _ & Hsum & _ & Hsc & Hsc0 & Hnn & Hb & _).
    rewrite page_allocate in H by assumption.
    destruct (dc_totals_whole cfg demand _ capacity alloc_truck Hc Hts H)
      as (alloc0 & Ha0 & Hn & Hs & Hfn & Hfs).
    assert (alloc0 = Page.values alloc) by congruence. subst alloc0.
    pose proof (Hnn North_Regular). pose proof (Hnn North_Diet).
    pose proof (Hnn South_Regular). pose proof (Hnn South_Diet).
    rewrite sum_values_get in Hb. cbn [get] in *.
    exists req, t, alloc. repeat (split; [assumption|]).
    split; [apply Hfn|apply Hfs]; lia.
Qed.

Lemma whole_trucks_witness :
  0 <= 150000 /\ 0 < TRUCK_SIZE reference_config /\
  (allocate reference_config (row_demand scenario_B_row)
            (initial_inventory reference_config) 150000
   = Ok (mkQuad 35000 35000 35000 35000) /\
   exists alloc,
     scale (required reference_config (row_demand scenario_B_row)
                     (initial_inventory reference_config)) 150000 = Ok alloc /\
     (exists n, 0 <= n /\ 35000 + 35000 = n * TRUCK_SIZE reference_config) /\
     (exists n, 0 <= n /\ 35000 + 35000 = n * TRUCK_SIZE reference_config) /\
     (north_regular alloc + north_diet alloc < 2 ^ 53 ->
      35000 + 35000
      = (north_regular alloc + north_diet alloc) / TRUCK_SIZE reference_config
        * TRUCK_SIZE reference_config) /\
     (south_regular alloc + south_diet alloc < 2 ^ 53 ->
      35000 + 35000
      = (south_regular alloc + south_diet alloc) / TRUCK_SIZE reference_config
        * TRUCK_SIZE reference_config)) /\
  (moderate_week reference_config (row_demand scenario_B_row)
                 (Page.initial_inventory reference_config) 150000 /\
   Page.allocate reference_config (row_demand scenario_B_row)
                 (Page.initial_inventory reference_config) 150000
   = Ok (mkQuad 35000 35000 35000 35000) /\
   exists req total_required alloc,
     Page.required reference_config (row_demand scenario_B_row)
                   (Page.initial_inventory reference_config) = Ok req /\
     Page.sum_nums req = Ok total_required /\
     Page.scale req total_required 150000 = Ok alloc /\
     (exists n, 0 <= n /\ 35000 + 35000 = n * TRUCK_SIZE reference_config) /\
     (exists n, 0 <= n /\ 35000 + 35000 = n * TRUCK_SIZE reference_config) /\
     35000 + 35000
     = (Page.val (north_regular alloc) + Page.val (north_diet alloc))
       / TRUCK_SIZE reference_config * TRUCK_SIZE reference_config /\
     35000 + 35000
     = (Page.val (south_regular alloc) + Page.val (south_diet alloc))
       / TRUCK_SIZE reference_config * TRUCK_SIZE reference_config).
Proof.
  split; [discriminate|]. split; [reflexivity|].
  destruct (whole_trucks reference_config (row_demand scenario_B_row) 150000)
    as [Hdirect Hpage].
  - discriminate.
  - reflexivity.
  - split.
    + split; [vm_compute; reflexivity|].
      apply (Hdirect (initial_inventory reference_config)
                     (mkQuad 35000 35000 35000 35000)).
      vm_compute. reflexivity.
    + assert (Hm : moderate_week reference_config (row_demand scenario_B_row)
                     (Page.initial_inventory reference_config) 150000)
        by moderate_by_evaluation.
      split; [exact Hm|]. split; [vm_compute; reflexivity|].
      apply (Hpage (Page.initial_inventory reference_config)
                   (mkQuad 35000 35000 35000 35000) Hm).
      vm_compute. reflexivity.
Defined.

(** C4 as stated fails.  In a direct call beyond [2^53], a summed
    allocation of 29999999999999999 for North, with truck size 10000, is
    shipped as 30000000000000000, which is more than the sum and so not its
    floor.  On the page, with the settings of the sidebar and a North
    Regular demand of 19999999999999999, the product by the capacity wraps
    around, the allocation is -340 and the truck total of North is -10000:
    a negative multiple of the truck size. *)
Lemma whole_trucks_round_up :
  (exists alloc alloc_truck,
      scale (required vast_config (row_demand vast_row) (initial_inventory vast_config))
            (PLANT_CAPACITY vast_config) = Ok alloc /\
      ship vast_config alloc = Ok alloc_truck /\
      north_regular alloc + north_diet alloc = 29999999999999999 /\
      north_regular alloc_truck + north_diet alloc_truck = 30000000000000000 /\
      (north_regular alloc + north_diet alloc) / TRUCK_SIZE vast_config
        * TRUCK_SIZE vast_config = 29999999999990000) /\
  (Page.int64_row huge_row /\
   (forall k, 0 <= get (row_demand huge_row) k) /\
   0 < PLANT_CAPACITY reference_config /\ 0 < TRUCK_SIZE reference_config /\
   exists req total_required alloc,
     Page.required reference_config (row_demand huge_row)
                   (Page.initial_inventory reference_config) = Ok req /\
     Page.sum_nums req = Ok total_required /\
     Page.scale req total_required (PLANT_CAPACITY reference_config) = Ok alloc /\
     Page.val (north_regular alloc) = -340 /\
     Page.allocate reference_config (row_demand huge_row)
                   (Page.initial_inventory reference_config)
                   (PLANT_CAPACITY reference_config)
     = Ok (mkQuad 0 (-10000) 0 0) /\
     0 + -10000 = -1 * TRUCK_SIZE reference_config /\
     ~ (exists n, 0 <= n /\ 0 + -10000 = n * TRUCK_SIZE reference_config)).
Proof.
  split.
  - eexists. eexists. split; [vm_compute; reflexivity|].
    split; [vm_compute; reflexivity|]. repeat split.
  - split; [intros []; reflexivity|]. split; [intros []; discriminate|].
    split; [reflexivity|]. split; [reflexivity|].
    eexists. eexists. eexists.
    split; [vm_compute; reflexivity|]. split; [vm_compute; reflexivity|].
    split; [vm_compute; reflexivity|]. split; [reflexivity|].
    split; [vm_compute; reflexivity|]. split; [reflexivity|].
    intros (n & Hn & E). change (TRUCK_SIZE reference_config) with 10000 in E. lia.
Qed.

(** C10 (as amended).  For every week that the engine allocates with a
    non-negative capacity and a truck size that is a positive integer
    multiple of 1000, the Diet shipment of each distribution center is a
    non-negative integer multiple of 1000: in a direct call with Python
    integers for every such week, on the page (cells of type
    [numpy.int64]) for every week of moderate size. *)
Theorem diet_on_grid cfg demand capacity j :
  0 <= capacity -> 0 < j -> TRUCK_SIZE cfg = j * 1000 ->
  (forall starting_inv alloc_truck,
      allocate cfg demand starting_inv capacity = Ok alloc_truck ->
      (exists a, 0 <= a /\ north_diet alloc_truck = a * 1000) /\
      (exists b, 0 <= b /\ south_diet alloc_truck = b * 1000)) /\
  (forall inv alloc_truck,
      moderate_week cfg demand inv capacity ->
      Page.allocate cfg demand inv capacity = Ok alloc_truck ->
      (exists a, 0 <= a /\ north_diet alloc_truck = a * 1000) /\
      (exists b, 0 <= b /\ south_diet alloc_truck = b * 1000)).
Proof.
  intros Hc Hj Hts. split.
  - intros starting_inv alloc_truck H.
    apply diet_multiple with cfg demand starting_inv capacity j; assumption.
  - intros inv alloc_truck Hm H. rewrite page_allocate in H by assumption.
    apply diet_multiple with cfg demand (inventory_values inv) capacity j; assumption.
Qed.

Lemma diet_on_grid_witness :
  0 <= 150000 /\ 0 < 10 /\ TRUCK_SIZE reference_config = 10 * 1000 /\
  (allocate reference_config (row_demand scenario_A_row)
            (initial_inventory reference_config) 150000
   = Ok (mkQuad 40000 10000 30000 10000) /\
   (exists a, 0 <= a /\ 10000 = a * 1000) /\
   (exists b, 0 <= b /\ 10000 = b * 1000)) /\
  (moderate_week reference_config (row_demand scenario_B_row)
                 (Page.initial_inventory reference_config) 150000 /\
   Page.allocate reference_config (row_demand scenario_B_row)
                 (Page.initial_inventory reference_config) 150000
   = Ok (mkQuad 35000 35000 35000 35000) /\
   (exists a, 0 <= a /\ 35000 = a * 1000) /\
   (exists b, 0 <= b /\ 35000 = b * 1000)).
Proof.
  split; [discriminate|]. split; [reflexivity|]. split; [reflexivity|].
  split.
  - split; [vm_compute; reflexivity|].
    destruct (diet_on_grid reference_config (row_demand scenario_A_row) 150000 10)
      as [Hdirect _].
    + discriminate.
    + reflexivity.
    + reflexivity.
    + apply (Hdirect (initial_inventory reference_config)
                     (mkQuad 40000 10000 30000 10000)).
      vm_compute. reflexivity.
  - assert (Hm : moderate_week reference_config (row_demand scenario_B_row)
                   (Page.initial_inventory reference_config) 150000)
      by moderate_by_evaluation.
    split; [exact Hm|]. split; [vm_compute; reflexivity|].
    destruct (diet_on_grid reference_config (row_demand scenario_B_row) 150000 10)
      as [_ Hpage].
    + discriminate.
    + reflexivity.
    + reflexivity.
    + apply (Hpage (Page.initial_inventory reference_config)
                   (mkQuad 35000 35000 35000 35000) Hm).
      vm_compute. reflexivity.
Defined.

(** C10 as stated fails on the page.  With the settings of the sidebar
    (capacity 150000, truck size 10000, safety stock 5000) and the row
    19999999999999999, 0, 0, 0, every input is valid, the product of the
    requirement by the capacity wraps around in [int64], and the Diet
    shipment of North is -10000: a multiple of 1000, and negative. *)
Lemma diet_negative_on_page :
  0 < PLANT_CAPACITY reference_config /\
  TRUCK_SIZE reference_config = 10 * 1000 /\
  Page.int64_row huge_row /\
  (forall k, 0 <= get (row_demand huge_row) k) /\
  Page.allocate reference_config (row_demand huge_row)
                (Page.initial_inventory reference_config)
                (PLANT_CAPACITY reference_config)
  = Ok (mkQuad 0 (-10000) 0 0) /\
  ~ (exists a, 0 <= a /\ north_diet (mkQuad 0 (-10000) 0 0) = a * 1000).
Proof.
  split; [reflexivity|]. split; [reflexivity|].
  split; [intros []; reflexivity|]. split; [intros []; discriminate|].
  split; [vm_compute; reflexivity|].
  intros (a & Ha & E). cbn [north_diet] in E. lia.
Qed.

(** With a truck size that is not a multiple of 1000 the Diet shipment can
    leave the grid: a truck of 1500 asked for Regular alone carries 1000 of
    Regular and 500 of Diet. *)
Example diet_off_grid :
  allocate odd_truck_config (row_demand odd_truck_row)
           (initial_inventory odd_truck_config) 150000
  = Ok (mkQuad 1000 500 0 0).
Proof. vm_compute. reflexivity. Qed.

(** ** Inventory and fulfillment *)



(** C6 (as amended).  For every week that the engine returns, the
    fulfilled quantity of every key is [min(demand[key], shipment[key])].
    When the total demand is positive, the fulfillment percentage, the
    float [sum(fulfilled) / sum(demand) * 100], lies between 0.0 and 100.0
    in a direct call with Python integers for a non-negative capacity, a
    positive truck size and non-negative demands, whatever the magnitudes;
    and on the page (cells of type [numpy.int64]) for every week of
    moderate size with a total demand below [2^53]. *)
Theorem fulfillment_spec cfg r :
  (forall starting_inv capacity out,
      simulate_week cfg r starting_inv capacity = Ok out ->
      (forall k, get (out_fulfilled out) k
                 = Z.min (get (row_demand r) k) (get (out_alloc_truck out) k)) /\
      (0 <= capacity -> 0 < TRUCK_SIZE cfg ->
       (forall k, 0 <= get (row_demand r) k) ->
       0 < sum_values (row_demand r) ->
       fulfillment_percentage (row_demand r) (out_fulfilled out)
       = Ok (out_fulfillment_pct out) /\
       Float.leb (S754_zero false) (out_fulfillment_pct out) = true /\
       Float.leb (out_fulfillment_pct out) Float.hundred = true)) /\
  (forall inv capacity out,
      Page.simulate_week cfg r inv capacity = Ok out ->
      (forall k, Page.val (get (Page.out_fulfilled out) k)
                 = Z.min (get (row_demand r) k) (get (Page.out_alloc_truck out) k)) /\
      (moderate_week cfg (row_demand r) inv capacity ->
       0 < sum_values (row_demand r) < 2 ^ 53 ->
       Page.fulfillment_percentage (row_demand r) (Page.out_fulfilled out)
       = Ok (Page.out_fulfillment_pct out) /\
       Float.leb (S754_zero false) (Page.out_fulfillment_pct out) = true /\
       Float.leb (Page.out_fulfillment_pct out) Float.hundred = true)).
Proof.
  split.
  - intros starting_inv capacity out H.
    destruct (simulate_week_inv cfg _ _ _ _ H) as (Ha & _ & Hf & Hp & _).
    split.
    + intros k. rewrite Hf. unfold fulfilled_quantities.
      rewrite get_comprehension. reflexivity.
    + intros Hc Hts Hd HD. split; [assumption|].
      pose proof (allocate_nonneg cfg _ _ _ _ Hc Hts Ha) as Hnn.
      rewrite Hf in Hp.
      exact (percentage_bounds _ _ _ Hd Hnn HD Hp).
  - intros inv capacity out H.
    destruct (page_simulate_week_inv cfg _ _ _ _ H) as (Ha & _ & Hf & Hp).
    split.
    + intros k. rewrite Hf. unfold Page.fulfilled_quantities.
      rewrite get_comprehension, min_val. reflexivity.
    + intros Hm HD. split; [assumption|].
      rewrite page_allocate in Ha by assumption.
      assert (Hc : 0 <= capacity) by (destruct Hm as (Hc & _); lia).
      assert (Hts : 0 < TRUCK_SIZE cfg) by (destruct Hm as (_ & Hts & _); lia).
      assert (Hd : forall k, 0 <= get (row_demand r) k).
      { intros k. destruct Hm as (_ & _ & _ & Hd & _). specialize (Hd k). lia. }
      pose proof (allocate_nonneg cfg _ _ _ _ Hc Hts Ha) as Hnn.
      rewrite Hf, page_fulfillment in Hp by (assumption || lia).
      exact (percentage_bounds _ _ _ Hd Hnn ltac:(lia) Hp).
Qed.

Lemma fulfillment_spec_witness :
  (exists out,
      simulate_week reference_config scenario_B_row
                    (initial_inventory reference_config) 150000 = Ok out /\
      out_fulfilled out = mkQuad 35000 35000 35000 35000 /\
      out_fulfillment_pct out = S754_finite false (35 * 2 ^ 47) (-46) /\
      (forall k, get (out_fulfilled out) k
                 = Z.min (get (row_demand scenario_B_row) k)
                         (get (out_alloc_truck out) k)) /\
      Float.leb (S754_zero false) (out_fulfillment_pct out) = true /\
      Float.leb (out_fulfillment_pct out) Float.hundred = true) /\
  (exists out,
      moderate_week reference_config (row_demand scenario_B_row)
                    (Page.initial_inventory reference_config) 150000 /\
      Page.simulate_week reference_config scenario_B_row
                         (Page.initial_inventory reference_config) 150000 = Ok out /\
      Page.out_fulfilled out = Page.python (mkQuad 35000 35000 35000 35000) /\
      Page.out_fulfillment_pct out = S754_finite false (35 * 2 ^ 47) (-46) /\
      (forall k, Page.val (get (Page.out_fulfilled out) k)
                 = Z.min (get (row_demand scenario_B_row) k)
                         (get (Page.out_alloc_truck out) k)) /\
      Float.leb (S754_zero false) (Page.out_fulfillment_pct out) = true /\
      Float.leb (Page.out_fulfillment_pct out) Float.hundred = true).
Proof.
  destruct (fulfillment_spec reference_config scenario_B_row) as [Hdirect Hpage].
  split.
  - eexists. split; [vm_compute; reflexivity|].
    split; [reflexivity|]. split; [reflexivity|].
    edestruct (Hdirect (initial_inventory reference_config) 150000) as [Hmin Hpct];
      [vm_compute; reflexivity|].
    split; [exact Hmin|].
    destruct Hpct as (_ & H0 & H100).
    + discriminate.
    + reflexivity.
    + intros []; discriminate.
    + reflexivity.
    + split; assumption.
  - assert (Hm : moderate_week reference_config (row_demand scenario_B_row)
                   (Page.initial_inventory reference_config) 150000)
      by moderate_by_evaluation.
    eexists. split; [exact Hm|]. split; [vm_compute; reflexivity|].
    split; [reflexivity|]. split; [reflexivity|].
    edestruct (Hpage (Page.initial_inventory reference_config) 150000) as [Hmin Hpct];
      [vm_compute; reflexivity|].
    split; [exact Hmin|].
    destruct Hpct as (_ & H0 & H100).
    + exact Hm.
    + split; reflexivity.
    + split; assumption.
Defined.

(** C6 as stated fails.  In a direct call with the negative capacity
    -150000 the week of Scenario A ships 0, -90000, 0, -70000 and the
    percentage is negative.  On the page, with the settings of the sidebar
    and the row 19999999999999999, 0, 0, 0, every input is valid, the total
    demand is positive, the fulfilled quantity of North Diet is -10000 and
    the percentage is negative. *)
Lemma fulfillment_out_of_range :
  (0 < sum_values (row_demand scenario_A_row) /\
   exists out,
     simulate_week negative_capacity_config scenario_A_row
                   (initial_inventory negative_capacity_config) (-150000) = Ok out /\
     out_fulfilled out = mkQuad 0 (-90000) 0 (-70000) /\
     Float.leb (S754_zero false) (out_fulfillment_pct out) = false) /\
  (0 < PLANT_CAPACITY reference_config /\ 0 < TRUCK_SIZE reference_config /\
   Page.int64_row huge_row /\
   (forall k, 0 <= get (row_demand huge_row) k) /\
   0 < sum_values (row_demand huge_row) /\
   exists out,
     Page.simulate_week reference_config huge_row
                        (Page.initial_inventory reference_config)
                        (PLANT_CAPACITY reference_config) = Ok out /\
     Page.values (Page.out_fulfilled out) = mkQuad 0 (-10000) 0 0 /\
     Float.leb (S754_zero false) (Page.out_fulfillment_pct out) = false).
Proof.
  split.
  - split; [reflexivity|]. eexists. split; [vm_compute; reflexivity|].
    split; reflexivity.
  - split; [reflexivity|]. split; [reflexivity|].
    split; [intros []; reflexivity|]. split; [intros []; discriminate|].
    split; [reflexivity|]. eexists. split; [vm_compute; reflexivity|].
    split; reflexivity.
Qed.

(** C7 (as amended).  For a week whose four demand quantities sum to zero
    the division [sum(fulfilled) / sum(demand)] is performed, and no
    sentinel stands in for its result.  In a direct call with Python
    integers the week is never returned: when its allocation succeeds it
    fails with a division by zero, and so does a run that contains it.  On
    the page, where the sums are [numpy.int64], the division leaves a NaN
    or an infinity, which is the fulfillment percentage of the week
    whenever the week is returned; a week of moderate size whose four
    cells are 0 is returned with the percentage NaN, and the loop records
    it and goes on. *)
Theorem no_demand_fails cfg r :
  sum_values (row_demand r) = 0 ->
  ((forall starting_inv capacity,
       raises (simulate_week cfg r starting_inv capacity)) /\
   (forall starting_inv capacity alloc_truck,
       allocate cfg (row_demand r) starting_inv capacity = Ok alloc_truck ->
       simulate_week cfg r starting_inv capacity = Raise ZeroDivisionError) /\
   (forall rows, In r rows -> raises (run cfg rows))) /\
  ((forall inv capacity out,
       Page.simulate_week cfg r inv capacity = Ok out ->
       Page.not_finite (Page.out_fulfillment_pct out)) /\
   (forall inv capacity,
       (forall k, get (row_demand r) k = 0) ->
       moderate_week cfg (row_demand r) inv capacity ->
       exists out, Page.simulate_week cfg r inv capacity = Ok out /\
                   Page.out_fulfillment_pct out = S754_nan) /\
   (forall inv,
       (forall k, get (row_demand r) k = 0) ->
       moderate_week cfg (row_demand r) inv (PLANT_CAPACITY cfg) ->
       exists wr inv', Page.run_week cfg r inv = Ok (wr, inv') /\
                       Page.res_Fulfillment wr = S754_nan)).
Proof.
  intros H. split; [split; [|split]|split; [|split]].
  - intros. apply simulate_week_no_demand. assumption.
  - intros starting_inv capacity alloc_truck Ha.
    unfold allocate in Ha. unfold simulate_week.
    destruct (scale _ capacity) as [alloc|]; [|discriminate]. simpl in *.
    rewrite Ha. simpl. rewrite fulfillment_percentage_zero by assumption. reflexivity.
  - intros rows Hin. unfold run. apply run_from_raises.
    exists r. split; [assumption|]. intros inv'. unfold run_week.
    pose proof (simulate_week_no_demand cfg r inv' (PLANT_CAPACITY cfg) H) as Hr.
    destruct (simulate_week cfg r inv' (PLANT_CAPACITY cfg)); [contradiction|exact I].
  - intros inv capacity out Hout.
    destruct (page_simulate_week_inv cfg _ _ _ _ Hout) as (_ & _ & _ & Hp).
    apply page_percentage_undefined with (row_demand r) (Page.out_fulfilled out);
      assumption.
  - intros inv capacity Hz Hm.
    destruct (page_idle_week cfg r inv capacity Hz Hm) as (out & Hout & Hpct & _).
    exists out. split; assumption.
  - intros inv Hz Hm. apply page_idle_run_week; assumption.
Qed.

Lemma no_demand_fails_witness :
  sum_values (row_demand idle_row) = 0 /\
  raises (run reference_config [scenario_A_row; idle_row; scenario_A_row]) /\
  moderate_week reference_config (row_demand idle_row)
                (Page.initial_inventory reference_config)
                (PLANT_CAPACITY reference_config) /\
  exists wr inv',
    Page.run_week reference_config idle_row (Page.initial_inventory reference_config)
    = Ok (wr, inv') /\
    Page.res_Fulfillment wr = S754_nan.
Proof.
  split; [reflexivity|].
  destruct (no_demand_fails reference_config idle_row) as ((_ & _ & H) & (_ & _ & Hp)).
  - reflexivity.
  - split; [apply H; simpl; tauto|].
    assert (Hm : moderate_week reference_config (row_demand idle_row)
                   (Page.initial_inventory reference_config)
                   (PLANT_CAPACITY reference_config))
      by moderate_by_evaluation.
    split; [exact Hm|]. apply Hp; [intros []; reflexivity|exact Hm].
Defined.

(** C7 as stated fails: the week without demand, under the default
    configuration, divides by zero.  In a direct call the division raises,
    in [simulate_week] and so in the run.  On the page the division of the
    two sums is performed on floats, its result NaN is what the week
    reports, and the run returns a record for the week and for the week
    after it. *)
Lemma no_demand_divides_by_zero :
  sum_values (row_demand idle_row) = 0 /\
  simulate_week reference_config idle_row (initial_inventory reference_config)
                (PLANT_CAPACITY reference_config) = Raise ZeroDivisionError /\
  run reference_config [idle_row] = Raise ZeroDivisionError /\
  Page.truediv (Page.Int64 0) (Page.Int64 0) = Ok S754_nan /\
  (exists out,
      Page.simulate_week reference_config idle_row
                         (Page.initial_inventory reference_config)
                         (PLANT_CAPACITY reference_config) = Ok out /\
      Page.sum_nums (Page.out_fulfilled out) = Ok (Page.Int64 0) /\
      Page.sum_nums (Page.cells (row_demand idle_row)) = Ok (Page.Int64 0) /\
      Page.out_fulfillment_pct out = S754_nan) /\
  (exists wr1 wr2,
      Page.run reference_config [idle_row; scenario_A_row] = Ok [wr1; wr2] /\
      Page.res_Fulfillment wr1 = S754_nan /\
      Page.res_Fulfillment wr2 = Float.hundred).
Proof.
  split; [reflexivity|]. split; [vm_compute; reflexivity|].
  split; [vm_compute; reflexivity|]. split; [reflexivity|]. split.
  - eexists. split; [vm_compute; reflexivity|]. repeat split.
  - eexists. eexists. split; [vm_compute; reflexivity|]. split; reflexivity.
Qed.

(** ** Configurations *)




(** ** Scenario A *)

(** C9.  With capacity 150000, truck size 10000, safety stock 5000, a
    starting inventory at the safety stock for all keys and the demand
    40000, 10000, 30000, 10000, the requirement of every key is its demand,
    the truck totals are 50000 for North and 40000 for South, the shipments
    are the demands, and the fulfillment percentage is 100.0. *)
Theorem scenario_A :
  let demand := row_demand scenario_A_row in
  let starting_inv := initial_inventory reference_config in
  required reference_config demand starting_inv = demand /\
  scale (required reference_config demand starting_inv) 150000 = Ok demand /\
  truck_total reference_config (north_regular demand + north_diet demand) = Ok 50000 /\
  truck_total reference_config (south_regular demand + south_diet demand) = Ok 40000 /\
  exists out,
    simulate_week reference_config scenario_A_row starting_inv 150000 = Ok out /\
    out_alloc_truck out = demand /\
    out_fulfilled out = demand /\
    out_fulfillment_pct out = Float.hundred /\
    Float.of_int 100 = Ok (out_fulfillment_pct out).
Proof.
  split; [reflexivity|]. split; [reflexivity|].
  split; [vm_compute; reflexivity|]. split; [vm_compute; reflexivity|].
  eexists. split; [vm_compute; reflexivity|]. repeat split.
Qed.

(** * Further properties of the engine and of the run *)

(** ** Shipments *)

(** X1.  With a non-negative capacity and a positive truck size no shipment
    is negative: in a direct call with Python integers for every week that
    is allocated, on the page (cells of type [numpy.int64]) for every week
    of moderate size. *)
Theorem shipments_nonnegative cfg demand capacity :
  0 <= capacity -> 0 < TRUCK_SIZE cfg ->
  (forall starting_inv alloc_truck,
      allocate cfg demand starting_inv capacity = Ok alloc_truck ->
      forall k, 0 <= get alloc_truck k) /\
  (forall inv alloc_truck,
      moderate_week cfg demand inv capacity ->
      Page.allocate cfg demand inv capacity = Ok alloc_truck ->
      forall k, 0 <= get alloc_truck k).
Proof.
  intros Hc Hts. split.
  - intros starting_inv alloc_truck H.
    apply allocate_nonneg with cfg demand starting_inv capacity; assumption.
  - intros inv alloc_truck Hm H. rewrite page_allocate in H by assumption.
    apply allocate_nonneg with cfg demand (inventory_values inv) capacity; assumption.
Qed.

Lemma shipments_nonnegative_witness :
  (allocate reference_config (row_demand scenario_B_row)
            (initial_inventory reference_config) 150000
   = Ok (mkQuad 35000 35000 35000 35000) /\
   forall k, 0 <= get (mkQuad 35000 35000 35000 35000) k) /\
  (moderate_week reference_config (row_demand scenario_B_row)
                 (Page.initial_inventory reference_config) 150000 /\
   Page.allocate reference_config (row_demand scenario_B_row)
                 (Page.initial_inventory reference_config) 150000
   = Ok (mkQuad 35000 35000 35000 35000) /\
   forall k, 0 <= get (mkQuad 35000 35000 35000 35000) k).
Proof.
  destruct (shipments_nonnegative reference_config (row_demand scenario_B_row) 150000)
    as [Hdirect Hpage].
  - discriminate.
  - reflexivity.
  - split.
    + split; [vm_compute; reflexivity|].
      apply (Hdirect (initial_inventory reference_config)).
      vm_compute. reflexivity.
    + assert (Hm : moderate_week reference_config (row_demand scenario_B_row)
                     (Page.initial_inventory reference_config) 150000)
        by moderate_by_evaluation.
      split; [exact Hm|]. split; [vm_compute; reflexivity|].
      apply (Hpage (Page.initial_inventory reference_config) _ Hm).
      vm_compute. reflexivity.
Defined.

(** X2.  Of a non-negative truck total each SKU receives between nothing
    and the whole total; of a negative truck total the corrections give
    nothing to Regular and the whole (negative) total to Diet. *)
Theorem split_within_truck_total req_reg req_diet truck_total reg diet :
  split_into_skus req_reg req_diet truck_total = Ok (reg, diet) ->
  (0 <= truck_total -> 0 <= reg <= truck_total /\ 0 <= diet <= truck_total) /\
  (truck_total < 0 -> reg = 0 /\ diet = truck_total).
Proof.
  intros H. pose proof (split_result _ _ _ _ _ H) as ((k & Hk & Hreg) & Hd & Hpos).
  split.
  - intros Ht. specialize (Hpos Ht). lia.
  - intros Ht. unfold split_into_skus in H.
    destruct (Z.eqb_spec truck_total 0) as [|_]; [lia|].
    bind_inv H. bind_inv H. bind_inv H. bind_inv H as n Hn.
    destruct (Z.ltb_spec (truck_total - n * 1000) 0) as [Hlt|Hge].
    + destruct (Z.ltb_spec truck_total 0) as [_|]; [|lia].
      injection H as <- <-. split; lia.
    + destruct (Z.ltb_spec (n * 1000) 0) as [_|]; [|lia].
      injection H as <- <-. split; lia.
Qed.

Lemma split_within_truck_total_witness :
  split_into_skus 51960 49019 100000 = Ok (51000, 49000) /\
  (0 <= 100000 -> 0 <= 51000 <= 100000 /\ 0 <= 49000 <= 100000) /\
  (100000 < 0 -> 51000 = 0 /\ 49000 = 100000).
Proof.
  split; [vm_compute; reflexivity|].
  apply (split_within_truck_total 51960 49019 100000 51000 49000).
  vm_compute. reflexivity.
Defined.

(** X3.  Below [2^53] and with a positive truck size, the truck total of a
    DC is returned, does not exceed the DC total and withholds less than
    one truck; it is the DC total itself when that is a whole number of
    trucks. *)
Theorem truck_total_bounds cfg dc_total :
  0 <= dc_total < 2 ^ 53 -> 0 < TRUCK_SIZE cfg ->
  exists tt, truck_total cfg dc_total = Ok tt /\
             tt <= dc_total < tt + TRUCK_SIZE cfg /\
             (forall n, dc_total = n * TRUCK_SIZE cfg -> tt = dc_total).
Proof.
  intros Hd Hts. rewrite truck_total_exact by assumption.
  eexists. split; [reflexivity|].
  pose proof (Z.div_mod dc_total (TRUCK_SIZE cfg) ltac:(lia)) as Hdm.
  pose proof (Z.mod_pos_bound dc_total (TRUCK_SIZE cfg) Hts) as Hr.
  split; [lia|].
  intros n ->. rewrite Z.div_mul by lia. reflexivity.
Qed.

Lemma truck_total_bounds_witness :
  exists tt, truck_total reference_config 75000 = Ok tt /\
             tt <= 75000 < tt + TRUCK_SIZE reference_config /\
             (forall n, 75000 = n * TRUCK_SIZE reference_config -> tt = 75000).
Proof.
  apply (truck_total_bounds reference_config 75000).
  - split; [discriminate|reflexivity].
  - reflexivity.
Defined.



(** ** Weeks served from stock *)

Lemma int_truediv_zero b : b <> 0 -> exists s, int_truediv 0 b = Ok (S754_zero s).
Proof.
  intros Hb. unfold int_truediv. destruct (Z.eqb_spec b 0) as [|_]; [contradiction|].
  destruct b as [|p|p]; [contradiction| |]; eexists; reflexivity.
Qed.





(** ** Rationing *)

(** X6.  When the requirements exceed a positive capacity, with products
    [required * capacity] below [2^53], no key is allocated more than it
    requires, and the allocations hand out the whole capacity except for at
    most three units. *)
Theorem rationing_bounds (req : dict) capacity :
  (forall k, 0 <= get req k) -> 0 < capacity -> capacity < sum_values req ->
  (forall k, get req k * capacity < 2 ^ 53) ->
  exists alloc,
    scale req capacity = Ok alloc /\
    (forall k, 0 <= get alloc k <= get req k) /\
    capacity - 3 <= sum_values alloc <= capacity.
Proof.
  intros Hreq Hc HT Hb. rewrite scale_exceeded by (auto; lia).
  eexists. split; [reflexivity|].
  set (T := sum_values req) in *.
  assert (HT0 : 0 < T) by lia.
  split.
  - intros k. rewrite get_comprehension. specialize (Hreq k). split.
    + apply Z.div_pos; [apply Z.mul_nonneg_nonneg|]; lia.
    + apply Z.div_le_upper_bound; [assumption|]. nia.
  - split; [|apply floor_shares_le; [assumption|lia|assumption]].
    unfold sum_values at 1.
    cbn [comprehension north_regular north_diet south_regular south_diet].
    pose proof (Z.mod_pos_bound (get req North_Regular * capacity) T HT0) as H1.
    pose proof (Z.mod_pos_bound (get req North_Diet * capacity) T HT0) as H2.
    pose proof (Z.mod_pos_bound (get req South_Regular * capacity) T HT0) as H3.
    pose proof (Z.mod_pos_bound (get req South_Diet * capacity) T HT0) as H4.
    pose proof (Z.div_mod (get req North_Regular * capacity) T ltac:(lia)) as E1.
    pose proof (Z.div_mod (get req North_Diet * capacity) T ltac:(lia)) as E2.
    pose proof (Z.div_mod (get req South_Regular * capacity) T ltac:(lia)) as E3.
    pose proof (Z.div_mod (get req South_Diet * capacity) T ltac:(lia)) as E4.
    set (q1 := get req North_Regular * capacity / T) in *.
    set (q2 := get req North_Diet * capacity / T) in *.
    set (q3 := get req South_Regular * capacity / T) in *.
    set (q4 := get req South_Diet * capacity / T) in *.
    assert (HTC : T * capacity
                  = get req North_Regular * capacity + get req North_Diet * capacity
                    + get req South_Regular * capacity + get req South_Diet * capacity)
      by (unfold T; rewrite sum_values_get; ring).
    assert (H5 : T * (capacity - 4) < T * (q1 + q2 + q3 + q4)).
    { rewrite Z.mul_sub_distr_l, !Z.mul_add_distr_l. lia. }
    apply Z.mul_lt_mono_pos_l in H5; [lia|assumption].
Qed.

Lemma rationing_bounds_witness :
  exists alloc,
    scale (mkQuad 53000 50000 0 50000) 150000 = Ok alloc /\
    (forall k, 0 <= get alloc k <= get (mkQuad 53000 50000 0 50000) k) /\
    150000 - 3 <= sum_values alloc <= 150000.
Proof.
  apply (rationing_bounds (mkQuad 53000 50000 0 50000) 150000).
  - intros []; discriminate.
  - reflexivity.
  - reflexivity.
  - intros []; reflexivity.
Defined.

(** ** Fulfillment *)

Lemma int_truediv_self d :
  0 < d -> int_truediv d d = Ok (S754_finite false (2 ^ 52) (-52)).
Proof.
  intros Hd. unfold int_truediv. destruct (Z.eqb_spec d 0) as [|_]; [lia|].
  destruct (div_int_rounded d d Hd Hd ltac:(lia)) as (k & Hk & HM & Hcase & ->).
  pose proof (pow2_gt0 k ltac:(lia)) as Hpk.
  replace (d * 2 ^ k) with (2 ^ k * d) in * by ring.
  rewrite rne_div_exact in * by assumption.
  rewrite Z.div_mul in Hcase by lia.
  assert (Hk' : k = 52 \/ k = 53).
  { assert (k <= 53).
    { destruct (Z_le_gt_dec k 53); [assumption|exfalso].
      assert (2 ^ 53 < 2 ^ k) by (apply Z.pow_lt_mono_r; lia). lia. }
    assert (52 <= k); [|lia].
    destruct Hcase as [|Hc]; [lia|].
    destruct (Z_le_gt_dec 52 k); [assumption|exfalso].
    assert (2 ^ k < 2 ^ 52) by (apply Z.pow_lt_mono_r; lia). lia. }
  destruct Hk' as [-> | ->]; reflexivity.
Qed.



(** ** A DC that asks for one SKU only *)

Lemma split_no_regular req_diet truck_total :
  0 < req_diet -> 0 <= truck_total < 2 ^ 53 ->
  split_into_skus 0 req_diet truck_total = Ok (0, truck_total).
Proof.
  intros Hd Ht. unfold split_into_skus.
  destruct (Z.eqb_spec truck_total 0) as [->|Hne]; [reflexivity|].
  unfold regular_share. change (0 + req_diet) with req_diet.
  destruct (Z.ltb_spec 0 req_diet) as [_|]; [|lia].
  destruct (int_truediv_zero req_diet ltac:(lia)) as (s & ->). cbn [bind].
  unfold mul_int. destruct (of_int_finite truck_total Ht) as (ft & -> & Hft & Hnn).
  cbn [bind].
  assert (Hx : exists s', mul (S754_zero s) ft = S754_zero s').
  { destruct ft; try contradiction; eexists; reflexivity. }
  destruct Hx as (s' & ->).
  unfold truediv_int. rewrite of_int_1000. cbn [bind].
  change (is_zero thousand) with false. cbv iota. cbn [bind].
  change (round (div (S754_zero s') thousand)) with (@Ok Z 0). cbn [bind].
  change (0 * 1000) with 0. rewrite Z.sub_0_r.
  destruct (Z.ltb_spec truck_total 0) as [|_]; [lia|].
  change (0 <? 0) with false. cbv iota.
  change (0 / 1000 * 1000) with 0. rewrite Z.sub_0_r. reflexivity.
Qed.

(** X8.  When the Regular allocation of a DC is zero and its Diet
    allocation positive, the whole truck total (below [2^53]) is shipped as
    Diet. *)
Theorem diet_only_split req_diet truck_total :
  0 < req_diet -> 0 <= truck_total < 2 ^ 53 ->
  split_into_skus 0 req_diet truck_total = Ok (0, truck_total).
Proof. exact (split_no_regular req_diet truck_total). Qed.


Lemma diet_only_split_witness :
  split_into_skus 0 25000 20000 = Ok (0, 20000).
Proof.
  apply (diet_only_split 25000 20000).
  - reflexivity.
  - split; [discriminate|reflexivity].
Defined.

(** ** The run *)

Lemma run_week_inv cfg r inv wr inv' :
  run_week cfg r inv = Ok (wr, inv') ->
  exists out u,
    simulate_week cfg r inv (PLANT_CAPACITY cfg) = Ok out /\
    inv' = full (out_ending_inv out) /\
    res_Week wr = Week r /\
    res_shipments wr = out_alloc_truck out /\
    res_Total_Production wr = sum_values (out_alloc_truck out) /\
    res_Total_Demand wr = sum_values (row_demand r) /\
    int_truediv (sum_values (out_alloc_truck out)) (PLANT_CAPACITY cfg) = Ok u /\
    mul_int u 100 = Ok (res_Capacity_Utilization wr).
Proof.
  unfold run_week. intros H.
  bind_inv H as out Hout. bind_inv H as u Hu. bind_inv H as util Hutil.
  bind_inv H as tn Htn. bind_inv H as ts Hts. injection H as <- <-.
  exists out, u.
  cbn [res_Week res_shipments res_Total_Production res_Total_Demand
       res_Capacity_Utilization].
  auto 10.
Qed.

(** The records already appended play no part in the weeks to come. *)
Lemma run_from_shift cfg rows : forall inv acc,
  run_from cfg rows inv acc
  = match run_from cfg rows inv [] with
    | Ok new => Ok (acc ++ new)
    | Raise e => Raise e
    end.
Proof.
  induction rows as [|r rest IH]; intros inv acc; cbn [run_from].
  - rewrite app_nil_r. reflexivity.
  - destruct (run_week cfg r inv) as [[wr inv']|e]; cbn [bind]; [|reflexivity].
    rewrite (IH inv' (acc ++ [wr])), (IH inv' ([] ++ [wr])).
    destruct (run_from cfg rest inv' []) as [new|e]; [|reflexivity].
    rewrite <- app_assoc. reflexivity.
Qed.

Lemma run_from_weeks cfg rows : forall inv res,
  run_from cfg rows inv [] = Ok res -> map res_Week res = map Week rows.
Proof.
  induction rows as [|r rest IH]; intros inv res H; cbn [run_from] in H.
  - injection H as <-. reflexivity.
  - bind_inv H as [wr inv'] Hw. rewrite run_from_shift in H.
    destruct (run_from cfg rest inv' []) as [new|e] eqn:E; [|discriminate].
    injection H as <-. cbn [app map]. rewrite (IH _ _ E).
    destruct (run_week_inv _ _ _ _ _ Hw) as (out & u & _ & _ & -> & _).
    reflexivity.
Qed.

Lemma run_from_app cfg rows1 rows2 : forall inv acc res,
  run_from cfg (rows1 ++ rows2) inv acc = Ok res ->
  exists res1 inv1,
    run_from cfg rows1 inv acc = Ok res1 /\ run_from cfg rows2 inv1 res1 = Ok res.
Proof.
  induction rows1 as [|r rest IH]; intros inv acc res H.
  - exists acc, inv. split; [reflexivity|assumption].
  - cbn [app run_from] in *. bind_inv H as [wr inv'] Hw. rewrite Hw. cbn [bind].
    apply IH. assumption.
Qed.

(** X9.  A run that returns has one record per week, in the order of the
    weeks. *)
Theorem run_one_record_per_week cfg rows res :
  run cfg rows = Ok res ->
  map res_Week res = map Week rows /\ length res = length rows.
Proof.
  intros H. apply run_from_weeks in H. split; [assumption|].
  rewrite <- (length_map res_Week), H, length_map. reflexivity.
Qed.

Lemma run_one_record_per_week_witness :
  exists res,
    run reference_config [scenario_A_row; scenario_B_row] = Ok res /\
    map res_Week res = map Week [scenario_A_row; scenario_B_row] /\
    length res = length [scenario_A_row; scenario_B_row].
Proof.
  eexists. split; [vm_compute; reflexivity|].
  apply (run_one_record_per_week reference_config [scenario_A_row; scenario_B_row]).
  vm_compute. reflexivity.
Defined.

(** X10.  The records of the first weeks do not depend on the weeks that
    follow: a run over [rows1 ++ rows2] that returns starts with the records
    of the run over [rows1]; hence when the run over [rows1] fails, so does
    every run that continues it. *)
Theorem run_prefix cfg rows1 rows2 :
  (forall res,
      run cfg (rows1 ++ rows2) = Ok res ->
      exists res1 res2,
        run cfg rows1 = Ok res1 /\ res = res1 ++ res2 /\
        map res_Week res2 = map Week rows2) /\
  (raises (run cfg rows1) -> raises (run cfg (rows1 ++ rows2))).
Proof.
  assert (Hpre : forall res,
             run cfg (rows1 ++ rows2) = Ok res ->
             exists res1 res2,
               run cfg rows1 = Ok res1 /\ res = res1 ++ res2 /\
               map res_Week res2 = map Week rows2).
  { intros res H. unfold run in *.
    destruct (run_from_app _ _ _ _ _ _ H) as (res1 & inv1 & H1 & H2).
    rewrite run_from_shift in H2.
    destruct (run_from cfg rows2 inv1 []) as [new|e] eqn:E; [|discriminate].
    injection H2 as <-. exists res1, new.
    split; [assumption|]. split; [reflexivity|].
    apply (run_from_weeks cfg rows2 inv1 new E). }
  split; [assumption|].
  intros Hr. destruct (run cfg (rows1 ++ rows2)) as [res|e] eqn:E; [|exact I].
  destruct (Hpre res eq_refl) as (res1 & _ & H1 & _).
  rewrite H1 in Hr. contradiction.
Qed.

Lemma run_prefix_witness :
  (exists res res1 res2,
      run reference_config ([scenario_A_row] ++ [scenario_B_row]) = Ok res /\
      run reference_config [scenario_A_row] = Ok res1 /\ res = res1 ++ res2 /\
      map res_Week res2 = map Week [scenario_B_row]) /\
  raises (run reference_config [idle_row]) /\
  raises (run reference_config ([idle_row] ++ [scenario_A_row])).
Proof.
  destruct (run_prefix reference_config [scenario_A_row] [scenario_B_row]) as [H _].
  destruct (run_prefix reference_config [idle_row] [scenario_A_row]) as [_ H'].
  split.
  - destruct (run reference_config ([scenario_A_row] ++ [scenario_B_row])) as [res|e] eqn:E.
    + destruct (H res eq_refl) as (res1 & res2 & H1 & H2 & H3).
      exists res, res1, res2. auto.
    + exfalso. vm_compute in E. discriminate.
  - split; [exact I|]. apply H'. exact I.
Defined.

(** X11.  In a week of the run with a positive capacity and a positive truck
    size, and requirements below [2^53] (with products below [2^53] when they
    exceed the capacity), the total production reported is between 0 and the
    capacity, and the capacity utilization between 0.0 and 100.0. *)
Theorem utilization_bounds cfg r inv wr inv' :
  0 < PLANT_CAPACITY cfg -> 0 < TRUCK_SIZE cfg ->
  sum_values (required cfg (row_demand r) inv) < 2 ^ 53 ->
  (PLANT_CAPACITY cfg < sum_values (required cfg (row_demand r) inv) ->
   forall k, get (required cfg (row_demand r) inv) k * PLANT_CAPACITY cfg < 2 ^ 53) ->
  run_week cfg r inv = Ok (wr, inv') ->
  0 <= res_Total_Production wr <= PLANT_CAPACITY cfg /\
  leb (S754_zero false) (res_Capacity_Utilization wr) = true /\
  leb (res_Capacity_Utilization wr) hundred = true.
Proof.
  intros Hc Hts HT Hb H.
  destruct (run_week_inv _ _ _ _ _ H) as (out & u & Hout & _ & _ & _ & -> & _ & Hu & Hutil).
  destruct (simulate_week_inv cfg _ _ _ _ Hout) as (Ha & _).
  destruct (allocate_returns cfg (row_demand r) inv (PLANT_CAPACITY cfg) Hc Hts HT Hb)
    as (s & Hs & Hle).
  rewrite Ha in Hs. injection Hs as <-.
  pose proof (allocate_nonneg cfg _ _ _ _ (Z.lt_le_incl _ _ Hc) Hts Ha) as Hnn.
  assert (H0 : 0 <= sum_values (out_alloc_truck out)).
  { rewrite sum_values_get.
    pose proof (Hnn North_Regular). pose proof (Hnn North_Diet).
    pose proof (Hnn South_Regular). pose proof (Hnn South_Diet). lia. }
  split; [lia|].
  destruct (int_truediv_le _ _ (conj H0 Hle) Hc) as (q & Hq & Hq1).
  rewrite Hu in Hq. injection Hq as <-.
  destruct (mul_hundred_bounds u Hq1) as (p & Hp & Hp0 & Hp100).
  rewrite Hutil in Hp. injection Hp as <-. split; assumption.
Qed.

Lemma utilization_bounds_witness :
  exists wr inv',
    run_week reference_config scenario_B_row (initial_inventory reference_config)
    = Ok (wr, inv') /\
    res_Total_Production wr = 140000 /\
    0 <= res_Total_Production wr <= PLANT_CAPACITY reference_config /\
    leb (S754_zero false) (res_Capacity_Utilization wr) = true /\
    leb (res_Capacity_Utilization wr) hundred = true.
Proof.
  eexists. eexists. split; [vm_compute; reflexivity|]. split; [reflexivity|].
  eapply (utilization_bounds reference_config scenario_B_row
            (initial_inventory reference_config)).
  - reflexivity.
  - reflexivity.
  - reflexivity.
  - intros _ []; reflexivity.
  - vm_compute. reflexivity.
Defined.

(** ** The inventory chart *)

Lemma inventory_records_shift cfg rows : forall inv acc,
  inventory_records_from cfg rows inv acc
  = match inventory_records_from cfg rows inv [] with
    | Ok new => Ok (acc ++ new)
    | Raise e => Raise e
    end.
Proof.
  induction rows as [|r rest IH]; intros inv acc; cbn [inventory_records_from].
  - rewrite app_nil_r. reflexivity.
  - destruct (simulate_week cfg r inv (PLANT_CAPACITY cfg)) as [out|e]; cbn [bind];
      [|reflexivity].
    set (inv' := full (out_ending_inv out)).
    set (rec := mkInventoryRecord (Week r) (out_ending_inv out)).
    rewrite (IH inv' (acc ++ [rec])), (IH inv' ([] ++ [rec])).
    destruct (inventory_records_from cfg rest inv' []) as [new|e]; [|reflexivity].
    rewrite <- app_assoc. reflexivity.
Qed.

Lemma inventory_records_of_run cfg rows : forall inv res,
  run_from cfg rows inv [] = Ok res ->
  exists recs,
    inventory_records_from cfg rows inv [] = Ok recs /\
    map inv_Week recs = map Week rows /\
    Forall (fun rec => forall k, 0 <= get (inv_levels rec) k) recs.
Proof.
  induction rows as [|r rest IH]; intros inv res H; cbn [run_from] in H.
  - exists []. repeat split. constructor.
  - bind_inv H as [wr inv'] Hw. rewrite run_from_shift in H.
    destruct (run_from cfg rest inv' []) as [new|e] eqn:E; [|discriminate].
    destruct (run_week_inv _ _ _ _ _ Hw) as (out & u & Hout & -> & _).
    destruct (IH _ _ E) as (recs & Hrecs & Hweeks & Hall).
    cbn [inventory_records_from]. rewrite Hout. cbn [bind].
    rewrite inventory_records_shift, Hrecs.
    eexists. split; [reflexivity|]. cbn [app map inv_Week]. split.
    + rewrite Hweeks. reflexivity.
    + constructor; [|assumption]. intros k. cbn [inv_levels].
      destruct (simulate_week_inv cfg _ _ _ _ Hout) as (_ & -> & _).
      unfold ending_inventory. rewrite get_comprehension. apply Z.le_max_l.
Qed.

(** X12.  When the run returns, the second simulation that feeds the
    inventory chart returns too, with one record per week in the order of
    the weeks, and no inventory level in it is negative. *)
Theorem inventory_chart_of_run cfg rows res :
  run cfg rows = Ok res ->
  exists recs,
    inventory_records cfg rows = Ok recs /\
    map inv_Week recs = map Week rows /\
    Forall (fun rec => forall k, 0 <= get (inv_levels rec) k) recs.
Proof. apply inventory_records_of_run. Qed.

Lemma inventory_chart_of_run_witness :
  exists recs,
    inventory_records reference_config [scenario_B_row; scenario_A_row] = Ok recs /\
    map inv_Week recs = map Week [scenario_B_row; scenario_A_row] /\
    Forall (fun rec => forall k, 0 <= get (inv_levels rec) k) recs.
Proof.
  eapply (inventory_chart_of_run reference_config [scenario_B_row; scenario_A_row]).
  vm_compute. reflexivity.
Defined.

(** ** Exact cases *)

(** X13.  When the Diet allocation of a DC is zero and its Regular
    allocation positive, a truck total that is a multiple of 1000 (below
    [2^53]) is shipped whole as Regular. *)
Theorem regular_only_split req_reg q :
  0 < req_reg -> 0 <= q -> 1000 * q < 2 ^ 53 ->
  split_into_skus req_reg 0 (1000 * q) = Ok (1000 * q, 0).
Proof.
  intros Hr Hq Hb. unfold split_into_skus.
  destruct (Z.eqb_spec (1000 * q) 0) as [E|Hne]; [rewrite E; reflexivity|].
  unfold regular_share. rewrite Z.add_0_r.
  destruct (Z.ltb_spec 0 req_reg) as [_|]; [|lia].
  rewrite int_truediv_self by assumption. cbn [bind]. fold one.
  unfold mul_int. rewrite of_int_exact by lia. cbn [bind].
  rewrite mul_one_exact by lia.
  unfold truediv_int. rewrite of_int_1000. cbn [bind].
  change (is_zero thousand) with false. cbv iota. cbn [bind].
  rewrite div_thousand_exact by assumption.
  rewrite round_exact by lia. cbn [bind].
  replace (1000 * q - q * 1000) with 0 by lia.
  change (0 <? 0) with false. cbv iota.
  destruct (Z.ltb_spec (q * 1000) 0) as [|_]; [lia|].
  rewrite Z.div_mul by lia. f_equal. f_equal; lia.
Qed.

Lemma regular_only_split_witness :
  split_into_skus 20000 0 (1000 * 20) = Ok (1000 * 20, 0).
Proof.
  apply (regular_only_split 20000 20).
  - reflexivity.
  - discriminate.
  - reflexivity.
Defined.

Lemma run_week_trucks cfg r inv wr inv' :
  run_week cfg r inv = Ok (wr, inv') ->
  exists out tn ts,
    simulate_week cfg r inv (PLANT_CAPACITY cfg) = Ok out /\
    res_shipments wr = out_alloc_truck out /\
    int_truediv (north_regular (out_alloc_truck out) + north_diet (out_alloc_truck out))
                (TRUCK_SIZE cfg) = Ok tn /\
    int_truediv (south_regular (out_alloc_truck out) + south_diet (out_alloc_truck out))
                (TRUCK_SIZE cfg) = Ok ts /\
    res_Trucks_Used wr = add tn ts.
Proof.
  unfold run_week. intros H.
  bind_inv H as out Hout. bind_inv H as u Hu. bind_inv H as util Hutil.
  bind_inv H as tn Htn. bind_inv H as ts Hts. injection H as <- <-.
  exists out, tn, ts. cbn [res_shipments res_Trucks_Used]. auto 10.
Qed.

Lemma page_run_week_trucks cfg r inv wr inv' :
  Page.run_week cfg r inv = Ok (wr, inv') ->
  exists out tn ts,
    Page.simulate_week cfg r inv (PLANT_CAPACITY cfg) = Ok out /\
    Page.res_shipments wr = Page.out_alloc_truck out /\
    int_truediv (north_regular (Page.out_alloc_truck out)
                 + north_diet (Page.out_alloc_truck out)) (TRUCK_SIZE cfg) = Ok tn /\
    int_truediv (south_regular (Page.out_alloc_truck out)
                 + south_diet (Page.out_alloc_truck out)) (TRUCK_SIZE cfg) = Ok ts /\
    Page.res_Trucks_Used wr = add tn ts.
Proof.
  unfold Page.run_week. intros H.
  bind_inv H as out Hout. bind_inv H as d Hd. bind_inv H as u Hu.
  bind_inv H as util Hutil. bind_inv H as tn Htn. bind_inv H as ts Hts.
  injection H as <- <-. exists out, tn, ts.
  cbn [Page.res_shipments Page.res_Trucks_Used]. auto 10.
Qed.

(** The trucks of the shipments of a week. *)
Lemma trucks_whole cfg demand starting_inv (s : dict) tn ts :
  0 <= PLANT_CAPACITY cfg -> 0 < TRUCK_SIZE cfg ->
  allocate cfg demand starting_inv (PLANT_CAPACITY cfg) = Ok s ->
  sum_values s < 2 ^ 53 ->
  int_truediv (north_regular s + north_diet s) (TRUCK_SIZE cfg) = Ok tn ->
  int_truediv (south_regular s + south_diet s) (TRUCK_SIZE cfg) = Ok ts ->
  exists n1 n2,
    0 <= n1 /\ 0 <= n2 /\
    north_regular s + north_diet s = n1 * TRUCK_SIZE cfg /\
    south_regular s + south_diet s = n2 * TRUCK_SIZE cfg /\
    of_int (n1 + n2) = Ok (add tn ts).
Proof.
  intros Hc Hts Ha Hb Htn Htsn.
  destruct (allocate_inv cfg _ _ _ _ Ha) as (alloc & Hsc & Hship).
  assert (Hnn : forall k, 0 <= get alloc k).
  { apply scale_nonneg with (2 := Hc) (3 := Hsc). intros k. apply required_nonneg. }
  pose proof (Hnn North_Regular). pose proof (Hnn North_Diet).
  pose proof (Hnn South_Regular). pose proof (Hnn South_Diet). cbn [get] in *.
  destruct (ship_dc_totals cfg alloc _ Hship) as [Hn Hs].
  apply truck_total_nonneg in Hn; [|lia|assumption].
  apply truck_total_nonneg in Hs; [|lia|assumption].
  destruct Hn as (n1 & Hn1 & En1), Hs as (n2 & Hn2 & En2).
  unfold sum_values in Hb. rewrite En1 in Htn. rewrite En2 in Htsn.
  assert (Hb1 : n1 * TRUCK_SIZE cfg < 2 ^ 53) by lia.
  assert (Hb2 : n2 * TRUCK_SIZE cfg < 2 ^ 53) by lia.
  rewrite int_truediv_exact in Htn, Htsn by assumption.
  injection Htn as <-. injection Htsn as <-.
  exists n1, n2. repeat (split; [assumption|]).
  assert (n1 + n2 < 2 ^ 53) by nia.
  rewrite add_exact by assumption. apply of_int_exact. lia.
Qed.

(** X14.  In a week of the run with a non-negative capacity and a positive
    truck size, whose shipments total less than [2^53], the number of trucks
    reported is the float of a whole number, the trucks sent North plus the
    trucks sent South: in a direct call with Python integers for every such
    week, on the page (cells of type [numpy.int64]) for every week of
    moderate size. *)
Theorem trucks_used_whole cfg r :
  0 <= PLANT_CAPACITY cfg -> 0 < TRUCK_SIZE cfg ->
  (forall inv wr inv',
      run_week cfg r inv = Ok (wr, inv') ->
      sum_values (res_shipments wr) < 2 ^ 53 ->
      exists n1 n2,
        0 <= n1 /\ 0 <= n2 /\
        north_regular (res_shipments wr) + north_diet (res_shipments wr)
        = n1 * TRUCK_SIZE cfg /\
        south_regular (res_shipments wr) + south_diet (res_shipments wr)
        = n2 * TRUCK_SIZE cfg /\
        of_int (n1 + n2) = Ok (res_Trucks_Used wr)) /\
  (forall inv wr inv',
      moderate_week cfg (row_demand r) inv (PLANT_CAPACITY cfg) ->
      Page.run_week cfg r inv = Ok (wr, inv') ->
      exists n1 n2,
        0 <= n1 /\ 0 <= n2 /\
        north_regular (Page.res_shipments wr) + north_diet (Page.res_shipments wr)
        = n1 * TRUCK_SIZE cfg /\
        south_regular (Page.res_shipments wr) + south_diet (Page.res_shipments wr)
        = n2 * TRUCK_SIZE cfg /\
        of_int (n1 + n2) = Ok (Page.res_Trucks_Used wr)).
Proof.
  intros Hc Hts. split.
  - intros inv wr inv' H Hb.
    destruct (run_week_trucks _ _ _ _ _ H)
      as (out & tn & ts & Hout & Hs & Htn & Htsn & ->).
    rewrite Hs in *. clear Hs.
    destruct (simulate_week_inv cfg _ _ _ _ Hout) as (Ha & _).
    exact (trucks_whole cfg _ _ _ tn ts Hc Hts Ha Hb Htn Htsn).
  - intros inv wr inv' Hm H.
    destruct (page_run_week_trucks _ _ _ _ _ H)
      as (out & tn & ts & Hout & Hs & Htn & Htsn & ->).
    rewrite Hs in *. clear Hs.
    destruct (page_simulate_week_inv cfg _ _ _ _ Hout) as (Ha & _).
    destruct (page_shipments cfg _ _ _ Hm) as (s & Hs & _ & _ & Hb).
    assert (s = Page.out_alloc_truck out) by congruence. subst s.
    rewrite page_allocate in Ha by assumption.
    exact (trucks_whole cfg _ _ _ tn ts Hc Hts Ha Hb Htn Htsn).
Qed.

Lemma trucks_used_whole_witness :
  (exists wr inv',
      run_week reference_config scenario_B_row (initial_inventory reference_config)
      = Ok (wr, inv') /\
      res_shipments wr = mkQuad 35000 35000 35000 35000 /\
      exists n1 n2,
        0 <= n1 /\ 0 <= n2 /\
        north_regular (res_shipments wr) + north_diet (res_shipments wr)
        = n1 * TRUCK_SIZE reference_config /\
        south_regular (res_shipments wr) + south_diet (res_shipments wr)
        = n2 * TRUCK_SIZE reference_config /\
        of_int (n1 + n2) = Ok (res_Trucks_Used wr)) /\
  (exists wr inv',
      moderate_week reference_config (row_demand scenario_B_row)
                    (Page.initial_inventory reference_config)
                    (PLANT_CAPACITY reference_config) /\
      Page.run_week reference_config scenario_B_row
                    (Page.initial_inventory reference_config)
      = Ok (wr, inv') /\
      Page.res_shipments wr = mkQuad 35000 35000 35000 35000 /\
      exists n1 n2,
        0 <= n1 /\ 0 <= n2 /\
        north_regular (Page.res_shipments wr) + north_diet (Page.res_shipments wr)
        = n1 * TRUCK_SIZE reference_config /\
        south_regular (Page.res_shipments wr) + south_diet (Page.res_shipments wr)
        = n2 * TRUCK_SIZE reference_config /\
        of_int (n1 + n2) = Ok (Page.res_Trucks_Used wr)).
Proof.
  destruct (trucks_used_whole reference_config scenario_B_row) as [Hdirect Hpage].
  - discriminate.
  - reflexivity.
  - split.
    + eexists. eexists. split; [vm_compute; reflexivity|]. split; [reflexivity|].
      eapply (Hdirect (initial_inventory reference_config)).
      * vm_compute. reflexivity.
      * reflexivity.
    + assert (Hm : moderate_week reference_config (row_demand scenario_B_row)
                     (Page.initial_inventory reference_config)
                     (PLANT_CAPACITY reference_config))
        by moderate_by_evaluation.
      eexists. eexists. split; [exact Hm|]. split; [vm_compute; reflexivity|].
      split; [reflexivity|].
      eapply (Hpage (Page.initial_inventory reference_config) _ _ Hm).
      vm_compute. reflexivity.
Defined.

(** ** Quantities on the grid *)

(** The float share, product and quotient round to the Regular allocation
    itself when it is a multiple of 1000 and the truck total the sum of the
    two allocations. *)
Lemma split_on_grid r req_diet :
  0 <= r -> 0 <= req_diet -> 1000 * r + req_diet < 2 ^ 52 ->
  split_into_skus (1000 * r) req_diet (1000 * r + req_diet)
  = Ok (1000 * r, req_diet).
Proof.
  intros Hr Hd Hb.
  destruct (Z.eq_dec r 0) as [->|Hr0].
  { change (1000 * 0) with 0. rewrite Z.add_0_l.
    destruct (Z.eq_dec req_diet 0) as [->|Hd0]; [reflexivity|].
    apply split_no_regular; lia. }
  set (R := 1000 * r) in *. set (T := R + req_diet) in *.
  unfold split_into_skus.
  destruct (Z.eqb_spec T 0) as [|_]; [unfold T, R in *; lia|].
  unfold regular_share. fold T.
  destruct (Z.ltb_spec 0 T) as [_|]; [|unfold T, R in *; lia].
  destruct (int_truediv_between R T) as (sh & -> & Hsh);
    [unfold T, R in *; lia|assumption|].
  cbn [bind]. unfold mul_int. rewrite of_int_exact by (unfold T, R in *; lia).
  cbn [bind].
  assert (Hx : value_between (R - 1) (R + 1) 1 (mul sh (exact T))).
  { apply mul_between with (2 * R - 1) (2 * R + 1) (2 * T); try assumption;
      unfold T, R in *; nia. }
  unfold truediv_int. rewrite of_int_1000. cbn [bind].
  change (is_zero thousand) with false. cbv iota. cbn [bind].
  assert (Hy : value_between (4 * r - 1) (4 * r + 1) 4 (div (mul sh (exact T)) thousand)).
  { apply div_thousand_between with (R - 1) (R + 1); try assumption;
      unfold T, R in *; lia. }
  rewrite (round_between r _ Hy). cbn [bind].
  replace (T - r * 1000) with req_diet by (unfold T, R; lia).
  destruct (Z.ltb_spec req_diet 0) as [|_]; [lia|].
  destruct (Z.ltb_spec (r * 1000) 0) as [|_]; [lia|].
  rewrite Z.div_mul by lia. f_equal. f_equal; unfold T, R; lia.
Qed.

(** X15.  The helper gives a DC back its two allocations when the truck
    total is their sum and the Regular allocation a multiple of 1000
    (total below [2^52]): nothing is moved between the SKUs. *)
Theorem on_grid_split req_reg req_diet :
  0 <= req_reg -> 0 <= req_diet -> (1000 | req_reg) ->
  req_reg + req_diet < 2 ^ 52 ->
  split_into_skus req_reg req_diet (req_reg + req_diet) = Ok (req_reg, req_diet).
Proof.
  intros Hr Hd [r ->] Hb. rewrite (Z.mul_comm r).
  apply split_on_grid; lia.
Qed.

Lemma on_grid_split_witness :
  split_into_skus 33000 7000 (33000 + 7000) = Ok (33000, 7000).
Proof.
  apply (on_grid_split 33000 7000).
  - discriminate.
  - discriminate.
  - exists 33. reflexivity.
  - reflexivity.
Defined.

Lemma divide_grid t x : 0 < t -> (t | x) -> x / t * t = x.
Proof. intros Ht [z ->]. rewrite Z.div_mul by lia. reflexivity. Qed.

(** Quantities on the grid pass the truck constraint unchanged. *)
Lemma on_grid_ship cfg d :
  0 < TRUCK_SIZE cfg -> on_grid cfg d -> ship cfg d = Ok d.
Proof.
  intros Hts (Hnn & [a Ha] & [c Hc] & Hn & Hs & Hb).
  pose proof (Hnn North_Regular). pose proof (Hnn North_Diet).
  pose proof (Hnn South_Regular). pose proof (Hnn South_Diet).
  rewrite sum_values_get in Hb. cbn [get] in *.
  unfold ship. rewrite !truck_total_exact by lia. cbn [bind].
  rewrite !divide_grid by assumption.
  rewrite Ha, Hc. rewrite (Z.mul_comm a), (Z.mul_comm c).
  rewrite !split_on_grid by lia. cbn [bind].
  destruct d as [nr nd sr sd]. cbn [north_regular north_diet south_regular south_diet] in *.
  rewrite Ha, Hc, (Z.mul_comm a), (Z.mul_comm c). reflexivity.
Qed.

(** X16.  The truck constraint is idempotent: shipments that come out of it
    (from allocations that are not negative and total less than [2^52], with
    a positive truck size) pass through it unchanged. *)
Theorem ship_idempotent cfg alloc s :
  0 < TRUCK_SIZE cfg -> (forall k, 0 <= get alloc k) ->
  sum_values alloc < 2 ^ 52 ->
  ship cfg alloc = Ok s -> ship cfg s = Ok s.
Proof.
  intros Hts Hnn Hb H. apply on_grid_ship; [assumption|].
  destruct (ship_inv cfg alloc s H) as (tn & ts & _ & _ & Hsn & Hss).
  apply split_result in Hsn. apply split_result in Hss.
  destruct Hsn as ((k1 & _ & E1) & _), Hss as ((k2 & _ & E2) & _).
  destruct (ship_dc_totals cfg alloc s H) as [Hn Hs].
  apply truck_total_multiple in Hn. apply truck_total_multiple in Hs.
  pose proof (ship_le_alloc cfg alloc s Hnn Hts ltac:(lia) H) as Hle.
  repeat split.
  - apply ship_nonneg with (cfg := cfg) (alloc := alloc); assumption.
  - exists k1. assumption.
  - exists k2. assumption.
  - destruct Hn as [n ->]. exists n. reflexivity.
  - destruct Hs as [n ->]. exists n. reflexivity.
  - lia.
Qed.

Lemma ship_idempotent_witness :
  ship reference_config ragged_alloc = Ok (mkQuad 26000 14000 16000 4000) /\
  ship reference_config (mkQuad 26000 14000 16000 4000)
  = Ok (mkQuad 26000 14000 16000 4000).
Proof.
  assert (H : ship reference_config ragged_alloc = Ok (mkQuad 26000 14000 16000 4000))
    by (vm_compute; reflexivity).
  split; [exact H|].
  apply (ship_idempotent reference_config ragged_alloc).
  - reflexivity.
  - intros []; discriminate.
  - reflexivity.
  - exact H.
Defined.

(** ** Weeks that ship their whole requirement *)

Lemma fulfillment_percentage_returns (demand s : dict) :
  (forall k, 0 <= get demand k) -> (forall k, 0 <= get s k) ->
  0 < sum_values demand ->
  exists p, fulfillment_percentage demand (fulfilled_quantities demand s) = Ok p.
Proof.
  intros Hd Hs HD. unfold fulfillment_percentage.
  pose proof (fulfilled_bounds demand s Hd Hs) as Hf.
  destruct (int_truediv_le _ _ Hf HD) as (q & -> & Hq). cbn [bind].
  destruct (mul_hundred_bounds q Hq) as (p & -> & _). eauto.
Qed.

(** X17.  A week whose requirement is on the grid, within the capacity, and
    nowhere cut off at zero (no inventory above demand plus safety stock)
    ships exactly its requirement and ends with the safety stock on every
    key. *)
Theorem restock_to_safety_stock cfg r starting_inv capacity :
  0 < TRUCK_SIZE cfg -> 0 <= SAFETY_STOCK cfg ->
  on_grid cfg (required cfg (row_demand r) starting_inv) ->
  sum_values (required cfg (row_demand r) starting_inv) <= capacity ->
  (forall k, get_default starting_inv k (SAFETY_STOCK cfg)
             <= get (row_demand r) k + SAFETY_STOCK cfg) ->
  (forall k, 0 <= get (row_demand r) k) -> 0 < sum_values (row_demand r) ->
  exists out,
    simulate_week cfg r starting_inv capacity = Ok out /\
    out_alloc_truck out = required cfg (row_demand r) starting_inv /\
    forall k, get (out_ending_inv out) k = SAFETY_STOCK cfg.
Proof.
  intros Hts Hss Hg Hc Hinv Hd HD.
  unfold simulate_week. rewrite scale_within by assumption. cbn [bind].
  rewrite on_grid_ship by assumption. cbn [bind].
  destruct (fulfillment_percentage_returns (row_demand r)
              (required cfg (row_demand r) starting_inv) Hd
              (fun k => required_nonneg cfg _ _ k) HD) as (p & ->).
  cbn [bind]. eexists. split; [reflexivity|].
  cbn [out_alloc_truck out_ending_inv]. split; [reflexivity|].
  intros k. unfold ending_inventory, required. rewrite !get_comprehension.
  specialize (Hinv k). lia.
Qed.

Lemma restock_to_safety_stock_witness :
  exists out,
    simulate_week reference_config scenario_A_row partial_inventory 150000 = Ok out /\
    out_alloc_truck out
    = required reference_config (row_demand scenario_A_row) partial_inventory /\
    forall k, get (out_ending_inv out) k = SAFETY_STOCK reference_config.
Proof.
  apply (restock_to_safety_stock reference_config scenario_A_row
           partial_inventory 150000).
  - reflexivity.
  - discriminate.
  - repeat split.
    + intros []; discriminate.
    + exists 40. reflexivity.
    + exists 30. reflexivity.
    + exists 4. reflexivity.
    + exists 4. reflexivity.
  - discriminate.
  - intros []; discriminate.
  - intros []; discriminate.
  - reflexivity.
Defined.

(** ** The run in a steady state *)

Lemma required_initial cfg (d : dict) :
  (forall k, 0 <= get d k) -> required cfg d (initial_inventory cfg) = d.
Proof.
  intros Hd. apply quad_ext. intros k. unfold required.
  rewrite get_comprehension.
  replace (get_default (initial_inventory cfg) k (SAFETY_STOCK cfg))
    with (SAFETY_STOCK cfg) by (destruct k; reflexivity).
  specialize (Hd k). lia.
Qed.

Lemma ending_steady cfg (d : dict) :
  0 <= SAFETY_STOCK cfg ->
  ending_inventory cfg d (initial_inventory cfg) d
  = comprehension (fun _ => SAFETY_STOCK cfg).
Proof.
  intros Hss. apply quad_ext. intros k. unfold ending_inventory.
  rewrite !get_comprehension.
  replace (get_default (initial_inventory cfg) k (SAFETY_STOCK cfg))
    with (SAFETY_STOCK cfg) by (destruct k; reflexivity).
  lia.
Qed.

Lemma fulfilled_self (d : dict) : fulfilled_quantities d d = d.
Proof.
  apply quad_ext. intros k. unfold fulfilled_quantities.
  rewrite get_comprehension. apply Z.min_id.
Qed.

Lemma fulfillment_percentage_self (d : dict) :
  0 < sum_values d -> fulfillment_percentage d d = Ok hundred.
Proof.
  intros HD. unfold fulfillment_percentage.
  rewrite int_truediv_self by assumption. cbn [bind].
  unfold mul_int. rewrite of_int_100. reflexivity.
Qed.

Lemma run_week_steady cfg r :
  0 < TRUCK_SIZE cfg -> 0 <= SAFETY_STOCK cfg -> steady_row cfg r ->
  exists wr,
    run_week cfg r (initial_inventory cfg) = Ok (wr, initial_inventory cfg) /\
    res_shipments wr = row_demand r /\
    res_Total_Production wr = res_Total_Demand wr /\
    res_Fulfillment wr = hundred.
Proof.
  intros Hts Hss [Hg [HD Hc]].
  pose proof Hg as (Hnn & _ & _ & [n Hn] & [m Hm] & Hb).
  pose proof (Hnn North_Regular). pose proof (Hnn North_Diet).
  pose proof (Hnn South_Regular). pose proof (Hnn South_Diet).
  rewrite sum_values_get in Hb. cbn [get] in *.
  unfold run_week, simulate_week.
  rewrite required_initial by assumption.
  rewrite scale_within by assumption. cbn [bind].
  rewrite on_grid_ship by assumption. cbn [bind].
  rewrite fulfilled_self, fulfillment_percentage_self by assumption.
  cbn [bind out_alloc_truck out_ending_inv out_fulfillment_pct].
  destruct (int_truediv_le (sum_values (row_demand r)) (PLANT_CAPACITY cfg))
    as (u & -> & Hu); [lia|lia|]. cbn [bind].
  destruct (mul_hundred_bounds u Hu) as (p & -> & _). cbn [bind].
  rewrite Hn, Hm.
  rewrite !int_truediv_exact by nia. cbn [bind].
  rewrite ending_steady by assumption.
  eexists. split; [reflexivity|].
  cbn [res_shipments res_Total_Production res_Total_Demand res_Fulfillment].
  repeat split.
Qed.

(** X18.  A run over weeks whose demands are all on the grid, positive and
    within the capacity ships every week exactly the demand: production
    equals demand and the fulfillment reported is 100.0 in each record. *)
Theorem steady_run cfg rows :
  0 < TRUCK_SIZE cfg -> 0 <= SAFETY_STOCK cfg ->
  Forall (steady_row cfg) rows ->
  exists res,
    run cfg rows = Ok res /\
    map res_shipments res = map row_demand rows /\
    Forall (fun wr => res_Total_Production wr = res_Total_Demand wr /\
                      res_Fulfillment wr = hundred) res.
Proof.
  intros Hts Hss Hrows. unfold run.
  induction Hrows as [|r rest Hr _ IH].
  - exists []. repeat split. constructor.
  - destruct IH as (res & Hres & Hship & Hall).
    destruct (run_week_steady cfg r Hts Hss Hr) as (wr & Hwr & Hs & Hp & Hf).
    exists (wr :: res). cbn [run_from]. rewrite Hwr. cbn [bind].
    rewrite run_from_shift, Hres. cbn [app map].
    rewrite Hs, Hship. repeat split. constructor; [split|]; assumption.
Qed.

Lemma steady_run_witness :
  exists res,
    run reference_config steady_rows = Ok res /\
    map res_shipments res = map row_demand steady_rows /\
    Forall (fun wr => res_Total_Production wr = res_Total_Demand wr /\
                      res_Fulfillment wr = hundred) res.
Proof.
  apply (steady_run reference_config steady_rows).
  - reflexivity.
  - discriminate.
  - repeat constructor; try (intros []; discriminate); try discriminate;
      try reflexivity.
    + exists 40. reflexivity.
    + exists 30. reflexivity.
    + exists 5. reflexivity.
    + exists 4. reflexivity.
    + exists 33. reflexivity.
    + exists 0. reflexivity.
    + exists 4. reflexivity.
    + exists 2. reflexivity.
    + exists 50. reflexivity.
    + exists 61. reflexivity.
    + exists 5. reflexivity.
    + exists 10. reflexivity.
Defined.

(** ** The inventory chart in a steady state *)

Lemma simulate_week_steady cfg r :
  0 < TRUCK_SIZE cfg -> 0 <= SAFETY_STOCK cfg -> steady_row cfg r ->
  simulate_week cfg r (initial_inventory cfg) (PLANT_CAPACITY cfg)
  = Ok (mkOutcome (row_demand r) (comprehension (fun _ => SAFETY_STOCK cfg))
                  (row_demand r) hundred (sum_values (row_demand r))).
Proof.
  intros Hts Hss [Hg [HD Hc]]. pose proof Hg as (Hnn & _).
  unfold simulate_week.
  rewrite required_initial by assumption.
  rewrite scale_within by assumption. cbn [bind].
  rewrite on_grid_ship by assumption. cbn [bind].
  rewrite fulfilled_self, fulfillment_percentage_self by assumption.
  cbn [bind]. rewrite ending_steady by assumption. reflexivity.
Qed.

(** X19.  Over weeks whose demands are all on the grid, positive and within
    the capacity, the inventory chart is flat: every record holds the safety
    stock on every key. *)
Theorem steady_inventory cfg rows :
  0 < TRUCK_SIZE cfg -> 0 <= SAFETY_STOCK cfg ->
  Forall (steady_row cfg) rows ->
  inventory_records cfg rows
  = Ok (map (fun r => mkInventoryRecord (Week r)
                        (comprehension (fun _ => SAFETY_STOCK cfg))) rows).
Proof.
  intros Hts Hss Hrows. unfold inventory_records.
  induction Hrows as [|r rest Hr _ IH]; [reflexivity|].
  cbn [inventory_records_from].
  rewrite simulate_week_steady by assumption. cbn [bind out_ending_inv].
  rewrite inventory_records_shift.
  change (full (comprehension (fun _ => SAFETY_STOCK cfg)))
    with (initial_inventory cfg).
  rewrite IH. reflexivity.
Qed.

Lemma steady_inventory_witness :
  inventory_records reference_config steady_rows
  = Ok (map (fun r => mkInventoryRecord (Week r)
                        (comprehension (fun _ => SAFETY_STOCK reference_config)))
            steady_rows).
Proof.
  apply (steady_inventory reference_config steady_rows).
  - reflexivity.
  - discriminate.
  - repeat constructor; try (intros []; discriminate); try discriminate;
      try reflexivity.
    + exists 40. reflexivity.
    + exists 30. reflexivity.
    + exists 5. reflexivity.
    + exists 4. reflexivity.
    + exists 33. reflexivity.
    + exists 0. reflexivity.
    + exists 4. reflexivity.
    + exists 2. reflexivity.
    + exists 50. reflexivity.
    + exists 61. reflexivity.
    + exists 5. reflexivity.
    + exists 10. reflexivity.
Defined.

(** ** The run returns *)

Lemma required_le cfg demand inv k :
  0 <= get demand k -> 0 <= SAFETY_STOCK cfg ->
  0 <= get_default inv k (SAFETY_STOCK cfg) ->
  get (required cfg demand inv) k <= get demand k + SAFETY_STOCK cfg.
Proof.
  intros Hd Hss Hi. unfold required. rewrite get_comprehension. lia.
Qed.

Lemma run_week_returns cfg r inv :
  0 < PLANT_CAPACITY cfg -> 0 < TRUCK_SIZE cfg -> 0 <= SAFETY_STOCK cfg ->
  (forall k, 0 <= get_default inv k (SAFETY_STOCK cfg)) ->
  moderate_row cfg r ->
  exists wr inv',
    run_week cfg r inv = Ok (wr, inv') /\
    forall k, 0 <= get_default inv' k (SAFETY_STOCK cfg).
Proof.
  intros Hc Hts Hss Hinv (Hd & HD & Hsum & Hprod).
  set (req := required cfg (row_demand r) inv).
  assert (Hreq : forall k, get req k <= get (row_demand r) k + SAFETY_STOCK cfg).
  { intros k. apply required_le; auto. }
  assert (HT : sum_values req < 2 ^ 53).
  { pose proof (Hreq North_Regular). pose proof (Hreq North_Diet).
    pose proof (Hreq South_Regular). pose proof (Hreq South_Diet).
    rewrite sum_values_get in *. lia. }
  assert (Hb : forall k, get req k * PLANT_CAPACITY cfg < 2 ^ 53).
  { intros k. specialize (Hreq k). specialize (Hprod k). nia. }
  assert (Hcap : PLANT_CAPACITY cfg < 2 ^ 53).
  { assert (exists k, 0 < get (row_demand r) k) as [k Hk].
    { rewrite sum_values_get in HD.
      destruct (Z_lt_le_dec 0 (get (row_demand r) North_Regular)); [eauto|].
      destruct (Z_lt_le_dec 0 (get (row_demand r) North_Diet)); [eauto|].
      destruct (Z_lt_le_dec 0 (get (row_demand r) South_Regular)); [eauto|].
      exists South_Diet. lia. }
    specialize (Hprod k). nia. }
  destruct (simulate_week_returns cfg r inv (PLANT_CAPACITY cfg) Hc Hts Hd HD HT
              (fun _ => Hb)) as (out & Hout).
  destruct (simulate_week_inv cfg _ _ _ _ Hout) as (Ha & He & _).
  destruct (allocate_returns cfg (row_demand r) inv (PLANT_CAPACITY cfg) Hc Hts HT
              (fun _ => Hb)) as (s & Hs & Hle).
  rewrite Ha in Hs. injection Hs as <-.
  pose proof (allocate_nonneg cfg _ _ _ _ (Z.lt_le_incl _ _ Hc) Hts Ha) as Hnn.
  destruct (allocate_inv cfg _ _ _ _ Ha) as (alloc & Hsc & Hship).
  assert (Hann : forall k, 0 <= get alloc k).
  { apply scale_nonneg with (2 := Z.lt_le_incl _ _ Hc) (3 := Hsc).
    intros k. apply required_nonneg. }
  pose proof (Hann North_Regular). pose proof (Hann North_Diet).
  pose proof (Hann South_Regular). pose proof (Hann South_Diet).
  pose proof (Hnn North_Regular). pose proof (Hnn North_Diet).
  pose proof (Hnn South_Regular). pose proof (Hnn South_Diet).
  cbn [get] in *.
  destruct (ship_dc_totals cfg alloc _ Hship) as [Hn Hso].
  apply truck_total_nonneg in Hn; [|lia|assumption].
  apply truck_total_nonneg in Hso; [|lia|assumption].
  destruct Hn as (n1 & Hn1 & En), Hso as (n2 & Hn2 & Es).
  unfold run_week. rewrite Hout. cbn [bind].
  set (sh := out_alloc_truck out) in *.
  assert (Hsum0 : 0 <= sum_values sh <= PLANT_CAPACITY cfg).
  { rewrite sum_values_get in *. cbn [get] in *. lia. }
  destruct (int_truediv_le (sum_values sh) (PLANT_CAPACITY cfg) Hsum0 Hc)
    as (u & -> & Hu). cbn [bind].
  destruct (mul_hundred_bounds u Hu) as (p & -> & _). cbn [bind].
  rewrite sum_values_get in Hsum0. cbn [get] in Hsum0.
  rewrite En, Es.
  rewrite !int_truediv_exact by lia. cbn [bind].
  eexists. eexists. split; [reflexivity|].
  intros k. rewrite He. unfold full, ending_inventory, get_default.
  rewrite !get_comprehension. apply Z.le_max_l.
Qed.

Lemma run_from_returns cfg rows :
  0 < PLANT_CAPACITY cfg -> 0 < TRUCK_SIZE cfg -> 0 <= SAFETY_STOCK cfg ->
  Forall (moderate_row cfg) rows ->
  forall inv acc,
    (forall k, 0 <= get_default inv k (SAFETY_STOCK cfg)) ->
    exists res, run_from cfg rows inv acc = Ok res.
Proof.
  intros Hc Hts Hss Hrows.
  induction Hrows as [|r rest Hr _ IH]; intros inv acc Hinv; cbn [run_from].
  - eauto.
  - destruct (run_week_returns cfg r inv Hc Hts Hss Hinv Hr) as (wr & inv' & -> & Hinv').
    cbn [bind]. apply IH. assumption.
Qed.

(** X20.  With a positive capacity and truck size and a safety stock that
    is not negative, the run returns a result for every table of weeks that
    each have some demand, no negative demand, and quantities that the
    floats hold exactly: no division by zero, no overflow. *)
Theorem run_returns cfg rows :
  0 < PLANT_CAPACITY cfg -> 0 < TRUCK_SIZE cfg -> 0 <= SAFETY_STOCK cfg ->
  Forall (moderate_row cfg) rows ->
  exists res, run cfg rows = Ok res.
Proof.
  intros Hc Hts Hss Hrows. unfold run.
  apply run_from_returns; try assumption.
  intros k. replace (get_default (initial_inventory cfg) k (SAFETY_STOCK cfg))
    with (SAFETY_STOCK cfg) by (destruct k; reflexivity).
  assumption.
Qed.

Lemma run_returns_witness :
  exists res, run reference_config [scenario_B_row; scenario_A_row; diet_only_row] = Ok res.
Proof.
  apply (run_returns reference_config [scenario_B_row; scenario_A_row; diet_only_row]).
  - reflexivity.
  - reflexivity.
  - discriminate.
  - repeat constructor; try (intros []; discriminate); try discriminate;
      try reflexivity; intros []; reflexivity.
Defined.
